(** * Cornerlight: the stealth simulation core, embedded and verified

    A shallow embedding of the TypeScript simulation core of the game
    (utils.ts, collision.ts, enemyAI.ts, gameLoop.ts, types.ts, config.ts),
    of the spawn search (spawnSafety.ts), of the level loader
    ([levelDataToGameData] of levelData.ts) and of [initGame] of
    GameCanvas.tsx.

    Modelling conventions.
    - A JavaScript [number] that holds a continuous quantity (positions,
      angles, timers, alert levels, speeds) is a real number [R]; the
      rounding of IEEE doubles, NaN and the infinities are not modelled.
    - Whole-number counters (ammo, health, ids, pickup amounts) are [Z]:
      every write to them in the source is an integer constant, a step of
      one, a [Math.min] of two counters or [Math.floor(..) + 2].
    - Objects mutated in place are threaded explicitly through the
      functions that mutate them.
    - A property read on [undefined] raises a TypeError in JavaScript; the
      functions that can reach one return in the [Exn] monad.
    - Calls to [audioManager] are signals to the sound collaborator; they
      do not touch the game state and are left out.
    - Loops that do not recurse on their data run on fuel; the fuel they
      are given is proved to be enough, so that running out of it, shown
      as [None], never happens. *)

From Equations Require Import Equations.
From Stdlib Require Import Reals Lra Lia ZArith List Bool Psatz.
Import ListNotations.

Set Implicit Arguments.
Local Open Scope R_scope.

(** ** Comparisons on numbers, as booleans *)

Definition Rleb (a b : R) : bool := if Rle_dec a b then true else false.
Definition Rltb (a b : R) : bool := if Rlt_dec a b then true else false.
Definition Rgeb (a b : R) : bool := Rleb b a.
Definition Rgtb (a b : R) : bool := Rltb b a.
Definition Reqb (a b : R) : bool := if Req_dec_T a b then true else false.

(** ** The runtime's [Math] object, on real numbers *)

Module JSMath.

Definition max (a b : R) : R := Rmax a b.
Definition min (a b : R) : R := Rmin a b.
Definition abs (a : R) : R := Rabs a.
Definition sqrt (a : R) : R := R_sqrt.sqrt a.
Definition floor (a : R) : Z := Zfloor a.

(** [Math.atan2(y, x)]: the angle of the point (x, y), in (-PI, PI]. *)
Definition atan2 (y x : R) : R :=
  if Rltb 0 x then atan (y / x)
  else if Rltb x 0 then
    (if Rleb 0 y then atan (y / x) + PI else atan (y / x) - PI)
  else if Rltb 0 y then PI / 2
  else if Rltb y 0 then - (PI / 2)
  else 0.

End JSMath.

(** ** types.ts *)

Module Vec2.
Record t : Type := mk { x : R; y : R }.
End Vec2.

Inductive TileType : Type := FLOOR | WALL | COVER | EXIT | SPAWN | AMMO.

Definition TileType_eqb (a b : TileType) : bool :=
  match a, b with
  | FLOOR, FLOOR | WALL, WALL | COVER, COVER
  | EXIT, EXIT | SPAWN, SPAWN | AMMO, AMMO => true
  | _, _ => false
  end.

Definition Grid : Type := list (list TileType).

(** ** utils.ts *)

Definition distance (a b : Vec2.t) : R :=
  JSMath.sqrt ((Vec2.x b - Vec2.x a) ^ 2 + (Vec2.y b - Vec2.y a) ^ 2).

Definition normalize (v : Vec2.t) : Vec2.t :=
  let len := JSMath.sqrt (Vec2.x v ^ 2 + Vec2.y v ^ 2) in
  if Reqb len 0 then Vec2.mk 0 0
  else Vec2.mk (Vec2.x v / len) (Vec2.y v / len).

Definition angleBetween (from to : Vec2.t) : R :=
  JSMath.atan2 (Vec2.y to - Vec2.y from) (Vec2.x to - Vec2.x from).

(** The two loops of [normalizeAngle].  Each strips one full turn per
    iteration; the number of turns still to strip is the measure. *)

Definition turnsAbove (angle : R) : nat := Z.to_nat (up ((angle - PI) / (2 * PI))).
Definition turnsBelow (angle : R) : nat := Z.to_nat (up ((- PI - angle) / (2 * PI))).

(** [while (angle > Math.PI) angle -= Math.PI * 2;] *)
Equations whileAbove (angle : R) : R by wf (turnsAbove angle) lt :=
  whileAbove angle with Rgt_dec angle PI => {
    | left _ := whileAbove (angle - PI * 2);
    | right _ := angle }.
Next Obligation.
  unfold turnsAbove. pose proof PI_RGT_0 as Hpi.
  replace ((angle - PI * 2 - PI) / (2 * PI)) with ((angle - PI) / (2 * PI) - 1)
    by (field; lra).
  assert (Hq : 0 < (angle - PI) / (2 * PI)) by (apply Rdiv_lt_0_compat; lra).
  set (q := (angle - PI) / (2 * PI)) in *.
  assert (Hup : up (q - 1) = (up q - 1)%Z).
  { symmetry. apply tech_up; rewrite minus_IZR; destruct (archimed q); lra. }
  assert (Hpos : (0 < up q)%Z) by (apply lt_IZR; destruct (archimed q); lra).
  rewrite Hup. lia.
Qed.

(** [while (angle < -Math.PI) angle += Math.PI * 2;] *)
Equations whileBelow (angle : R) : R by wf (turnsBelow angle) lt :=
  whileBelow angle with Rlt_dec angle (- PI) => {
    | left _ := whileBelow (angle + PI * 2);
    | right _ := angle }.
Next Obligation.
  unfold turnsBelow. pose proof PI_RGT_0 as Hpi.
  replace ((- PI - (angle + PI * 2)) / (2 * PI)) with ((- PI - angle) / (2 * PI) - 1)
    by (field; lra).
  assert (Hq : 0 < (- PI - angle) / (2 * PI)) by (apply Rdiv_lt_0_compat; lra).
  set (q := (- PI - angle) / (2 * PI)) in *.
  assert (Hup : up (q - 1) = (up q - 1)%Z).
  { symmetry. apply tech_up; rewrite minus_IZR; destruct (archimed q); lra. }
  assert (Hpos : (0 < up q)%Z) by (apply lt_IZR; destruct (archimed q); lra).
  rewrite Hup. lia.
Qed.

Definition normalizeAngle (angle : R) : R := whileBelow (whileAbove angle).

Definition angleDifference (a b : R) : R := normalizeAngle (b - a).

Definition degToRad (deg : R) : R := (deg * PI) / 180.

(** Two angles are congruent when they differ by whole turns. *)
Definition congruent (u v : R) : Prop :=
  exists k : Z, u = v + IZR k * (2 * PI).

(** Bresenham's line algorithm for raycasting.  The [while (true)] loop runs
    under a step budget; [getLinePoints] hands it one step per unit of
    [dx + dy] plus one, and [getLinePoints_loop_returns] below shows that
    this budget is never exhausted. *)
Fixpoint getLinePoints_loop (fuel : nat) (x1 y1 dx dy sx sy : Z) (x y err : Z)
  : option (list (Z * Z)) :=
  match fuel with
  | O => None
  | S fuel' =>
      if ((x =? x1) && (y =? y1))%Z then Some [(x, y)]
      else
        let e2 := (2 * err)%Z in
        let '(err', x') :=
          if (e2 >? - dy)%Z then ((err - dy)%Z, (x + sx)%Z) else (err, x) in
        let '(err'', y') :=
          if (e2 <? dx)%Z then ((err' + dx)%Z, (y + sy)%Z) else (err', y) in
        option_map (cons (x, y))
          (getLinePoints_loop fuel' x1 y1 dx dy sx sy x' y' err'')
  end.

Definition getLinePoints (x0 y0 x1 y1 : Z) : list (Z * Z) :=
  let dx := Z.abs (x1 - x0) in
  let dy := Z.abs (y1 - y0) in
  let sx := if (x0 <? x1)%Z then 1%Z else (-1)%Z in
  let sy := if (y0 <? y1)%Z then 1%Z else (-1)%Z in
  let err := (dx - dy)%Z in
  match getLinePoints_loop (S (Z.to_nat (dx + dy))) x1 y1 dx dy sx sy x0 y0 err with
  | Some points => points
  | None => []
  end.

(** ** collision.ts *)

(** [grid.length] and [grid[0].length].  The source reads [grid[0]] only
    after [tileY < grid.length] has succeeded, so the empty grid never
    reaches it. *)
Definition gridRows (grid : Grid) : Z := Z.of_nat (length grid).
Definition gridCols (grid : Grid) : Z :=
  match grid with [] => 0%Z | row :: _ => Z.of_nat (length row) end.

(** [grid[y][x]] for indices already known to be non-negative; [None] is
    JavaScript's [undefined] (a row shorter than row 0). *)
Definition tileAt (grid : Grid) (tx ty : Z) : option TileType :=
  match nth_error grid (Z.to_nat ty) with
  | Some row => nth_error row (Z.to_nat tx)
  | None => None
  end.

Definition isTile (t : TileType) (o : option TileType) : bool :=
  match o with Some t' => TileType_eqb t' t | None => false end.

Definition isWalkable (grid : Grid) (x y : R) : bool :=
  let tileX := JSMath.floor x in
  let tileY := JSMath.floor y in
  if ((tileY <? 0) || (tileY >=? gridRows grid) ||
      (tileX <? 0) || (tileX >=? gridCols grid))%Z
  then false
  else negb (isTile WALL (tileAt grid tileX tileY)).

Definition canMoveTo (grid : Grid) (from to : Vec2.t) (radius : R) : bool :=
  let offsets :=
    [ Vec2.mk (- radius) (- radius); Vec2.mk radius (- radius);
      Vec2.mk (- radius) radius; Vec2.mk radius radius ] in
  forallb
    (fun offset =>
       isWalkable grid (Vec2.x to + Vec2.x offset) (Vec2.y to + Vec2.y offset))
    offsets.

(** The cells strictly between the first and the last point of a line:
    [for (let i = 1; i < points.length - 1; i++)]. *)
Definition intermediate {A : Type} (points : list A) : list A :=
  removelast (tl points).

Definition blocksSight (grid : Grid) (point : Z * Z) : bool :=
  let '(px, py) := point in
  if ((py >=? 0) && (py <? gridRows grid) &&
      (px >=? 0) && (px <? gridCols grid))%Z
  then
    let tile := tileAt grid px py in
    isTile WALL tile || isTile COVER tile
  else false.

Definition hasLineOfSight (grid : Grid) (from to : Vec2.t) : bool :=
  let fromTile := (JSMath.floor (Vec2.x from), JSMath.floor (Vec2.y from)) in
  let toTile := (JSMath.floor (Vec2.x to), JSMath.floor (Vec2.y to)) in
  let points :=
    getLinePoints (fst fromTile) (snd fromTile) (fst toTile) (snd toTile) in
  forallb (fun point => negb (blocksSight grid point)) (intermediate points).

Definition resolveCollision (grid : Grid) (from to : Vec2.t) (radius : R)
  : Vec2.t :=
  if canMoveTo grid from to radius then to
  else
    let horizontalOnly := Vec2.mk (Vec2.x to) (Vec2.y from) in
    if canMoveTo grid from horizontalOnly radius then horizontalOnly
    else
      let verticalOnly := Vec2.mk (Vec2.x from) (Vec2.y to) in
      if canMoveTo grid from verticalOnly radius then verticalOnly
      else from.

(** ** types.ts, continued: the entities *)

Module Player.
Record t : Type := mk {
  pos : Vec2.t;
  angle : R;
  isSprinting : bool;
  isSneaking : bool;
  speed : R;
  noiseLevel : R;
  ammo : Z;
  maxAmmo : Z;
  health : Z;
  maxHealth : Z;
  shootCooldown : R }.

Definition set_pos v p :=
  mk v (angle p) (isSprinting p) (isSneaking p) (speed p) (noiseLevel p)
     (ammo p) (maxAmmo p) (health p) (maxHealth p) (shootCooldown p).
Definition set_isSprinting v p :=
  mk (pos p) (angle p) v (isSneaking p) (speed p) (noiseLevel p)
     (ammo p) (maxAmmo p) (health p) (maxHealth p) (shootCooldown p).
Definition set_isSneaking v p :=
  mk (pos p) (angle p) (isSprinting p) v (speed p) (noiseLevel p)
     (ammo p) (maxAmmo p) (health p) (maxHealth p) (shootCooldown p).
Definition set_noiseLevel v p :=
  mk (pos p) (angle p) (isSprinting p) (isSneaking p) (speed p) v
     (ammo p) (maxAmmo p) (health p) (maxHealth p) (shootCooldown p).
Definition set_ammo v p :=
  mk (pos p) (angle p) (isSprinting p) (isSneaking p) (speed p) (noiseLevel p)
     v (maxAmmo p) (health p) (maxHealth p) (shootCooldown p).
Definition set_health v p :=
  mk (pos p) (angle p) (isSprinting p) (isSneaking p) (speed p) (noiseLevel p)
     (ammo p) (maxAmmo p) v (maxHealth p) (shootCooldown p).
Definition set_shootCooldown v p :=
  mk (pos p) (angle p) (isSprinting p) (isSneaking p) (speed p) (noiseLevel p)
     (ammo p) (maxAmmo p) (health p) (maxHealth p) v.
End Player.

Inductive EnemyState : Type := PATROL | INVESTIGATE | CHASE | RETURN.

Module Enemy.
Record t : Type := mk {
  id : Z;
  pos : Vec2.t;
  angle : R;
  state : EnemyState;
  waypoints : list Vec2.t;
  currentWaypointIndex : nat;
  investigateTarget : option Vec2.t;
  lastKnownPlayerPos : option Vec2.t;
  alertLevel : R;
  stateTimer : R;
  speed : R;
  ammo : Z;
  maxAmmo : Z;
  health : Z;
  shootCooldown : R;
  isDead : bool }.

Definition set_pos v e :=
  mk (id e) v (angle e) (state e) (waypoints e) (currentWaypointIndex e)
     (investigateTarget e) (lastKnownPlayerPos e) (alertLevel e)
     (stateTimer e) (speed e) (ammo e) (maxAmmo e) (health e)
     (shootCooldown e) (isDead e).
Definition set_angle v e :=
  mk (id e) (pos e) v (state e) (waypoints e) (currentWaypointIndex e)
     (investigateTarget e) (lastKnownPlayerPos e) (alertLevel e)
     (stateTimer e) (speed e) (ammo e) (maxAmmo e) (health e)
     (shootCooldown e) (isDead e).
Definition set_state v e :=
  mk (id e) (pos e) (angle e) v (waypoints e) (currentWaypointIndex e)
     (investigateTarget e) (lastKnownPlayerPos e) (alertLevel e)
     (stateTimer e) (speed e) (ammo e) (maxAmmo e) (health e)
     (shootCooldown e) (isDead e).
Definition set_currentWaypointIndex v e :=
  mk (id e) (pos e) (angle e) (state e) (waypoints e) v
     (investigateTarget e) (lastKnownPlayerPos e) (alertLevel e)
     (stateTimer e) (speed e) (ammo e) (maxAmmo e) (health e)
     (shootCooldown e) (isDead e).
Definition set_investigateTarget v e :=
  mk (id e) (pos e) (angle e) (state e) (waypoints e) (currentWaypointIndex e)
     v (lastKnownPlayerPos e) (alertLevel e)
     (stateTimer e) (speed e) (ammo e) (maxAmmo e) (health e)
     (shootCooldown e) (isDead e).
Definition set_lastKnownPlayerPos v e :=
  mk (id e) (pos e) (angle e) (state e) (waypoints e) (currentWaypointIndex e)
     (investigateTarget e) v (alertLevel e)
     (stateTimer e) (speed e) (ammo e) (maxAmmo e) (health e)
     (shootCooldown e) (isDead e).
Definition set_alertLevel v e :=
  mk (id e) (pos e) (angle e) (state e) (waypoints e) (currentWaypointIndex e)
     (investigateTarget e) (lastKnownPlayerPos e) v
     (stateTimer e) (speed e) (ammo e) (maxAmmo e) (health e)
     (shootCooldown e) (isDead e).
Definition set_stateTimer v e :=
  mk (id e) (pos e) (angle e) (state e) (waypoints e) (currentWaypointIndex e)
     (investigateTarget e) (lastKnownPlayerPos e) (alertLevel e)
     v (speed e) (ammo e) (maxAmmo e) (health e)
     (shootCooldown e) (isDead e).
Definition set_speed v e :=
  mk (id e) (pos e) (angle e) (state e) (waypoints e) (currentWaypointIndex e)
     (investigateTarget e) (lastKnownPlayerPos e) (alertLevel e)
     (stateTimer e) v (ammo e) (maxAmmo e) (health e)
     (shootCooldown e) (isDead e).
Definition set_ammo v e :=
  mk (id e) (pos e) (angle e) (state e) (waypoints e) (currentWaypointIndex e)
     (investigateTarget e) (lastKnownPlayerPos e) (alertLevel e)
     (stateTimer e) (speed e) v (maxAmmo e) (health e)
     (shootCooldown e) (isDead e).
Definition set_health v e :=
  mk (id e) (pos e) (angle e) (state e) (waypoints e) (currentWaypointIndex e)
     (investigateTarget e) (lastKnownPlayerPos e) (alertLevel e)
     (stateTimer e) (speed e) (ammo e) (maxAmmo e) v
     (shootCooldown e) (isDead e).
Definition set_shootCooldown v e :=
  mk (id e) (pos e) (angle e) (state e) (waypoints e) (currentWaypointIndex e)
     (investigateTarget e) (lastKnownPlayerPos e) (alertLevel e)
     (stateTimer e) (speed e) (ammo e) (maxAmmo e) (health e)
     v (isDead e).
Definition set_isDead v e :=
  mk (id e) (pos e) (angle e) (state e) (waypoints e) (currentWaypointIndex e)
     (investigateTarget e) (lastKnownPlayerPos e) (alertLevel e)
     (stateTimer e) (speed e) (ammo e) (maxAmmo e) (health e)
     (shootCooldown e) v.
End Enemy.

Module GameConfig.
Record t : Type := mk {
  gridWidth : Z;
  gridHeight : Z;
  tileSize : R;
  visionAngle : R;
  visionRange : R;
  hearingRadius : R;
  enemyCount : Z * Z;
  playerWalkSpeed : R;
  playerSprintSpeed : R;
  playerSneakSpeed : R;
  enemyPatrolSpeed : R;
  enemyChaseSpeed : R;
  chaseDuration : R;
  seed : Z }.
End GameConfig.

Module Bullet.
Record t : Type := mk {
  id : Z;
  pos : Vec2.t;
  velocity : Vec2.t;
  isPlayerBullet : bool;
  lifetime : R }.
End Bullet.

Module AmmoPickup.
Record t : Type := mk {
  pos : Vec2.t;
  amount : Z;
  collected : bool }.
End AmmoPickup.

Module NoiseMarker.
Record t : Type := mk {
  pos : Vec2.t;
  radius : R;
  lifetime : R;
  maxLifetime : R }.
End NoiseMarker.

Module InputState.
Record t : Type := mk {
  up : bool;
  down : bool;
  left : bool;
  right : bool;
  sprint : bool;
  sneak : bool;
  interact : bool;
  shoot : bool;
  mousePos : Vec2.t;
  mouseDown : bool }.

Definition set_interact v i :=
  mk (up i) (down i) (left i) (right i) (sprint i) (sneak i) v (shoot i)
     (mousePos i) (mouseDown i).
Definition set_shoot v i :=
  mk (up i) (down i) (left i) (right i) (sprint i) (sneak i) (interact i) v
     (mousePos i) (mouseDown i).
End InputState.

Module GameState.
Record t : Type := mk {
  player : Player.t;
  enemies : list Enemy.t;
  grid : Grid;
  config : GameConfig.t;
  isGameOver : bool;
  isWin : bool;
  isPaused : bool;
  debugMode : bool;
  detectionLevel : R;
  noiseMarkers : list NoiseMarker.t;
  bullets : list Bullet.t;
  ammoPickups : list AmmoPickup.t;
  nextBulletId : Z;
  exploredTiles : list (list bool) }.

Definition set_player v s :=
  mk v (enemies s) (grid s) (config s) (isGameOver s) (isWin s) (isPaused s)
     (debugMode s) (detectionLevel s) (noiseMarkers s) (bullets s)
     (ammoPickups s) (nextBulletId s) (exploredTiles s).
Definition set_enemies v s :=
  mk (player s) v (grid s) (config s) (isGameOver s) (isWin s) (isPaused s)
     (debugMode s) (detectionLevel s) (noiseMarkers s) (bullets s)
     (ammoPickups s) (nextBulletId s) (exploredTiles s).
Definition set_isGameOver v s :=
  mk (player s) (enemies s) (grid s) (config s) v (isWin s) (isPaused s)
     (debugMode s) (detectionLevel s) (noiseMarkers s) (bullets s)
     (ammoPickups s) (nextBulletId s) (exploredTiles s).
Definition set_isWin v s :=
  mk (player s) (enemies s) (grid s) (config s) (isGameOver s) v (isPaused s)
     (debugMode s) (detectionLevel s) (noiseMarkers s) (bullets s)
     (ammoPickups s) (nextBulletId s) (exploredTiles s).
Definition set_detectionLevel v s :=
  mk (player s) (enemies s) (grid s) (config s) (isGameOver s) (isWin s)
     (isPaused s) (debugMode s) v (noiseMarkers s) (bullets s)
     (ammoPickups s) (nextBulletId s) (exploredTiles s).
Definition set_noiseMarkers v s :=
  mk (player s) (enemies s) (grid s) (config s) (isGameOver s) (isWin s)
     (isPaused s) (debugMode s) (detectionLevel s) v (bullets s)
     (ammoPickups s) (nextBulletId s) (exploredTiles s).
Definition set_bullets v s :=
  mk (player s) (enemies s) (grid s) (config s) (isGameOver s) (isWin s)
     (isPaused s) (debugMode s) (detectionLevel s) (noiseMarkers s) v
     (ammoPickups s) (nextBulletId s) (exploredTiles s).
Definition set_ammoPickups v s :=
  mk (player s) (enemies s) (grid s) (config s) (isGameOver s) (isWin s)
     (isPaused s) (debugMode s) (detectionLevel s) (noiseMarkers s)
     (bullets s) v (nextBulletId s) (exploredTiles s).
Definition set_nextBulletId v s :=
  mk (player s) (enemies s) (grid s) (config s) (isGameOver s) (isWin s)
     (isPaused s) (debugMode s) (detectionLevel s) (noiseMarkers s)
     (bullets s) (ammoPickups s) v (exploredTiles s).
End GameState.

(** ** config.ts *)

Module COMBAT_CONFIG.
Definition playerStartAmmo : Z := 12.
Definition playerMaxAmmo : Z := 24.
Definition playerHealth : Z := 3.
Definition enemyAmmo : Z := 6.
Definition enemyHealth : Z := 1.
Definition bulletSpeed : R := 15.
Definition bulletLifetime : R := 2.
Definition shootCooldown : R := 0.3.
Definition enemyShootCooldown : R := 0.8.
Definition ammoPickupAmount : Z := 6.
End COMBAT_CONFIG.

(** ** Thrown TypeErrors *)

Definition Exn (A : Type) : Type := option A.
Definition ret {A : Type} (a : A) : Exn A := Some a.
Definition throw {A : Type} : Exn A := None.
Definition bind {A B : Type} (m : Exn A) (k : A -> Exn B) : Exn B :=
  match m with Some a => k a | None => None end.

Notation "x <- m ;; k" := (bind m (fun x => k))
  (at level 61, m at next level, right associativity).
Notation "' p <- m ;; k" := (bind m (fun x => let 'p := x in k))
  (at level 61, p pattern, m at next level, right associativity).

(** ** enemyAI.ts *)

Module Result.
(** What [updateEnemy] returns to the orchestrator. *)
Record t : Type := mk {
  detected : bool;
  alertLevel : R;
  shouldShoot : bool }.
End Result.

Definition moveToward (enemy : Enemy.t) (target : Vec2.t) (grid : Grid)
    (deltaTime : R) : Enemy.t :=
  let direction :=
    normalize (Vec2.mk (Vec2.x target - Vec2.x (Enemy.pos enemy))
                       (Vec2.y target - Vec2.y (Enemy.pos enemy))) in
  let enemy :=
    if negb (Reqb (Vec2.x direction) 0) || negb (Reqb (Vec2.y direction) 0)
    then Enemy.set_angle (angleBetween (Enemy.pos enemy) target) enemy
    else enemy in
  let newPos :=
    Vec2.mk
      (Vec2.x (Enemy.pos enemy) + Vec2.x direction * Enemy.speed enemy * deltaTime)
      (Vec2.y (Enemy.pos enemy) + Vec2.y direction * Enemy.speed enemy * deltaTime) in
  Enemy.set_pos (resolveCollision grid (Enemy.pos enemy) newPos 0.35) enemy.

(** [enemy.waypoints[enemy.currentWaypointIndex]] is [undefined] past the
    end of the array, and [moveToward] then reads [target.x]. *)
Definition patrolBehavior (enemy : Enemy.t) (grid : Grid) (deltaTime : R)
  : Exn Enemy.t :=
  if (length (Enemy.waypoints enemy) =? 0)%nat then ret enemy
  else
    match nth_error (Enemy.waypoints enemy) (Enemy.currentWaypointIndex enemy) with
    | None => throw
    | Some target =>
        let enemy := moveToward enemy target grid deltaTime in
        if Rltb (distance (Enemy.pos enemy) target) 0.5
        then ret (Enemy.set_currentWaypointIndex
                    ((Enemy.currentWaypointIndex enemy + 1)
                       mod length (Enemy.waypoints enemy))%nat
                    enemy)
        else ret enemy
    end.

Definition investigateBehavior (enemy : Enemy.t) (grid : Grid) (deltaTime : R)
  : Enemy.t :=
  match Enemy.investigateTarget enemy with
  | None => enemy
  | Some target =>
      let enemy := moveToward enemy target grid deltaTime in
      if Rltb (distance (Enemy.pos enemy) target) 0.5
      then Enemy.set_angle (Enemy.angle enemy + deltaTime * 2) enemy
      else enemy
  end.

Definition chaseBehavior (enemy : Enemy.t) (player : Player.t) (grid : Grid)
    (deltaTime : R) : Enemy.t :=
  let target :=
    match Enemy.lastKnownPlayerPos enemy with
    | Some known => known
    | None => Player.pos player
    end in
  moveToward enemy target grid deltaTime.

Definition returnBehavior (enemy : Enemy.t) (grid : Grid) (deltaTime : R)
  : Enemy.t * bool :=
  match Enemy.waypoints enemy with
  | [] => (enemy, true)
  | target :: _ =>
      let enemy := moveToward enemy target grid deltaTime in
      (enemy, Rltb (distance (Enemy.pos enemy) target) 0.5)
  end.

(** *** Perception: the constants computed at the top of [updateEnemy] *)

Definition playerTilePos (player : Player.t) : Vec2.t :=
  Vec2.mk (Vec2.x (Player.pos player)) (Vec2.y (Player.pos player)).

Definition effectiveVisionRange (config : GameConfig.t) (player : Player.t) : R :=
  if Player.isSneaking player
  then GameConfig.visionRange config * 0.6
  else GameConfig.visionRange config.

Definition inVisionCone (config : GameConfig.t) (grid : Grid)
    (enemy : Enemy.t) (player : Player.t) : bool :=
  let distToPlayer := distance (Enemy.pos enemy) (playerTilePos player) in
  let angleToPlayer := angleBetween (Enemy.pos enemy) (playerTilePos player) in
  let angleDiff :=
    JSMath.abs (angleDifference (Enemy.angle enemy) angleToPlayer) in
  let halfVisionAngle := degToRad (GameConfig.visionAngle config / 2) in
  Rleb distToPlayer (effectiveVisionRange config player) &&
  Rleb angleDiff halfVisionAngle &&
  hasLineOfSight grid (Enemy.pos enemy) (playerTilePos player).

Definition hearingRange (config : GameConfig.t) (player : Player.t) : R :=
  if Player.isSprinting player then GameConfig.hearingRadius config * 1.5
  else if Player.isSneaking player then GameConfig.hearingRadius config * 0.3
  else GameConfig.hearingRadius config.

Definition canHear (config : GameConfig.t) (enemy : Enemy.t) (player : Player.t)
  : bool :=
  Rleb (distance (Enemy.pos enemy) (playerTilePos player))
       (hearingRange config player) &&
  Rgtb (Player.noiseLevel player) 0.

(** The scan over the noise markers.  The accumulator is the pair
    [(closestNoise, closestNoiseDist)]; a distance of [None] is the
    initial [Infinity]. *)
Definition noiseStep (config : GameConfig.t) (enemy : Enemy.t)
    (acc : option Vec2.t * option R) (noise : NoiseMarker.t)
  : option Vec2.t * option R :=
  let noiseDist := distance (Enemy.pos enemy) (NoiseMarker.pos noise) in
  if Rleb noiseDist (GameConfig.hearingRadius config) &&
     match snd acc with
     | None => true
     | Some closestNoiseDist => Rltb noiseDist closestNoiseDist
     end
  then (Some (NoiseMarker.pos noise), Some noiseDist)
  else acc.

Definition closestNoise (config : GameConfig.t) (enemy : Enemy.t)
    (noiseMarkers : list NoiseMarker.t) : option Vec2.t :=
  fst (fold_left (noiseStep config enemy) noiseMarkers (None, None)).

Definition isSome {A : Type} (o : option A) : bool :=
  match o with Some _ => true | None => false end.

(** *** The alert-level update ([// Update alert level]) *)

Definition alertUpdate (config : GameConfig.t) (grid : Grid) (deltaTime : R)
    (noiseMarkers : list NoiseMarker.t) (player : Player.t) (enemy : Enemy.t)
  : Enemy.t :=
  let closest := closestNoise config enemy noiseMarkers in
  let enemy :=
    if inVisionCone config grid enemy player then
      let enemy :=
        Enemy.set_alertLevel
          (Enemy.alertLevel enemy +
           (100 / (if Player.isSneaking player then 2 else 0.8)) * deltaTime)
          enemy in
      Enemy.set_lastKnownPlayerPos (Some (playerTilePos player)) enemy
    else if canHear config enemy player || isSome closest then
      let enemy :=
        Enemy.set_alertLevel (Enemy.alertLevel enemy + 30 * deltaTime) enemy in
      match closest with
      | Some noisePos => Enemy.set_investigateTarget (Some noisePos) enemy
      | None => Enemy.set_investigateTarget (Some (playerTilePos player)) enemy
      end
    else
      Enemy.set_alertLevel
        (JSMath.max 0 (Enemy.alertLevel enemy - 15 * deltaTime)) enemy in
  Enemy.set_alertLevel (JSMath.min 100 (Enemy.alertLevel enemy)) enemy.

(** *** The state machine ([switch (enemy.state)]) *)

Definition stateMachine (config : GameConfig.t) (grid : Grid) (deltaTime : R)
    (player : Player.t) (seen : bool) (distToPlayer : R) (enemy : Enemy.t)
  : Exn (Enemy.t * bool) :=
  match Enemy.state enemy with
  | PATROL =>
      if Rgeb (Enemy.alertLevel enemy) 100 then
        ret (Enemy.set_speed (GameConfig.enemyChaseSpeed config)
               (Enemy.set_stateTimer (GameConfig.chaseDuration config)
                  (Enemy.set_state CHASE enemy)), false)
      else if Rgeb (Enemy.alertLevel enemy) 40 then
        ret (Enemy.set_stateTimer 3 (Enemy.set_state INVESTIGATE enemy), false)
      else
        enemy <- patrolBehavior enemy grid deltaTime ;;
        ret (enemy, false)
  | INVESTIGATE =>
      let enemy := Enemy.set_stateTimer (Enemy.stateTimer enemy - deltaTime) enemy in
      if Rgeb (Enemy.alertLevel enemy) 100 then
        ret (Enemy.set_speed (GameConfig.enemyChaseSpeed config)
               (Enemy.set_stateTimer (GameConfig.chaseDuration config)
                  (Enemy.set_state CHASE enemy)), false)
      else if Rleb (Enemy.stateTimer enemy) 0 || Rltb (Enemy.alertLevel enemy) 10 then
        ret (Enemy.set_investigateTarget None (Enemy.set_state RETURN enemy), false)
      else
        ret (investigateBehavior enemy grid deltaTime, false)
  | CHASE =>
      let enemy := Enemy.set_stateTimer (Enemy.stateTimer enemy - deltaTime) enemy in
      let '(enemy, shouldShoot) :=
        if seen then
          let enemy := Enemy.set_stateTimer (GameConfig.chaseDuration config) enemy in
          if Rleb distToPlayer 8 && (Enemy.ammo enemy >? 0)%Z &&
             Rleb (Enemy.shootCooldown enemy) 0
          then (enemy, true)
          else (enemy, false)
        else (enemy, false) in
      if Rleb (Enemy.stateTimer enemy) 0 then
        ret (Enemy.set_alertLevel 30
               (Enemy.set_speed (GameConfig.enemyPatrolSpeed config)
                  (Enemy.set_state RETURN enemy)), shouldShoot)
      else
        ret (chaseBehavior enemy player grid deltaTime, shouldShoot)
  | RETURN =>
      if Rgeb (Enemy.alertLevel enemy) 60 then
        ret (Enemy.set_stateTimer 3 (Enemy.set_state INVESTIGATE enemy), false)
      else
        let '(enemy, returned) := returnBehavior enemy grid deltaTime in
        if returned then
          ret (Enemy.set_speed (GameConfig.enemyPatrolSpeed config)
                 (Enemy.set_state PATROL enemy), false)
        else ret (enemy, false)
  end.

(** [updateEnemy].  The source also receives the whole game state as a
    last argument and never reads it; it is dropped here. *)
Definition updateEnemy (enemy : Enemy.t) (player : Player.t) (grid : Grid)
    (config : GameConfig.t) (deltaTime : R) (noiseMarkers : list NoiseMarker.t)
  : Exn (Enemy.t * Result.t) :=
  if Enemy.isDead enemy then ret (enemy, Result.mk false 0 false)
  else
    let enemy :=
      Enemy.set_shootCooldown
        (JSMath.max 0 (Enemy.shootCooldown enemy - deltaTime)) enemy in
    let distToPlayer := distance (Enemy.pos enemy) (playerTilePos player) in
    let seen := inVisionCone config grid enemy player in
    let detected := seen in
    let enemy := alertUpdate config grid deltaTime noiseMarkers player enemy in
    '(enemy, shouldShoot) <-
      stateMachine config grid deltaTime player seen distToPlayer enemy ;;
    ret (enemy, Result.mk detected (Enemy.alertLevel enemy) shouldShoot).

(** ** gameLoop.ts *)

Definition playerShoot (state : GameState.t) : GameState.t :=
  let player := GameState.player state in
  let player := Player.set_ammo (Player.ammo player - 1)%Z player in
  let player := Player.set_shootCooldown COMBAT_CONFIG.shootCooldown player in
  let bullet :=
    Bullet.mk (GameState.nextBulletId state)
      (Vec2.mk (Vec2.x (Player.pos player)) (Vec2.y (Player.pos player)))
      (Vec2.mk (cos (Player.angle player) * COMBAT_CONFIG.bulletSpeed)
               (sin (Player.angle player) * COMBAT_CONFIG.bulletSpeed))
      true COMBAT_CONFIG.bulletLifetime in
  let state := GameState.set_player player state in
  let state := GameState.set_nextBulletId (GameState.nextBulletId state + 1)%Z state in
  let state := GameState.set_bullets (GameState.bullets state ++ [bullet]) state in
  GameState.set_noiseMarkers
    (GameState.noiseMarkers state ++
     [NoiseMarker.mk
        (Vec2.mk (Vec2.x (Player.pos player)) (Vec2.y (Player.pos player)))
        6 1.5 1.5])
    state.

Definition enemyShoot (state : GameState.t) (enemy : Enemy.t)
  : GameState.t * Enemy.t :=
  let enemy := Enemy.set_ammo (Enemy.ammo enemy - 1)%Z enemy in
  let enemy := Enemy.set_shootCooldown COMBAT_CONFIG.enemyShootCooldown enemy in
  let bullet :=
    Bullet.mk (GameState.nextBulletId state)
      (Vec2.mk (Vec2.x (Enemy.pos enemy)) (Vec2.y (Enemy.pos enemy)))
      (Vec2.mk (cos (Enemy.angle enemy) * COMBAT_CONFIG.bulletSpeed * 0.8)
               (sin (Enemy.angle enemy) * COMBAT_CONFIG.bulletSpeed * 0.8))
      false COMBAT_CONFIG.bulletLifetime in
  let state := GameState.set_nextBulletId (GameState.nextBulletId state + 1)%Z state in
  let state := GameState.set_bullets (GameState.bullets state ++ [bullet]) state in
  let state :=
    GameState.set_noiseMarkers
      (GameState.noiseMarkers state ++
       [NoiseMarker.mk
          (Vec2.mk (Vec2.x (Enemy.pos enemy)) (Vec2.y (Enemy.pos enemy)))
          4 1 1])
      state in
  (state, enemy).

Definition updatePlayer (state : GameState.t) (input : InputState.t)
    (deltaTime : R) : GameState.t * InputState.t :=
  let player := GameState.player state in
  let grid := GameState.grid state in
  let config := GameState.config state in
  let player :=
    Player.set_shootCooldown
      (JSMath.max 0 (Player.shootCooldown player - deltaTime)) player in
  let speed := GameConfig.playerWalkSpeed config in
  let player :=
    Player.set_isSprinting
      (InputState.sprint input && negb (InputState.sneak input)) player in
  let player :=
    Player.set_isSneaking
      (InputState.sneak input && negb (InputState.sprint input)) player in
  let '(speed, player) :=
    if Player.isSprinting player then
      (GameConfig.playerSprintSpeed config, Player.set_noiseLevel 1 player)
    else if Player.isSneaking player then
      (GameConfig.playerSneakSpeed config, Player.set_noiseLevel 0 player)
    else (speed, Player.set_noiseLevel 0.3 player) in
  let dx := 0 in
  let dy := 0 in
  let dy := if InputState.up input then dy - 1 else dy in
  let dy := if InputState.down input then dy + 1 else dy in
  let dx := if InputState.left input then dx - 1 else dx in
  let dx := if InputState.right input then dx + 1 else dx in
  let '(dx, dy) :=
    if negb (Reqb dx 0) && negb (Reqb dy 0) then
      let len := JSMath.sqrt (dx * dx + dy * dy) in
      (dx / len, dy / len)
    else (dx, dy) in
  let player :=
    if negb (Reqb dx 0) || negb (Reqb dy 0) then
      let newPos :=
        Vec2.mk (Vec2.x (Player.pos player) + dx * speed * deltaTime)
                (Vec2.y (Player.pos player) + dy * speed * deltaTime) in
      Player.set_pos (resolveCollision grid (Player.pos player) newPos 0.3) player
    else Player.set_noiseLevel 0 player in
  let state := GameState.set_player player state in
  let '(state, input) :=
    if InputState.interact input then
      let throwDistance := 3 in
      let targetX := Vec2.x (Player.pos player) + cos (Player.angle player) * throwDistance in
      let targetY := Vec2.y (Player.pos player) + sin (Player.angle player) * throwDistance in
      let noise := NoiseMarker.mk (Vec2.mk targetX targetY) 2 2 2 in
      (GameState.set_noiseMarkers (GameState.noiseMarkers state ++ [noise]) state,
       InputState.set_interact false input)
    else (state, input) in
  if InputState.shoot input && (Player.ammo player >? 0)%Z &&
     Rleb (Player.shootCooldown player) 0
  then (playerShoot state, InputState.set_shoot false input)
  else (state, input).

(** The scan [for (const enemy of enemies)] run for a player bullet: the
    enemies and pickups after it, and whether the bullet was spliced out. *)
Fixpoint hitEnemies (bullet : Bullet.t) (enemies : list Enemy.t)
    (ammoPickups : list AmmoPickup.t)
  : list Enemy.t * list AmmoPickup.t * bool :=
  match enemies with
  | [] => ([], ammoPickups, false)
  | enemy :: rest =>
      if negb (Enemy.isDead enemy) &&
         Rltb (distance (Bullet.pos bullet) (Enemy.pos enemy)) 0.4
      then
        let enemy := Enemy.set_health (Enemy.health enemy - 1)%Z enemy in
        if (Enemy.health enemy <=? 0)%Z then
          (Enemy.set_isDead true enemy :: rest,
           ammoPickups ++
           [AmmoPickup.mk
              (Vec2.mk (Vec2.x (Enemy.pos enemy)) (Vec2.y (Enemy.pos enemy)))
              (Enemy.ammo enemy / 2 + 2)%Z false],
           true)
        else (enemy :: rest, ammoPickups, true)
      else
        let '(rest', ammoPickups', hit) := hitEnemies bullet rest ammoPickups in
        (enemy :: rest', ammoPickups', hit)
  end.

(** One iteration of the loop of [updateBullets]: the bullet if it stays
    in the array, and the state after the iteration. *)
Definition stepBullet (deltaTime : R) (bullet : Bullet.t) (state : GameState.t)
  : option Bullet.t * GameState.t :=
  let bullet :=
    Bullet.mk (Bullet.id bullet)
      (Vec2.mk
         (Vec2.x (Bullet.pos bullet) + Vec2.x (Bullet.velocity bullet) * deltaTime)
         (Vec2.y (Bullet.pos bullet) + Vec2.y (Bullet.velocity bullet) * deltaTime))
      (Bullet.velocity bullet) (Bullet.isPlayerBullet bullet)
      (Bullet.lifetime bullet - deltaTime) in
  let tileX := JSMath.floor (Vec2.x (Bullet.pos bullet)) in
  let tileY := JSMath.floor (Vec2.y (Bullet.pos bullet)) in
  if negb (isWalkable (GameState.grid state) (IZR tileX) (IZR tileY)) then
    (None, state)
  else if Rleb (Bullet.lifetime bullet) 0 then (None, state)
  else if Bullet.isPlayerBullet bullet then
    let '(enemies, ammoPickups, hit) :=
      hitEnemies bullet (GameState.enemies state) (GameState.ammoPickups state) in
    (if hit then None else Some bullet,
     GameState.set_ammoPickups ammoPickups (GameState.set_enemies enemies state))
  else if Rltb (distance (Bullet.pos bullet) (Player.pos (GameState.player state))) 0.35
  then
    let player := GameState.player state in
    let player := Player.set_health (Player.health player - 1)%Z player in
    let state := GameState.set_player player state in
    (None,
     if (Player.health player <=? 0)%Z
     then GameState.set_isGameOver true state
     else state)
  else (Some bullet, state).

(** [for (let i = bullets.length - 1; i >= 0; i--)]: the last bullet of the
    array is handled first; splicing index [i] leaves the lower indices in
    place. *)
Fixpoint bulletsLoop (deltaTime : R) (bullets : list Bullet.t)
    (state : GameState.t) : list Bullet.t * GameState.t :=
  match bullets with
  | [] => ([], state)
  | bullet :: later =>
      let '(later', state) := bulletsLoop deltaTime later state in
      let '(kept, state) := stepBullet deltaTime bullet state in
      (match kept with Some bullet' => bullet' :: later' | None => later' end,
       state)
  end.

Definition updateBullets (state : GameState.t) (deltaTime : R) : GameState.t :=
  let '(bullets, state) := bulletsLoop deltaTime (GameState.bullets state) state in
  GameState.set_bullets bullets state.

(** The body of the enemy loop of [updateGame] for a live enemy, after
    [updateEnemy] has returned. *)
Definition afterEnemy (state : GameState.t) (enemy : Enemy.t)
    (result : Result.t) : GameState.t * Enemy.t :=
  let '(state, enemy) :=
    if Result.shouldShoot result && (Enemy.ammo enemy >? 0)%Z &&
       Rleb (Enemy.shootCooldown enemy) 0
    then enemyShoot state enemy
    else (state, enemy) in
  if Rltb (distance (Enemy.pos enemy) (Player.pos (GameState.player state))) 0.8 &&
     Rgeb (Enemy.alertLevel enemy) 100
  then
    let player := GameState.player state in
    let player := Player.set_health (Player.health player - 1)%Z player in
    let state := GameState.set_player player state in
    (if (Player.health player <=? 0)%Z
     then GameState.set_isGameOver true state
     else state,
     enemy)
  else (state, enemy).

(** [for (let i = 0; i < newState.enemies.length; i++)].  The enemies are
    returned as a list and written back by [updateGame]; nothing in the
    loop reads [state.enemies]. *)
Fixpoint enemiesLoop (deltaTime : R) (enemies : list Enemy.t)
    (state : GameState.t) (maxDetection : R)
  : Exn (list Enemy.t * GameState.t * R) :=
  match enemies with
  | [] => ret ([], state, maxDetection)
  | enemy :: rest =>
      if Enemy.isDead enemy then
        '(rest', state, maxDetection) <-
          enemiesLoop deltaTime rest state maxDetection ;;
        ret (enemy :: rest', state, maxDetection)
      else
        '(enemy, result) <-
          updateEnemy enemy (GameState.player state) (GameState.grid state)
            (GameState.config state) deltaTime (GameState.noiseMarkers state) ;;
        let maxDetection := JSMath.max maxDetection (Result.alertLevel result) in
        let '(state, enemy) := afterEnemy state enemy result in
        '(rest', state, maxDetection) <-
          enemiesLoop deltaTime rest state maxDetection ;;
        ret (enemy :: rest', state, maxDetection)
  end.

(** [for (const pickup of newState.ammoPickups)]. *)
Fixpoint collectPickups (ammoPickups : list AmmoPickup.t) (player : Player.t)
  : list AmmoPickup.t * Player.t :=
  match ammoPickups with
  | [] => ([], player)
  | pickup :: rest =>
      if negb (AmmoPickup.collected pickup) &&
         Rltb (distance (Player.pos player) (AmmoPickup.pos pickup)) 0.7
      then
        let pickup :=
          AmmoPickup.mk (AmmoPickup.pos pickup) (AmmoPickup.amount pickup) true in
        let player :=
          Player.set_ammo
            (Z.min (Player.ammo player + AmmoPickup.amount pickup)
                   (Player.maxAmmo player))
            player in
        let '(rest', player) := collectPickups rest player in
        (pickup :: rest', player)
      else
        let '(rest', player) := collectPickups rest player in
        (pickup :: rest', player)
  end.

Definition decayNoise (deltaTime : R) (noiseMarkers : list NoiseMarker.t)
  : list NoiseMarker.t :=
  filter (fun n => Rgtb (NoiseMarker.lifetime n) 0)
    (map (fun n =>
            NoiseMarker.mk (NoiseMarker.pos n) (NoiseMarker.radius n)
              (NoiseMarker.lifetime n - deltaTime) (NoiseMarker.maxLifetime n))
         noiseMarkers).

(** The win test at the end of a tick. *)
Definition winCondition (state : GameState.t) : bool :=
  let allEnemiesDead := forallb Enemy.isDead (GameState.enemies state) in
  let playerTileX := JSMath.floor (Vec2.x (Player.pos (GameState.player state))) in
  let playerTileY := JSMath.floor (Vec2.y (Player.pos (GameState.player state))) in
  ((playerTileY >=? 0) && (playerTileY <? gridRows (GameState.grid state)) &&
   (playerTileX >=? 0) && (playerTileX <? gridCols (GameState.grid state)))%Z &&
  isTile EXIT (tileAt (GameState.grid state) playerTileX playerTileY) &&
  allEnemiesDead.

(** [updateGame] returns the new state; the input record it was handed is
    mutated by [updatePlayer] and is returned next to it. *)
Definition updateGame (state : GameState.t) (input : InputState.t)
    (deltaTime : R) : Exn (GameState.t * InputState.t) :=
  if GameState.isPaused state || GameState.isGameOver state ||
     GameState.isWin state
  then ret (state, input)
  else
    let newState := state in
    let '(newState, input) := updatePlayer newState input deltaTime in
    let newState :=
      GameState.set_noiseMarkers
        (decayNoise deltaTime (GameState.noiseMarkers newState)) newState in
    let newState := updateBullets newState deltaTime in
    '(enemies, newState, maxDetection) <-
      enemiesLoop deltaTime (GameState.enemies newState) newState 0 ;;
    let newState := GameState.set_enemies enemies newState in
    let newState := GameState.set_detectionLevel maxDetection newState in
    let newState :=
      if winCondition newState then GameState.set_isWin true newState
      else newState in
    let '(ammoPickups, player) :=
      collectPickups (GameState.ammoPickups newState) (GameState.player newState) in
    let newState :=
      GameState.set_player player
        (GameState.set_ammoPickups ammoPickups newState) in
    ret (newState, input).

(** A run of ticks: the game loop of the canvas component feeds each
    state back into [updateGame] with the input record of the moment. *)
Fixpoint runTicks (state : GameState.t) (ticks : list (InputState.t * R))
  : Exn GameState.t :=
  match ticks with
  | [] => ret state
  | (input, deltaTime) :: later =>
      '(state, _) <- updateGame state input deltaTime ;;
      runTicks state later
  end.

(** ** spawnSafety.ts *)

Definition isClear3x3 (grid : Grid) (tileX tileY : Z) : bool :=
  forallb
    (fun dy =>
       forallb
         (fun dx =>
            let x := (tileX + dx)%Z in
            let y := (tileY + dy)%Z in
            if ((y <? 0) || (y >=? gridRows grid) ||
                (x <? 0) || (x >=? gridCols grid))%Z
            then false
            else negb (isTile WALL (tileAt grid x y)))
         [(-1)%Z; 0%Z; 1%Z])
    [(-1)%Z; 0%Z; 1%Z].

Definition isWalkableTile (grid : Grid) (tileX tileY : Z) : bool :=
  if ((tileY <? 0) || (tileY >=? gridRows grid) ||
      (tileX <? 0) || (tileX >=? gridCols grid))%Z
  then false
  else negb (isTile WALL (tileAt grid tileX tileY)).

(** The optional third argument of [findSafeSpawnPos]; a field that is
    not given is [None]. *)
Module SpawnOptions.
Record t : Type := mk {
  requireClear3x3 : option bool;
  maxSearchRadiusTiles : option Z }.
End SpawnOptions.

(** The closures [inBounds] and [ok] of [findSafeSpawnPos]. *)
Definition inBounds (grid : Grid) (x y : Z) : bool :=
  ((x >=? 0) && (x <? gridCols grid) && (y >=? 0) && (y <? gridRows grid))%Z.

Definition ok (grid : Grid) (requireClear3x3 : bool) (x y : Z) : bool :=
  if negb (inBounds grid x y) then false
  else if negb (isWalkableTile grid x y) then false
  else if requireClear3x3 then isClear3x3 grid x y else true.

Definition dirs : list (Z * Z) := [(1, 0); (-1, 0); (0, 1); (0, -1)]%Z.

(** [visited.has(key)]: the set of keys ["x,y"] is kept as the list of
    the pairs (x, y). *)
Definition hasKey (visited : list (Z * Z)) (key : Z * Z) : bool :=
  existsb (fun k => (fst k =? fst key)%Z && (snd k =? snd key)%Z) visited.

(** The body of [for (const dir of dirs)]: the queue and the visited set
    after one direction. *)
Definition enqueue (grid : Grid) (cur : Z * Z * Z)
    (acc : list (Z * Z * Z) * list (Z * Z)) (dir : Z * Z)
  : list (Z * Z * Z) * list (Z * Z) :=
  let '(q, visited) := acc in
  let '(cx, cy, d) := cur in
  let nx := (cx + fst dir)%Z in
  let ny := (cy + snd dir)%Z in
  if negb (inBounds grid nx ny) || hasKey visited (nx, ny) then (q, visited)
  else (q ++ [(nx, ny, d + 1)%Z], (nx, ny) :: visited).

(** [while (q.length)].  The result is [Some (Some tile)] when the loop
    returns a tile, [Some None] when it ends or breaks without one, and
    [None] when the fuel runs out. *)
Fixpoint search (fuel : nat) (grid : Grid) (requireClear3x3 : bool) (maxR : Z)
    (q : list (Z * Z * Z)) (visited : list (Z * Z))
  : option (option (Z * Z)) :=
  match fuel with
  | O => None
  | S fuel =>
      match q with
      | [] => Some None
      | cur :: q =>
          let '(cx, cy, d) := cur in
          if (d >? maxR)%Z then Some None
          else if ok grid requireClear3x3 cx cy then Some (Some (cx, cy))
          else
            let '(q, visited) := fold_left (enqueue grid cur) dirs (q, visited) in
            search fuel grid requireClear3x3 maxR q visited
      end
  end.

(** The tiles of the grid in the order of the fallback scan: row by row,
    each row from the left, every row as wide as row 0. *)
Definition range (n : Z) : list Z := map Z.of_nat (seq 0 (Z.to_nat n)).

Definition tiles (grid : Grid) : list (Z * Z) :=
  flat_map (fun y => map (fun x => (x, y)) (range (gridCols grid)))
    (range (gridRows grid)).

Definition tileCentre (tile : Z * Z) : Vec2.t :=
  Vec2.mk (IZR (fst tile) + 0.5) (IZR (snd tile) + 0.5).

(** [findSafeSpawnPos].  The loop is run with two units of fuel more than
    the grid has tiles; [None] would mean that the fuel ran out. *)
Definition findSafeSpawnPos (grid : Grid) (preferredPos : Vec2.t)
    (options : option SpawnOptions.t) : option Vec2.t :=
  let requireClear3x3 :=
    match options with
    | Some o =>
        match SpawnOptions.requireClear3x3 o with Some b => b | None => true end
    | None => true
    end in
  let maxR :=
    match options with
    | Some o =>
        match SpawnOptions.maxSearchRadiusTiles o with
        | Some r => r
        | None => 30%Z
        end
    | None => 30%Z
    end in
  let start :=
    (JSMath.floor (Vec2.x preferredPos), JSMath.floor (Vec2.y preferredPos)) in
  if ok grid requireClear3x3 (fst start) (snd start) then
    Some (tileCentre start)
  else
    match search (S (S (length (tiles grid)))) grid requireClear3x3 maxR
            [(fst start, snd start, 0%Z)] [start] with
    | None => None
    | Some (Some tile) => Some (tileCentre tile)
    | Some None =>
        match find (fun tile => ok grid requireClear3x3 (fst tile) (snd tile))
                (tiles grid) with
        | Some tile => Some (tileCentre tile)
        | None => Some (Vec2.mk 1.5 1.5)
        end
    end.

Definition findSafeEntityPos (grid : Grid) (preferredPos : Vec2.t)
  : option Vec2.t :=
  findSafeSpawnPos grid preferredPos
    (Some (SpawnOptions.mk (Some false) (Some 30%Z))).

(** ** config.ts, the default configuration *)

(** [DEFAULT_CONFIG] of config.ts; its seed is the clock at load time. *)
Definition DEFAULT_CONFIG (seed : Z) : GameConfig.t :=
  GameConfig.mk 24 18 32 120 6 4 (3%Z, 5%Z) 3 5.5 1.5 1.8 4 4 seed.

(** ** levelData.ts *)

Module EnemySpawn.
Record t : Type := mk {
  pos : Vec2.t;
  waypoints : list Vec2.t;
  angle : R }.
End EnemySpawn.

(** The fields of a level that the game reads; its name, author, version,
    creation time and featured flag are left out. *)
Module LevelData.
Record t : Type := mk {
  gridWidth : Z;
  gridHeight : Z;
  grid : Grid;
  spawnPos : Vec2.t;
  exitPos : Vec2.t;
  enemySpawns : list EnemySpawn.t }.
End LevelData.

(** What [levelDataToGameData] and [generateLevel] return. *)
Module GameData.
Record t : Type := mk {
  grid : Grid;
  spawnPos : Vec2.t;
  exitPos : Vec2.t;
  enemies : list Enemy.t;
  ammoPickups : list AmmoPickup.t }.
End GameData.

(** The elements of an array with their indices. *)
Definition indexed {A : Type} (l : list A) : list (Z * A) :=
  combine (map Z.of_nat (seq 0 (length l))) l.

Definition levelDataToGameData (level : LevelData.t) : GameData.t :=
  let grid := LevelData.grid level in
  let ammoPickups :=
    flat_map
      (fun '(y, row) =>
         flat_map
           (fun '(x, tile) =>
              if TileType_eqb tile AMMO
              then [AmmoPickup.mk (Vec2.mk (IZR x + 0.5) (IZR y + 0.5))
                      COMBAT_CONFIG.ammoPickupAmount false]
              else [])
           (indexed row))
      (indexed grid) in
  let enemies :=
    map
      (fun '(i, spawn) =>
         Enemy.mk i
           (Vec2.mk (Vec2.x (EnemySpawn.pos spawn)) (Vec2.y (EnemySpawn.pos spawn)))
           (EnemySpawn.angle spawn) PATROL
           (if (0 <? length (EnemySpawn.waypoints spawn))%nat
            then EnemySpawn.waypoints spawn
            else [EnemySpawn.pos spawn])
           0 None None 0 0 1.5
           COMBAT_CONFIG.enemyAmmo COMBAT_CONFIG.enemyAmmo
           COMBAT_CONFIG.enemyHealth 0 false)
      (indexed (LevelData.enemySpawns level)) in
  GameData.mk grid (LevelData.spawnPos level) (LevelData.exitPos level)
    enemies ammoPickups.

(** ** GameCanvas.tsx: [initGame] *)

(** [row[x] = true].  Writing past the end of a JavaScript array extends
    it; the holes read as [undefined], which the renderer takes for
    [false], and are [false] here. *)
Definition setTrue (x : nat) (row : list bool) : list bool :=
  if (x <? length row)%nat
  then firstn x row ++ true :: skipn (S x) row
  else row ++ repeat false (x - length row) ++ [true].

(** The body of the two loops that reveal the tiles around the spawn.
    [exploredTiles] has one row for every row of the grid, so the row
    written to exists. *)
Definition revealTile (grid : Grid) (px py : Z)
    (exploredTiles : list (list bool)) (dy dx : Z) : list (list bool) :=
  let tx := (px + dx)%Z in
  let ty := (py + dy)%Z in
  if ((ty >=? 0) && (ty <? gridRows grid) &&
      (tx >=? 0) && (tx <? gridCols grid))%Z
  then
    match skipn (Z.to_nat ty) exploredTiles with
    | row :: below =>
        firstn (Z.to_nat ty) exploredTiles ++
        setTrue (Z.to_nat tx) row :: below
    | [] => exploredTiles
    end
  else exploredTiles.

Definition revealOffsets (revealRadius : Z) : list Z :=
  map (fun k => (Z.of_nat k - revealRadius)%Z)
    (seq 0 (Z.to_nat (2 * revealRadius + 1))).

Fixpoint mapExn {A B : Type} (f : A -> Exn B) (l : list A) : Exn (list B) :=
  match l with
  | [] => ret []
  | a :: rest =>
      b <- f a ;;
      rest' <- mapExn f rest ;;
      ret (b :: rest')
  end.

(** [initGame].  The level generator is a function of the configuration
    and is passed in; [now] is the clock that seeds a game started
    without a seed.  [None] can only come from the fuel of
    [findSafeSpawnPos]. *)
Definition initGame (generateLevel : GameConfig.t -> GameData.t)
    (customLevel : option LevelData.t) (useRandomLevel : bool)
    (now : Z) (seed : option Z) : Exn GameState.t :=
  let config :=
    DEFAULT_CONFIG (match seed with Some s => s | None => now end) in
  let '(grid, spawnPos, enemies, ammoPickups, config) :=
    match customLevel, useRandomLevel with
    | Some level, false =>
        let levelData := levelDataToGameData level in
        (GameData.grid levelData, LevelData.spawnPos level,
         GameData.enemies levelData, GameData.ammoPickups levelData,
         GameConfig.mk (LevelData.gridWidth level) (LevelData.gridHeight level)
           (GameConfig.tileSize config) (GameConfig.visionAngle config)
           (GameConfig.visionRange config) (GameConfig.hearingRadius config)
           (GameConfig.enemyCount config) (GameConfig.playerWalkSpeed config)
           (GameConfig.playerSprintSpeed config)
           (GameConfig.playerSneakSpeed config)
           (GameConfig.enemyPatrolSpeed config)
           (GameConfig.enemyChaseSpeed config) (GameConfig.chaseDuration config)
           (GameConfig.seed config))
    | _, _ =>
        let generated := generateLevel config in
        (GameData.grid generated, GameData.spawnPos generated,
         GameData.enemies generated, GameData.ammoPickups generated, config)
    end in
  safePlayerSpawn <-
    findSafeSpawnPos grid spawnPos
      (Some (SpawnOptions.mk (Some true) None)) ;;
  safeEnemies <-
    mapExn (fun e =>
              pos <- findSafeEntityPos grid (Enemy.pos e) ;;
              ret (Enemy.set_pos pos e))
      enemies ;;
  let exploredTiles := map (map (fun _ => false)) grid in
  let revealRadius := 5%Z in
  let px := JSMath.floor (Vec2.x safePlayerSpawn) in
  let py := JSMath.floor (Vec2.y safePlayerSpawn) in
  let exploredTiles :=
    fold_left
      (fun explored dy =>
         fold_left (fun explored dx => revealTile grid px py explored dy dx)
           (revealOffsets revealRadius) explored)
      (revealOffsets revealRadius) exploredTiles in
  ret (GameState.mk
         (Player.mk
            (Vec2.mk (Vec2.x safePlayerSpawn) (Vec2.y safePlayerSpawn))
            0 false false (GameConfig.playerWalkSpeed config) 0
            COMBAT_CONFIG.playerStartAmmo COMBAT_CONFIG.playerMaxAmmo
            COMBAT_CONFIG.playerHealth COMBAT_CONFIG.playerHealth 0)
         safeEnemies grid config false false false true 0 [] [] ammoPickups
         0%Z exploredTiles).

(** ** utils.ts, the remaining helpers *)

Definition lerp (a b t : R) : R := a + (b - a) * t.

Definition clamp (value min max : R) : R :=
  JSMath.max min (JSMath.min max value).

Definition radToDeg (rad : R) : R := (rad * 180) / PI.

(** * Sample worlds

    Concrete data on which the properties are exercised. *)

(** An open room: three rows of eight floor tiles. *)
Definition openRoom : Grid := repeat (repeat FLOOR 8) 3.


(** An enemy as the level builders create it, standing at [pos] and
    facing along the x axis. *)
Definition freshEnemy (id : Z) (pos : Vec2.t) : Enemy.t :=
  Enemy.mk id pos 0 PATROL [pos] 0 None None 0 0 1.8
    COMBAT_CONFIG.enemyAmmo COMBAT_CONFIG.enemyAmmo COMBAT_CONFIG.enemyHealth
    0 false.

(** A player as [initGame] creates it, standing at [pos]. *)
Definition freshPlayer (pos : Vec2.t) : Player.t :=
  Player.mk pos 0 false false 3 0
    COMBAT_CONFIG.playerStartAmmo COMBAT_CONFIG.playerMaxAmmo
    COMBAT_CONFIG.playerHealth COMBAT_CONFIG.playerHealth 0.

Definition guard : Enemy.t := freshEnemy 0 (Vec2.mk 1.5 1.5).
Definition walker : Player.t := freshPlayer (Vec2.mk 6.5 1.5).


(** A world with the default configuration, nothing paused or decided. *)
Definition world (grid : Grid) (player : Player.t) (enemies : list Enemy.t)
    (bullets : list Bullet.t) (ammoPickups : list AmmoPickup.t) : GameState.t :=
  GameState.mk player enemies grid (DEFAULT_CONFIG 0) false false false true 0
    [] bullets ammoPickups (Z.of_nat (length bullets))
    (map (map (fun _ => false)) grid).

(** No key pressed. *)
Definition idleInput : InputState.t :=
  InputState.mk false false false false false false false false
    (Vec2.mk 0 0) false.

(** The start of a level: the guard and the player five tiles apart. *)
Definition startState : GameState.t :=
  world openRoom walker [guard] [] [].

(** A bullet of the player on its way to the guard. *)
Definition playerShot : Bullet.t :=
  Bullet.mk 0 (Vec2.mk 1.75 1.5) (Vec2.mk (-15) 0) true 1.5.

Definition shotState : GameState.t :=
  world openRoom
    (Player.set_ammo 11 (Player.set_shootCooldown 0.1 walker))
    [guard] [playerShot] [].

(** A level that has been lost. *)
Definition lostState : GameState.t :=
  GameState.set_isGameOver true
    (world openRoom (Player.set_health 0 walker) [guard] [] []).


(** The pickup a fallen enemy leaves behind: [floor(5 / 2) + 2] rounds. *)
Definition dropAt (pos : Vec2.t) : AmmoPickup.t := AmmoPickup.mk pos 4 false.


(** Only the key for moving left is held. *)
Definition leftInput : InputState.t :=
  InputState.mk false false true false false false false false
    (Vec2.mk 0 0) false.


(** A room with a pillar: the tile (2, 1) is a wall. *)
Definition walledRoom : Grid :=
  [ [FLOOR; FLOOR; FLOOR; FLOOR];
    [FLOOR; FLOOR; WALL; FLOOR];
    [FLOOR; FLOOR; FLOOR; FLOOR] ].

(** A room with a wall in a corner of the way: the tile (1, 1). *)
Definition cornerRoom : Grid :=
  [ [FLOOR; FLOOR; FLOOR];
    [FLOOR; WALL; FLOOR] ].

(** * Specification vocabulary

    The predicates in which the properties below are stated. *)

(** The tile containing the point (x, y) lies inside the grid and is not
    a wall. *)
Definition walkableAt (grid : Grid) (x y : R) : Prop :=
  (0 <= Zfloor y < gridRows grid)%Z /\
  (0 <= Zfloor x < gridCols grid)%Z /\
  tileAt grid (Zfloor x) (Zfloor y) <> Some WALL.

(** The four corners of the square of half-side [radius] around [p]. *)
Definition cornersWalkable (grid : Grid) (p : Vec2.t) (radius : R) : Prop :=
  walkableAt grid (Vec2.x p - radius) (Vec2.y p - radius) /\
  walkableAt grid (Vec2.x p + radius) (Vec2.y p - radius) /\
  walkableAt grid (Vec2.x p - radius) (Vec2.y p + radius) /\
  walkableAt grid (Vec2.x p + radius) (Vec2.y p + radius).

(** A cell is inside the grid. *)
Definition insideGrid (grid : Grid) (cell : Z * Z) : Prop :=
  (0 <= snd cell < gridRows grid)%Z /\ (0 <= fst cell < gridCols grid)%Z.


(** The tile of a continuous position. *)
Definition tileOf (p : Vec2.t) : Z * Z := (Zfloor (Vec2.x p), Zfloor (Vec2.y p)).





(** The point reached from [from] by one step of length
    [speed * deltaTime] straight toward [target] (no step when the two
    coincide). *)
Definition stepToward (from target : Vec2.t) (speed deltaTime : R) : Vec2.t :=
  let direction :=
    normalize (Vec2.mk (Vec2.x target - Vec2.x from)
                       (Vec2.y target - Vec2.y from)) in
  Vec2.mk (Vec2.x from + Vec2.x direction * speed * deltaTime)
          (Vec2.y from + Vec2.y direction * speed * deltaTime).

(** The parts of the world that no phase of a running tick writes,
    the win flag apart. *)
Definition worldFrame (s : GameState.t) :=
  (GameState.grid s, GameState.config s, GameState.isPaused s,
   GameState.debugMode s, GameState.exploredTiles s).

(** The waypoint index of an enemy points into its waypoint list (or the
    list is empty and is never read). *)
Definition patrolReady (e : Enemy.t) : Prop :=
  Enemy.waypoints e = [] \/
  (Enemy.currentWaypointIndex e < length (Enemy.waypoints e))%nat.

Definition alertBounded (e : Enemy.t) : Prop := 0 <= Enemy.alertLevel e <= 100.

(** An enemy's health is between 0 and the health enemies are created
    with, and a live enemy has health left. *)
Definition healthBounded (e : Enemy.t) : Prop :=
  (0 <= Enemy.health e <= COMBAT_CONFIG.enemyHealth)%Z /\
  (Enemy.isDead e = false -> (1 <= Enemy.health e)%Z).

Definition enemyOk (e : Enemy.t) : Prop :=
  patrolReady e /\ alertBounded e /\ healthBounded e.

(** The player's health is at most the maximum, and positive as long as
    the game is not over. *)
Definition playerOk (s : GameState.t) : Prop :=
  (Player.health (GameState.player s) <= Player.maxHealth (GameState.player s))%Z /\
  (GameState.isGameOver s = false ->
   (1 <= Player.health (GameState.player s))%Z).

(** The states the game can be in: what [initGame] establishes (on a
    level whose spawn is off the exit or that has an enemy) and every tick
    keeps.  The win flag is up exactly when the win test holds, because
    the test is run at the end of every tick that is not skipped. *)
Definition stateOk (s : GameState.t) : Prop :=
  Forall enemyOk (GameState.enemies s) /\ playerOk s /\
  GameState.isWin s = winCondition s.

(** The state of a running tick once the player has been updated, the
    noise markers have decayed and the bullets have been advanced. *)
Definition afterBullets (state : GameState.t) (input : InputState.t)
    (deltaTime : R) : GameState.t :=
  let '(moved, _) := updatePlayer state input deltaTime in
  updateBullets
    (GameState.set_noiseMarkers
       (decayNoise deltaTime (GameState.noiseMarkers moved)) moved)
    deltaTime.

(** Everything about an enemy except its health and its dead flag. *)
Definition enemyMind (e : Enemy.t) :=
  (Enemy.id e, Enemy.pos e, Enemy.angle e, Enemy.state e, Enemy.waypoints e,
   Enemy.currentWaypointIndex e, Enemy.investigateTarget e,
   Enemy.lastKnownPlayerPos e, Enemy.alertLevel e, Enemy.stateTimer e,
   Enemy.speed e, Enemy.ammo e, Enemy.maxAmmo e, Enemy.shootCooldown e).

(** What the bullets can do to an enemy within a tick: take health away
    and kill it, nothing else; a dead enemy stays as it is. *)
Definition enemyAged (e e' : Enemy.t) : Prop :=
  enemyMind e' = enemyMind e /\
  (Enemy.health e' <= Enemy.health e)%Z /\
  (Enemy.isDead e = true -> e' = e).

(** What [updateEnemy] and the orchestrator leave alone in an enemy. *)
Definition enemyBody (e : Enemy.t) :=
  (Enemy.id e, Enemy.waypoints e, Enemy.maxAmmo e, Enemy.health e,
   Enemy.isDead e).

(** Everything about the player except the health. *)
Definition playerRest (p : Player.t) :=
  (Player.pos p, Player.angle p, Player.isSprinting p, Player.isSneaking p,
   Player.speed p, Player.noiseLevel p, Player.ammo p, Player.maxAmmo p,
   Player.maxHealth p, Player.shootCooldown p).

(** What the bullet and enemy phases can do to the world: hurt the
    player and end the game, never the reverse. *)
Definition combatStep (s s' : GameState.t) : Prop :=
  worldFrame s' = worldFrame s /\
  GameState.isWin s' = GameState.isWin s /\
  playerRest (GameState.player s') = playerRest (GameState.player s) /\
  (Player.health (GameState.player s') <= Player.health (GameState.player s))%Z /\
  (GameState.isGameOver s = true -> GameState.isGameOver s' = true) /\
  (playerOk s -> playerOk s').

(** The player stands on the exit tile. *)
Definition playerOnExit (s : GameState.t) : Prop :=
  let tile := tileOf (Player.pos (GameState.player s)) in
  insideGrid (GameState.grid s) tile /\
  tileAt (GameState.grid s) (fst tile) (snd tile) = Some EXIT.

(** A tick is skipped when the game is paused or already decided. *)
Definition skipped (s : GameState.t) : bool :=
  GameState.isPaused s || GameState.isGameOver s || GameState.isWin s.

(** What the behaviours of the state machine leave alone in an enemy. *)
Definition enemyCore (e : Enemy.t) :=
  (Enemy.id e, Enemy.waypoints e, Enemy.maxAmmo e, Enemy.health e,
   Enemy.isDead e, Enemy.ammo e, Enemy.shootCooldown e).

(** Two cells are neighbours when they differ and each coordinate changes
    by at most one. *)
Definition neighbours (p q : Z * Z) : Prop :=
  (Z.abs (fst q - fst p) <= 1)%Z /\ (Z.abs (snd q - snd p) <= 1)%Z /\ p <> q.

(** Every cell of the list is a neighbour of the next one. *)
Fixpoint stepwise (cells : list (Z * Z)) : Prop :=
  match cells with
  | p :: (q :: _) as rest => neighbours p q /\ stepwise rest
  | _ => True
  end.

(** The window in which the error term of the line tracer stays: it
    forces a step along the longer axis in every iteration. *)
Definition majorWindow (dx dy err : Z) : Prop :=
  (dy <= dx -> - dy < 2 * err < 3 * dx - 2 * dy)%Z /\
  (dx <= dy -> - (3 * dy - 2 * dx) < 2 * err < dx)%Z.

(** The position is kept, or is the resolved step of length
    [speed * deltaTime] toward some target. *)
Definition steppedFrom (grid : Grid) (deltaTime : R) (e e' : Enemy.t) : Prop :=
  Enemy.pos e' = Enemy.pos e \/
  exists target,
    Enemy.pos e' =
    resolveCollision grid (Enemy.pos e)
      (stepToward (Enemy.pos e) target (Enemy.speed e) deltaTime) 0.35.

(** The arrows of the state machine. *)
Definition transition (a b : EnemyState) : Prop :=
  match a, b with
  | PATROL, (PATROL | INVESTIGATE | CHASE) => True
  | INVESTIGATE, (INVESTIGATE | CHASE | RETURN) => True
  | CHASE, (CHASE | RETURN) => True
  | RETURN, (RETURN | INVESTIGATE | PATROL) => True
  | _, _ => False
  end.

(** The movement keys cancel out: no net direction is asked for. *)
Definition still (input : InputState.t) : bool :=
  Bool.eqb (InputState.up input) (InputState.down input) &&
  Bool.eqb (InputState.left input) (InputState.right input).

(** The speed and the noise of the three movement modes. *)
Definition tierSpeed (config : GameConfig.t) (input : InputState.t) : R :=
  if InputState.sprint input && negb (InputState.sneak input)
  then GameConfig.playerSprintSpeed config
  else if InputState.sneak input && negb (InputState.sprint input)
  then GameConfig.playerSneakSpeed config
  else GameConfig.playerWalkSpeed config.

Definition tierNoise (input : InputState.t) : R :=
  if InputState.sprint input && negb (InputState.sneak input) then 1
  else if InputState.sneak input && negb (InputState.sprint input) then 0
  else 0.3.

(** The player fires in this tick: the trigger is pulled, a round is
    left and the weapon has cooled down by the end of the tick. *)
Definition fires (state : GameState.t) (input : InputState.t)
    (deltaTime : R) : bool :=
  InputState.shoot input &&
  (0 <? Player.ammo (GameState.player state))%Z &&
  Rleb (Player.shootCooldown (GameState.player state)) deltaTime.

(** A bullet after one tick of flight. *)
Definition advance (deltaTime : R) (b : Bullet.t) : Bullet.t :=
  Bullet.mk (Bullet.id b)
    (Vec2.mk (Vec2.x (Bullet.pos b) + Vec2.x (Bullet.velocity b) * deltaTime)
             (Vec2.y (Bullet.pos b) + Vec2.y (Bullet.velocity b) * deltaTime))
    (Bullet.velocity b) (Bullet.isPlayerBullet b)
    (Bullet.lifetime b - deltaTime).

(** [survivors deltaTime bullets bullets']: the second list is the first
    one with some bullets taken out and the others advanced by one tick,
    in the same order. *)
Inductive survivors (deltaTime : R) : list Bullet.t -> list Bullet.t -> Prop :=
| survivors_nil : survivors deltaTime [] []
| survivors_gone (b : Bullet.t) (bs bs' : list Bullet.t) :
    survivors deltaTime bs bs' -> survivors deltaTime (b :: bs) bs'
| survivors_kept (b : Bullet.t) (bs bs' : list Bullet.t) :
    survivors deltaTime bs bs' ->
    survivors deltaTime (b :: bs) (advance deltaTime b :: bs').

(** The pickup a killed enemy drops. *)
Definition dropOf (e : Enemy.t) : AmmoPickup.t :=
  AmmoPickup.mk (Enemy.pos e) (Enemy.ammo e / 2 + 2)%Z false.

(** The part of the state that only shooting and the orchestrator touch. *)
Definition shotLedger (s : GameState.t) :=
  (GameState.nextBulletId s, GameState.noiseMarkers s, GameState.bullets s,
   GameState.detectionLevel s).

(** A run of enemy bullets fired one after the other, the first with the
    id [next]. *)
Fixpoint volley (next : Z) (shots : list Bullet.t) : Prop :=
  match shots with
  | [] => True
  | b :: later =>
      Bullet.id b = next /\ Bullet.isPlayerBullet b = false /\
      Bullet.lifetime b = COMBAT_CONFIG.bulletLifetime /\
      volley (next + 1) later
  end.

(** What the enemy loop of a tick does to one enemy. *)
Definition enemyTurn (grid : Grid) (deltaTime : R) (e e' : Enemy.t) : Prop :=
  (Enemy.isDead e = true -> e' = e) /\
  enemyBody e' = enemyBody e /\
  transition (Enemy.state e) (Enemy.state e') /\
  steppedFrom grid deltaTime e e' /\
  (Enemy.ammo e' = Enemy.ammo e \/
   (0 < Enemy.ammo e)%Z /\ Enemy.ammo e' = (Enemy.ammo e - 1)%Z) /\
  (Enemy.isDead e = false -> Enemy.alertLevel e' <= 100).

(** The largest alert level among the live enemies, and at least [floor]. *)
Definition highestAlert (floor : R) (enemies : list Enemy.t) : R :=
  fold_left JSMath.max
    (map Enemy.alertLevel (filter (fun e => negb (Enemy.isDead e)) enemies))
    floor.

(** The rounds in the pickups the player is about to collect: those not
    yet collected and closer than 0.7. *)
Definition inReach (player : Player.t) (pickup : AmmoPickup.t) : bool :=
  negb (AmmoPickup.collected pickup) &&
  Rltb (distance (Player.pos player) (AmmoPickup.pos pickup)) 0.7.

Definition gain (player : Player.t) (ammoPickups : list AmmoPickup.t) : Z :=
  fold_right Z.add 0%Z
    (map AmmoPickup.amount (filter (inReach player) ammoPickups)).

(** Everything about the player except the rounds carried. *)
Definition playerUnarmed (p : Player.t) :=
  (Player.pos p, Player.angle p, Player.isSprinting p, Player.isSneaking p,
   Player.speed p, Player.noiseLevel p, Player.maxAmmo p, Player.health p,
   Player.maxHealth p, Player.shootCooldown p).

(** Rounds are counted sensibly: the player carries between none and the
    maximum, no enemy is in debt, no pickup takes rounds away. *)
Definition armsOk (s : GameState.t) : Prop :=
  (0 <= Player.ammo (GameState.player s) <=
   Player.maxAmmo (GameState.player s))%Z /\
  Forall (fun e => (0 <= Enemy.ammo e)%Z) (GameState.enemies s) /\
  Forall (fun a => (0 <= AmmoPickup.amount a)%Z) (GameState.ammoPickups s).

(** The bullets in flight have distinct ids, all below the id counter,
    and time left to fly. *)
Definition bulletsOk (s : GameState.t) : Prop :=
  NoDup (map Bullet.id (GameState.bullets s)) /\
  Forall (fun b => (Bullet.id b < GameState.nextBulletId s)%Z /\
                   0 < Bullet.lifetime b)
    (GameState.bullets s).

(** Nobody overlaps a wall: the corners of the player's body and of every
    enemy's body are on walkable tiles. *)
Definition standsClear (s : GameState.t) : Prop :=
  cornersWalkable (GameState.grid s) (Player.pos (GameState.player s)) 0.3 /\
  Forall (fun e => cornersWalkable (GameState.grid s) (Enemy.pos e) 0.35)
    (GameState.enemies s).

(** The number of dead enemies. *)
Definition countDead (enemies : list Enemy.t) : nat :=
  length (filter Enemy.isDead enemies).

(** What the search has left to do: the tiles waiting in the queue plus
    the tiles of the grid not yet visited. *)
Definition searchLoad (grid : Grid) (q : list (Z * Z * Z))
    (visited : list (Z * Z)) : nat :=
  length q + length (filter (fun tile => negb (hasKey visited tile)) (tiles grid)).

(** Every tile of the 3 x 3 block around a tile is inside the grid and is
    not a wall. *)
Definition clearAround (grid : Grid) (tile : Z * Z) : Prop :=
  forall dx dy : Z,
    (-1 <= dx <= 1)%Z -> (-1 <= dy <= 1)%Z ->
    insideGrid grid (fst tile + dx, snd tile + dy)%Z /\
    tileAt grid (fst tile + dx) (snd tile + dy) <> Some WALL.

(** A tile an entity may be put on: inside the grid, not a wall and, if
    asked for, with a clear 3 x 3 block around it. *)
Definition usable (grid : Grid) (requireClear3x3 : bool) (tile : Z * Z) : Prop :=
  insideGrid grid tile /\
  tileAt grid (fst tile) (snd tile) <> Some WALL /\
  (requireClear3x3 = true -> clearAround grid tile).

(** The value of [requireClear3x3] that [findSafeSpawnPos] works with. *)
Definition wantsClear (options : option SpawnOptions.t) : bool :=
  match options with
  | Some o =>
      match SpawnOptions.requireClear3x3 o with Some b => b | None => true end
  | None => true
  end.

(** The number of steps between two tiles when only the four directions
    of the search are allowed. *)
Definition manhattan (a b : Z * Z) : Z :=
  (Z.abs (fst b - fst a) + Z.abs (snd b - snd a))%Z.

(** The tile of a queue entry, and the neighbour of a tile. *)
Definition cellOf (entry : Z * Z * Z) : Z * Z := fst entry.

Definition neighbour (tile dir : Z * Z) : Z * Z :=
  (fst tile + fst dir, snd tile + snd dir)%Z.

(** The queue holds the rest of one ring around the start followed by
    the beginning of the next ring. *)
Definition wavefront (q : list (Z * Z * Z)) : Prop :=
  match q with
  | [] => True
  | head :: _ =>
      exists ring next,
        q = ring ++ next /\
        Forall (fun entry => snd entry = snd head) ring /\
        Forall (fun entry => snd entry = (snd head + 1)%Z) next
  end.

(** The invariant of the breadth-first search from [start]. *)
Definition searching (grid : Grid) (requireClear3x3 : bool) (start : Z * Z)
    (q : list (Z * Z * Z)) (visited : list (Z * Z)) : Prop :=
  In start visited /\
  Forall (fun tile => insideGrid grid tile) visited /\
  Forall (fun entry =>
            In (cellOf entry) visited /\
            snd entry = manhattan start (cellOf entry)) q /\
  wavefront q /\
  (forall tile, In tile visited -> ~ In tile (map cellOf q) ->
     ok grid requireClear3x3 (fst tile) (snd tile) = false /\
     forall dir, In dir dirs -> insideGrid grid (neighbour tile dir) ->
                 In (neighbour tile dir) visited) /\
  (forall head rest, q = head :: rest ->
     forall tile, insideGrid grid tile ->
                  (manhattan start tile <= snd head)%Z -> In tile visited).

(** * Properties *)

(** ** Boolean comparisons reflect the order on the reals *)

Lemma Rleb_true (a b : R) : Rleb a b = true <-> a <= b.
Proof. unfold Rleb. destruct (Rle_dec a b); split; intros; try discriminate; tauto. Qed.

Lemma Rleb_false (a b : R) : Rleb a b = false <-> b < a.
Proof.
  unfold Rleb. destruct (Rle_dec a b); split; intros; try discriminate; lra.
Qed.

Lemma Rltb_true (a b : R) : Rltb a b = true <-> a < b.
Proof. unfold Rltb. destruct (Rlt_dec a b); split; intros; try discriminate; tauto. Qed.

Lemma Rltb_false (a b : R) : Rltb a b = false <-> b <= a.
Proof.
  unfold Rltb. destruct (Rlt_dec a b); split; intros; try discriminate; lra.
Qed.

Lemma Reqb_true (a b : R) : Reqb a b = true <-> a = b.
Proof. unfold Reqb. destruct (Req_dec_T a b); split; intros; try discriminate; tauto. Qed.

Lemma Reqb_false (a b : R) : Reqb a b = false <-> a <> b.
Proof. unfold Reqb. destruct (Req_dec_T a b); split; intros; try discriminate; tauto. Qed.

Lemma Rgeb_true (a b : R) : Rgeb a b = true <-> b <= a.
Proof. apply Rleb_true. Qed.

Lemma Rgeb_false (a b : R) : Rgeb a b = false <-> a < b.
Proof. apply Rleb_false. Qed.

Lemma Rgtb_true (a b : R) : Rgtb a b = true <-> b < a.
Proof. apply Rltb_true. Qed.

Lemma Rgtb_false (a b : R) : Rgtb a b = false <-> a <= b.
Proof. apply Rltb_false. Qed.

(** ** normalizeAngle and angleDifference *)

Section Angles.

Lemma whileAbove_loop (angle : R) :
  whileAbove angle =
  if Rgtb angle PI then whileAbove (angle - PI * 2) else angle.
Proof.
  rewrite whileAbove_equation_1. unfold Rgtb, Rltb.
  destruct (Rgt_dec angle PI) as [H|H], (Rlt_dec PI angle) as [H'|H'];
    simpl; try reflexivity; exfalso; unfold Rgt in *; lra.
Qed.

Lemma whileBelow_loop (angle : R) :
  whileBelow angle =
  if Rltb angle (- PI) then whileBelow (angle + PI * 2) else angle.
Proof.
  rewrite whileBelow_equation_1. unfold Rltb.
  destruct (Rlt_dec angle (- PI)); reflexivity.
Qed.

(** The first loop leaves an angle that is at most PI, congruent to its
    input, and above -PI as soon as it has run once. *)
Lemma whileAbove_spec (angle : R) :
  whileAbove angle <= PI /\
  congruent (whileAbove angle) angle /\
  (whileAbove angle = angle \/ - PI < whileAbove angle).
Proof.
  funelim (whileAbove angle).
  - destruct H as (Hle & [k Hk] & Hlow).
    split; [exact Hle|]. split.
    + exists (k - 1)%Z. rewrite Hk, minus_IZR. lra.
    + right. destruct Hlow as [Hsame|Hlt]; [rewrite Hsame|exact Hlt].
      unfold Rgt in r. lra.
  - split; [unfold Rgt in n; lra|]. split.
    + exists 0%Z. lra.
    + now left.
Qed.

(** The second loop leaves an angle that is at least -PI, congruent to
    its input, and never pushes an angle that was at most PI above PI. *)
Lemma whileBelow_spec (angle : R) :
  - PI <= whileBelow angle /\
  congruent (whileBelow angle) angle /\
  (angle <= PI -> whileBelow angle <= PI).
Proof.
  funelim (whileBelow angle).
  - destruct H as (Hge & [k Hk] & Hup).
    split; [exact Hge|]. split.
    + exists (k + 1)%Z. rewrite Hk, plus_IZR. lra.
    + intros _. apply Hup. lra.
  - split; [lra|]. split.
    + exists 0%Z. lra.
    + tauto.
Qed.

Lemma normalizeAngle_range (angle : R) :
  - PI <= normalizeAngle angle <= PI.
Proof.
  unfold normalizeAngle.
  destruct (whileAbove_spec angle) as (Ha & _ & _).
  destruct (whileBelow_spec (whileAbove angle)) as (Hb & _ & Hc).
  split; [exact Hb | exact (Hc Ha)].
Qed.

Lemma normalizeAngle_congruent (angle : R) :
  congruent (normalizeAngle angle) angle.
Proof.
  unfold normalizeAngle.
  destruct (whileAbove_spec angle) as (_ & [k Hk] & _).
  destruct (whileBelow_spec (whileAbove angle)) as (_ & [j Hj] & _).
  exists (j + k)%Z. rewrite Hj, Hk, plus_IZR. lra.
Qed.

(** Inside [-PI, PI] no congruent angle is smaller in absolute value. *)
Lemma minimal_in_range (r c : R) :
  - PI <= r <= PI -> congruent c r -> Rabs r <= Rabs c.
Proof.
  intros Hr [k Hk]. pose proof PI_RGT_0 as Hpi.
  assert (Hr' : Rabs r <= PI) by (apply Rabs_le; lra).
  destruct (Z.eq_dec k 0) as [->|Hk0].
  - replace c with r by lra. lra.
  - destruct (Z_lt_le_dec k 0) as [Hneg|Hpos].
    + assert (IZR k <= -1) by (apply IZR_le; lia).
      assert (c <= - PI) by nra.
      rewrite (Rabs_left1 c) by lra. lra.
    + assert (1 <= IZR k) by (apply IZR_le; lia).
      assert (PI <= c) by nra.
      rewrite (Rabs_right c) by lra. lra.
Qed.

Lemma normalizeAngle_fixed (angle : R) :
  - PI <= angle <= PI -> normalizeAngle angle = angle.
Proof.
  intros H. unfold normalizeAngle.
  rewrite whileAbove_loop.
  replace (Rgtb angle PI) with false
    by (symmetry; apply Rgtb_false; lra).
  rewrite whileBelow_loop.
  replace (Rltb angle (- PI)) with false
    by (symmetry; apply Rltb_false; lra).
  reflexivity.
Qed.

End Angles.

(** C9, as stated, fails on the boundary: turning from PI to 0 gives -PI,
    which is outside the half-open interval (-PI, PI]. *)
Lemma angleDifference_PI_0 :
  angleDifference PI 0 = - PI /\
  ~ (- PI < angleDifference PI 0 <= PI).
Proof.
  pose proof PI_RGT_0 as Hpi.
  assert (H : angleDifference PI 0 = - PI).
  { unfold angleDifference. rewrite normalizeAngle_fixed by lra. lra. }
  split; [exact H | rewrite H; lra].
Qed.

(** C9, amended: [angleDifference a b] lies in the closed interval
    [-PI, PI], is congruent to [b - a] modulo a full turn, and no angle
    congruent to [b - a] has a smaller absolute value. *)
Theorem angleDifference_minimal (a b : R) :
  - PI <= angleDifference a b <= PI /\
  congruent (angleDifference a b) (b - a) /\
  (forall c : R, congruent c (b - a) -> Rabs (angleDifference a b) <= Rabs c).
Proof.
  unfold angleDifference. split; [apply normalizeAngle_range|].
  split; [apply normalizeAngle_congruent|].
  intros c Hc. apply minimal_in_range; [apply normalizeAngle_range|].
  destruct Hc as [k Hk]. destruct (normalizeAngle_congruent (b - a)) as [j Hj].
  exists (k - j)%Z. rewrite minus_IZR. lra.
Qed.

(** ** Collision *)

Lemma isTile_true (t : TileType) (o : option TileType) :
  isTile t o = true <-> o = Some t.
Proof.
  destruct o as [t'|]; simpl; [|split; discriminate].
  destruct t', t; simpl; split; intros H; try discriminate; try reflexivity;
    inversion H.
Qed.

Lemma isTile_false (t : TileType) (o : option TileType) :
  isTile t o = false <-> o <> Some t.
Proof.
  rewrite <- isTile_true. symmetry. apply not_true_iff_false.
Qed.

Lemma isWalkable_spec (grid : Grid) (x y : R) :
  isWalkable grid x y = true <-> walkableAt grid x y.
Proof.
  unfold isWalkable, walkableAt, JSMath.floor.
  destruct (Z.ltb_spec (Zfloor y) 0); simpl; [split; [discriminate | lia]|].
  destruct (Z.geb_spec (Zfloor y) (gridRows grid)); simpl; [split; [discriminate | lia]|].
  destruct (Z.ltb_spec (Zfloor x) 0); simpl; [split; [discriminate | lia]|].
  destruct (Z.geb_spec (Zfloor x) (gridCols grid)); simpl; [split; [discriminate | lia]|].
  rewrite negb_true_iff, isTile_false. split; [intros; repeat split; (lia || assumption) | tauto].
Qed.

Lemma canMoveTo_spec (grid : Grid) (from to : Vec2.t) (radius : R) :
  canMoveTo grid from to radius = true <-> cornersWalkable grid to radius.
Proof.
  unfold canMoveTo, cornersWalkable. simpl.
  rewrite !andb_true_iff, !isWalkable_spec. unfold Rminus. tauto.
Qed.

Lemma canMoveTo_false (grid : Grid) (from to : Vec2.t) (radius : R) :
  canMoveTo grid from to radius = false <-> ~ cornersWalkable grid to radius.
Proof.
  rewrite <- (canMoveTo_spec grid from). symmetry. apply not_true_iff_false.
Qed.

(** C7: [resolveCollision] tries the full move, then the move along x
    only, then the move along y only, and otherwise stays put; each
    attempt succeeds exactly when the four corners of the square of the
    given radius around the attempted position are walkable. *)
Theorem resolveCollision_order (grid : Grid) (from to : Vec2.t) (radius : R) :
  let horizontalOnly := Vec2.mk (Vec2.x to) (Vec2.y from) in
  let verticalOnly := Vec2.mk (Vec2.x from) (Vec2.y to) in
  (cornersWalkable grid to radius ->
   resolveCollision grid from to radius = to) /\
  (~ cornersWalkable grid to radius ->
   cornersWalkable grid horizontalOnly radius ->
   resolveCollision grid from to radius = horizontalOnly) /\
  (~ cornersWalkable grid to radius ->
   ~ cornersWalkable grid horizontalOnly radius ->
   cornersWalkable grid verticalOnly radius ->
   resolveCollision grid from to radius = verticalOnly) /\
  (~ cornersWalkable grid to radius ->
   ~ cornersWalkable grid horizontalOnly radius ->
   ~ cornersWalkable grid verticalOnly radius ->
   resolveCollision grid from to radius = from).
Proof.
  intros horizontalOnly verticalOnly. unfold resolveCollision.
  fold horizontalOnly verticalOnly.
  repeat split.
  - intros H. apply (canMoveTo_spec grid from) in H. now rewrite H.
  - intros H1 H2. apply (canMoveTo_false grid from) in H1.
    apply (canMoveTo_spec grid from) in H2. now rewrite H1, H2.
  - intros H1 H2 H3. apply (canMoveTo_false grid from) in H1, H2.
    apply (canMoveTo_spec grid from) in H3. now rewrite H1, H2, H3.
  - intros H1 H2 H3. apply (canMoveTo_false grid from) in H1, H2, H3.
    now rewrite H1, H2, H3.
Qed.

(** Sliding along the pillar of the walled room: the full move and the
    move along x run into the wall, the move along y is free. *)
Lemma resolveCollision_order_witness :
  ~ cornersWalkable walledRoom (Vec2.mk 1.8 1.6) 0.3 /\
  ~ cornersWalkable walledRoom (Vec2.mk 1.8 1.5) 0.3 /\
  cornersWalkable walledRoom (Vec2.mk 1.5 1.6) 0.3 /\
  resolveCollision walledRoom (Vec2.mk 1.5 1.5) (Vec2.mk 1.8 1.6) 0.3 =
    Vec2.mk 1.5 1.6.
Proof.
  assert (Hwall : tileAt walledRoom 2 1 = Some WALL) by reflexivity.
  assert (Hfull : ~ cornersWalkable walledRoom (Vec2.mk 1.8 1.6) 0.3).
  { intros (_ & (_ & _ & Hfree) & _). apply Hfree. cbn [Vec2.x Vec2.y].
    replace (Zfloor (1.8 + 0.3)) with 2%Z by (symmetry; apply Zfloor_eq; lra).
    replace (Zfloor (1.6 - 0.3)) with 1%Z by (symmetry; apply Zfloor_eq; lra).
    exact Hwall. }
  assert (Hx : ~ cornersWalkable walledRoom (Vec2.mk 1.8 1.5) 0.3).
  { intros (_ & (_ & _ & Hfree) & _). apply Hfree. cbn [Vec2.x Vec2.y].
    replace (Zfloor (1.8 + 0.3)) with 2%Z by (symmetry; apply Zfloor_eq; lra).
    replace (Zfloor (1.5 - 0.3)) with 1%Z by (symmetry; apply Zfloor_eq; lra).
    exact Hwall. }
  assert (Hy : cornersWalkable walledRoom (Vec2.mk 1.5 1.6) 0.3).
  { unfold cornersWalkable, walkableAt. cbn [Vec2.x Vec2.y].
    replace (Zfloor (1.5 - 0.3)) with 1%Z by (symmetry; apply Zfloor_eq; lra).
    replace (Zfloor (1.5 + 0.3)) with 1%Z by (symmetry; apply Zfloor_eq; lra).
    replace (Zfloor (1.6 - 0.3)) with 1%Z by (symmetry; apply Zfloor_eq; lra).
    replace (Zfloor (1.6 + 0.3)) with 1%Z by (symmetry; apply Zfloor_eq; lra).
    vm_compute. repeat split; congruence. }
  split; [exact Hfull|]. split; [exact Hx|]. split; [exact Hy|].
  destruct (@resolveCollision_order walledRoom (Vec2.mk 1.5 1.5)
              (Vec2.mk 1.8 1.6) 0.3) as (_ & _ & Hslide & _).
  exact (Hslide Hfull Hx Hy).
Defined.

(** ** The traced line *)

Section Bresenham.

Variables x1 y1 dx dy sx sy : Z.
Hypothesis dx_nonneg : (0 <= dx)%Z.
Hypothesis dy_nonneg : (0 <= dy)%Z.
Hypothesis sx_unit : sx = 1%Z \/ sx = (-1)%Z.
Hypothesis sy_unit : sy = 1%Z \/ sy = (-1)%Z.

(** After [i] steps along x and [j] steps along y the loop stands at
    the cell below with the error term below; [i] never passes [dx] and
    [j] never passes [dy], so the end cell is reached before the step
    budget runs out. *)
Lemma getLinePoints_loop_returns (fuel : nat) :
  forall i j x y err : Z,
    (0 <= i <= dx)%Z -> (0 <= j <= dy)%Z ->
    x = (x1 - sx * (dx - i))%Z ->
    y = (y1 - sy * (dy - j))%Z ->
    err = ((1 + j) * dx - (1 + i) * dy)%Z ->
    (Z.to_nat ((dx - i) + (dy - j)) < fuel)%nat ->
    exists points,
      getLinePoints_loop fuel x1 y1 dx dy sx sy x y err = Some points /\
      hd_error points = Some (x, y) /\
      forall d, last points d = (x1, y1).
Proof.
  induction fuel as [|fuel IH]; intros i j x y err Hi Hj Hx Hy Herr Hfuel;
    [lia|].
  cbn [getLinePoints_loop].
  destruct (Z.eqb_spec x x1) as [Ex|Ex], (Z.eqb_spec y y1) as [Ey|Ey];
    cbn [andb].
  1: { exists [(x, y)]. subst x1 y1. now repeat split. }
  all: assert (Hrest : (i < dx \/ j < dy)%Z)
      by (destruct (Z.eq_dec i dx), (Z.eq_dec j dy); subst; try lia;
          exfalso; first [apply Ex | apply Ey]; lia).
  all: assert (Hxs : (2 * err > - dy -> i < dx)%Z)
      by (intros G; destruct (Z.eq_dec i dx) as [->|]; [|lia];
          assert ((dy - (j + 1)) * dx >= 0)%Z by nia; subst err; nia).
  all: assert (Hys : (2 * err < dx -> j < dy)%Z)
      by (intros G; destruct (Z.eq_dec j dy) as [->|]; [|lia];
          assert ((dx - (i + 1)) * dy >= 0)%Z by nia; subst err; nia).
  all: destruct (Z.gtb_spec (2 * err) (- dy)) as [Gx|Gx];
       destruct (Z.ltb_spec (2 * err) dx) as [Gy|Gy]; try lia.
  all: try (specialize (Hxs ltac:(lia))); try (specialize (Hys ltac:(lia))).
  all: cbv beta iota zeta.
  all: first
      [ destruct (IH (i + 1)%Z (j + 1)%Z (x + sx)%Z (y + sy)%Z (err - dy + dx)%Z)
          as (points & Hp & Hhd & Hlast); [lia | lia | subst; ring | subst; ring | subst; ring | lia | rewrite Hp]
      | destruct (IH (i + 1)%Z j (x + sx)%Z y (err - dy)%Z)
          as (points & Hp & Hhd & Hlast); [lia | lia | subst; ring | subst; ring | subst; ring | lia | rewrite Hp]
      | destruct (IH i (j + 1)%Z x (y + sy)%Z (err + dx)%Z)
          as (points & Hp & Hhd & Hlast); [lia | lia | subst; ring | subst; ring | subst; ring | lia | rewrite Hp] ].
  all: cbn [option_map]; eexists; split; [reflexivity|];
       split; [reflexivity|].
  all: intros d; destruct points as [|p ps]; [discriminate|];
       exact (Hlast d).
Qed.

End Bresenham.

(** The trace from one cell to another always returns: it starts at the
    first cell and ends at the second. *)
Lemma getLinePoints_traces (x0 y0 x1 y1 : Z) :
  exists points,
    getLinePoints_loop
      (S (Z.to_nat (Z.abs (x1 - x0) + Z.abs (y1 - y0))))
      x1 y1 (Z.abs (x1 - x0)) (Z.abs (y1 - y0))
      (if (x0 <? x1)%Z then 1%Z else (-1)%Z)
      (if (y0 <? y1)%Z then 1%Z else (-1)%Z)
      x0 y0 (Z.abs (x1 - x0) - Z.abs (y1 - y0))%Z = Some points /\
    getLinePoints x0 y0 x1 y1 = points /\
    hd_error points = Some (x0, y0) /\
    forall d, last points d = (x1, y1).
Proof.
  destruct (@getLinePoints_loop_returns x1 y1
              (Z.abs (x1 - x0)) (Z.abs (y1 - y0))
              (if (x0 <? x1)%Z then 1%Z else (-1)%Z)
              (if (y0 <? y1)%Z then 1%Z else (-1)%Z)
              ltac:(lia) ltac:(lia)
              ltac:(destruct (x0 <? x1)%Z; tauto)
              ltac:(destruct (y0 <? y1)%Z; tauto)
              (S (Z.to_nat (Z.abs (x1 - x0) + Z.abs (y1 - y0))))
              0%Z 0%Z x0 y0 (Z.abs (x1 - x0) - Z.abs (y1 - y0))%Z)
    as (points & Hp & Hhd & Hlast); try lia.
  - destruct (Z.ltb_spec x0 x1); lia.
  - destruct (Z.ltb_spec y0 y1); lia.
  - exists points. unfold getLinePoints. rewrite Hp. auto.
Qed.



(** ** Perception *)



(** *** The sample guard and the player five tiles ahead of it *)






(** *** The scan over the noise markers *)






Lemma Vec2_eta (v : Vec2.t) : Vec2.mk (Vec2.x v) (Vec2.y v) = v.
Proof. now destruct v. Qed.

(** ** The alert-level update *)



(** ** updateEnemy *)

Lemma updateEnemy_dead (enemy : Enemy.t) (player : Player.t) (grid : Grid)
    (config : GameConfig.t) (deltaTime : R) (noiseMarkers : list NoiseMarker.t) :
  Enemy.isDead enemy = true ->
  updateEnemy enemy player grid config deltaTime noiseMarkers =
  Some (enemy, Result.mk false 0 false).
Proof. intros H. unfold updateEnemy. now rewrite H. Qed.

(** For a live enemy [updateEnemy] cools the weapon down, runs the alert
    update and hands its result to the state machine. *)
Lemma updateEnemy_live (enemy : Enemy.t) (player : Player.t) (grid : Grid)
    (config : GameConfig.t) (deltaTime : R) (noiseMarkers : list NoiseMarker.t) :
  Enemy.isDead enemy = false ->
  updateEnemy enemy player grid config deltaTime noiseMarkers =
  let cooled :=
    Enemy.set_shootCooldown (Rmax 0 (Enemy.shootCooldown enemy - deltaTime)) enemy in
  '(enemy', shouldShoot) <-
    stateMachine config grid deltaTime player
      (inVisionCone config grid enemy player)
      (distance (Enemy.pos enemy) (Player.pos player))
      (alertUpdate config grid deltaTime noiseMarkers player cooled) ;;
  ret (enemy', Result.mk (inVisionCone config grid enemy player)
                 (Enemy.alertLevel enemy') shouldShoot).
Proof. intros H. unfold updateEnemy. now rewrite H. Qed.

Lemma alertUpdate_frame (config : GameConfig.t) (grid : Grid)
    (deltaTime : R) (noiseMarkers : list NoiseMarker.t) (player : Player.t)
    (enemy : Enemy.t) :
  let enemy' := alertUpdate config grid deltaTime noiseMarkers player enemy in
  Enemy.id enemy' = Enemy.id enemy /\
  Enemy.pos enemy' = Enemy.pos enemy /\
  Enemy.angle enemy' = Enemy.angle enemy /\
  Enemy.state enemy' = Enemy.state enemy /\
  Enemy.waypoints enemy' = Enemy.waypoints enemy /\
  Enemy.currentWaypointIndex enemy' = Enemy.currentWaypointIndex enemy /\
  Enemy.stateTimer enemy' = Enemy.stateTimer enemy /\
  Enemy.speed enemy' = Enemy.speed enemy /\
  Enemy.ammo enemy' = Enemy.ammo enemy /\
  Enemy.maxAmmo enemy' = Enemy.maxAmmo enemy /\
  Enemy.health enemy' = Enemy.health enemy /\
  Enemy.shootCooldown enemy' = Enemy.shootCooldown enemy /\
  Enemy.isDead enemy' = Enemy.isDead enemy.
Proof.
  unfold alertUpdate.
  destruct (inVisionCone config grid enemy player);
    [|destruct (canHear config enemy player || _);
      [destruct (closestNoise config enemy noiseMarkers)|]];
    cbn; repeat split.
Qed.


Lemma moveToward_frame (enemy : Enemy.t) (target : Vec2.t) (grid : Grid)
    (deltaTime : R) :
  let enemy' := moveToward enemy target grid deltaTime in
  Enemy.pos enemy' =
    resolveCollision grid (Enemy.pos enemy)
      (stepToward (Enemy.pos enemy) target (Enemy.speed enemy) deltaTime) 0.35 /\
  Enemy.id enemy' = Enemy.id enemy /\
  Enemy.state enemy' = Enemy.state enemy /\
  Enemy.waypoints enemy' = Enemy.waypoints enemy /\
  Enemy.currentWaypointIndex enemy' = Enemy.currentWaypointIndex enemy /\
  Enemy.investigateTarget enemy' = Enemy.investigateTarget enemy /\
  Enemy.lastKnownPlayerPos enemy' = Enemy.lastKnownPlayerPos enemy /\
  Enemy.alertLevel enemy' = Enemy.alertLevel enemy /\
  Enemy.stateTimer enemy' = Enemy.stateTimer enemy /\
  Enemy.speed enemy' = Enemy.speed enemy /\
  Enemy.ammo enemy' = Enemy.ammo enemy /\
  Enemy.maxAmmo enemy' = Enemy.maxAmmo enemy /\
  Enemy.health enemy' = Enemy.health enemy /\
  Enemy.shootCooldown enemy' = Enemy.shootCooldown enemy /\
  Enemy.isDead enemy' = Enemy.isDead enemy.
Proof.
  unfold moveToward, stepToward.
  destruct (negb _ || negb _); cbn; repeat split.
Qed.

(** ** The Chase state *)

Lemma stateMachine_chase (config : GameConfig.t) (grid : Grid) (deltaTime : R)
    (player : Player.t) (seen : bool) (distToPlayer : R) (enemy : Enemy.t) :
  Enemy.state enemy = CHASE ->
  stateMachine config grid deltaTime player seen distToPlayer enemy =
  let timer :=
    if seen then GameConfig.chaseDuration config
    else Enemy.stateTimer enemy - deltaTime in
  let shouldShoot :=
    seen && (Rleb distToPlayer 8 && (Enemy.ammo enemy >? 0)%Z &&
             Rleb (Enemy.shootCooldown enemy) 0) in
  let enemy := Enemy.set_stateTimer timer enemy in
  Some (if Rleb timer 0
        then Enemy.set_alertLevel 30
               (Enemy.set_speed (GameConfig.enemyPatrolSpeed config)
                  (Enemy.set_state RETURN enemy))
        else chaseBehavior enemy player grid deltaTime,
        shouldShoot).
Proof.
  intros Hchase. unfold stateMachine. rewrite Hchase.
  destruct seen; cbn [andb].
  - cbn [Enemy.set_stateTimer Enemy.ammo Enemy.shootCooldown].
    destruct (Rleb distToPlayer 8 && (Enemy.ammo enemy >? 0)%Z &&
              Rleb (Enemy.shootCooldown enemy) 0);
      cbv zeta; cbn [Enemy.stateTimer Enemy.set_stateTimer];
      destruct (Rleb (GameConfig.chaseDuration config) 0); reflexivity.
  - cbv zeta. cbn [Enemy.stateTimer Enemy.set_stateTimer].
    destruct (Rleb (Enemy.stateTimer enemy - deltaTime) 0); reflexivity.
Qed.



(** ** The phases of a tick *)

Lemma combatStep_refl (s : GameState.t) : combatStep s s.
Proof.
  unfold combatStep. do 3 (split; [reflexivity|]). split; [lia|]. split; auto.
Qed.

Lemma combatStep_trans (s1 s2 s3 : GameState.t) :
  combatStep s1 s2 -> combatStep s2 s3 -> combatStep s1 s3.
Proof.
  intros (F1 & W1 & P1 & H1 & G1 & O1) (F2 & W2 & P2 & H2 & G2 & O2).
  unfold combatStep. do 3 (split; [congruence|]). split; [lia|]. split; auto.
Qed.

Lemma enemyAged_refl (e : Enemy.t) : enemyAged e e.
Proof. unfold enemyAged. split; [reflexivity|]. split; [lia|auto]. Qed.

Lemma enemyAged_trans (e1 e2 e3 : Enemy.t) :
  enemyAged e1 e2 -> enemyAged e2 e3 -> enemyAged e1 e3.
Proof.
  intros (M1 & H1 & D1) (M2 & H2 & D2). unfold enemyAged.
  split; [congruence|]. split; [lia|].
  intros Hd. specialize (D1 Hd). subst e2. auto.
Qed.

Lemma Forall2_refl {A : Type} (R : A -> A -> Prop) (l : list A) :
  (forall a, R a a) -> Forall2 R l l.
Proof. intros HR. induction l; constructor; auto. Qed.

Lemma Forall2_trans {A : Type} (R : A -> A -> Prop) (l1 l2 l3 : list A) :
  (forall a b c, R a b -> R b c -> R a c) ->
  Forall2 R l1 l2 -> Forall2 R l2 l3 -> Forall2 R l1 l3.
Proof.
  intros HR H12. revert l3. induction H12; intros l3 H23; inversion H23; subst;
    constructor; eauto.
Qed.

(** An aged enemy that was in order is still in order, provided the
    dead flag is raised when the health is used up. *)
Lemma enemyOk_aged (e e' : Enemy.t) :
  enemyOk e -> enemyMind e' = enemyMind e -> healthBounded e' -> enemyOk e'.
Proof.
  intros (Hp & Ha & _) Hm Hh. unfold enemyMind in Hm.
  injection Hm as Hid Hpos Hang Hst Hwp Hidx Hinv Hknown Halert Htimer Hspeed
    Hammo Hmax Hcd.
  unfold enemyOk, patrolReady, alertBounded in *.
  rewrite Hwp, Hidx, Halert. auto.
Qed.

(** *** A player bullet against the enemies *)

Lemma hitEnemies_aged (bullet : Bullet.t) (enemies : list Enemy.t)
    (ammoPickups : list AmmoPickup.t) :
  let '(enemies', _, _) := hitEnemies bullet enemies ammoPickups in
  Forall2 enemyAged enemies enemies' /\
  (Forall enemyOk enemies -> Forall enemyOk enemies').
Proof.
  induction enemies as [|enemy rest IH]; cbn [hitEnemies].
  - split; [constructor | auto].
  - destruct (negb (Enemy.isDead enemy) &&
              Rltb (distance (Bullet.pos bullet) (Enemy.pos enemy)) 0.4) eqn:Hhit.
    + apply andb_true_iff in Hhit. destruct Hhit as [Hlive _].
      apply negb_true_iff in Hlive.
      cbn [Enemy.health Enemy.set_health].
      destruct (Z.leb_spec (Enemy.health enemy - 1) 0) as [Hz|Hz].
      * split.
        { constructor; [|apply Forall2_refl, enemyAged_refl].
          unfold enemyAged. cbn. repeat split; [lia | congruence]. }
        { intros Hok. inversion Hok as [|? ? He Hrest]; subst.
          constructor; [|exact Hrest].
          apply (enemyOk_aged He); [reflexivity|].
          destruct He as (_ & _ & (Hb & Hl)). specialize (Hl Hlive).
          unfold healthBounded in *. cbn. split; [lia | discriminate]. }
      * split.
        { constructor; [|apply Forall2_refl, enemyAged_refl].
          unfold enemyAged. cbn. repeat split; [lia | congruence]. }
        { intros Hok. inversion Hok as [|? ? He Hrest]; subst.
          constructor; [|exact Hrest].
          apply (enemyOk_aged He); [reflexivity|].
          destruct He as (_ & _ & (Hb & Hl)). specialize (Hl Hlive).
          unfold healthBounded in *. cbn. split; [lia | intros; lia]. }
    + destruct (hitEnemies bullet rest ammoPickups) as [[rest' pickups'] hit].
      destruct IH as [IH1 IH2]. split.
      * constructor; [apply enemyAged_refl | exact IH1].
      * intros Hok. inversion Hok; subst. constructor; auto.
Qed.

(** *** Distances against a radius *)

Lemma distance_lt_iff (a b : Vec2.t) (r : R) :
  0 < r ->
  (distance a b < r <->
   (Vec2.x b - Vec2.x a) ^ 2 + (Vec2.y b - Vec2.y a) ^ 2 < r ^ 2).
Proof.
  intros Hr. unfold distance, JSMath.sqrt.
  set (q := (Vec2.x b - Vec2.x a) ^ 2 + (Vec2.y b - Vec2.y a) ^ 2).
  assert (Hq : 0 <= q)
    by (unfold q; apply Rplus_le_le_0_compat; apply pow2_ge_0).
  assert (Hs : sqrt (r ^ 2) = r) by (apply sqrt_pow2; lra).
  split; intros H.
  - rewrite <- Hs in H. now apply sqrt_lt_0_alt in H.
  - rewrite <- Hs. apply sqrt_lt_1_alt. lra.
Qed.

Lemma distance_ge_iff (a b : Vec2.t) (r : R) :
  0 < r ->
  (r <= distance a b <->
   r ^ 2 <= (Vec2.x b - Vec2.x a) ^ 2 + (Vec2.y b - Vec2.y a) ^ 2).
Proof.
  intros Hr. pose proof (distance_lt_iff a b Hr) as H. split; intros G.
  - apply Rnot_lt_le. intros C. apply H in C. lra.
  - apply Rnot_lt_le. intros C. apply H in C. lra.
Qed.


Lemma isWalkable_tile (grid : Grid) (x y : R) :
  isWalkable grid (IZR (JSMath.floor x)) (IZR (JSMath.floor y)) =
  isWalkable grid x y.
Proof. unfold isWalkable, JSMath.floor. now rewrite !ZfloorZ. Qed.

(** ** Player bullets *)




(** *** The bullet phase *)

Lemma stepBullet_combat (deltaTime : R) (bullet : Bullet.t) (state : GameState.t) :
  let '(_, state') := stepBullet deltaTime bullet state in
  combatStep state state' /\
  Forall2 enemyAged (GameState.enemies state) (GameState.enemies state') /\
  (Forall enemyOk (GameState.enemies state) ->
   Forall enemyOk (GameState.enemies state')).
Proof.
  unfold stepBullet.
  set (moved := Bullet.mk _ _ _ _ _).
  destruct (negb (isWalkable _ _ _)).
  { split; [apply combatStep_refl|]. split; [apply Forall2_refl, enemyAged_refl | auto]. }
  destruct (Rleb (Bullet.lifetime moved) 0).
  { split; [apply combatStep_refl|]. split; [apply Forall2_refl, enemyAged_refl | auto]. }
  destruct (Bullet.isPlayerBullet moved).
  - pose proof (hitEnemies_aged moved (GameState.enemies state)
                  (GameState.ammoPickups state)) as H.
    destruct (hitEnemies _ _ _) as [[enemies' pickups'] hit].
    destruct H as [Haged Hok]. cbn. split; [|split; assumption].
    unfold combatStep, playerOk. cbn. do 3 (split; [reflexivity|]).
    split; [lia|]. split; auto.
  - destruct (Rltb (distance (Bullet.pos moved) _) 0.35).
    + split; [|split; [|cbn; destruct (_ <=? _)%Z; cbn; auto]].
      * unfold combatStep, playerOk.
        cbn [Player.health Player.set_health].
        destruct (Z.leb_spec (Player.health (GameState.player state) - 1) 0);
          cbn; (do 3 (split; [reflexivity|])); (split; [lia|]);
          (split; [auto|]); intros [Hmax Hpos];
          (split; [lia|]); intros Hgo; try discriminate; lia.
      * destruct (_ <=? _)%Z; cbn; apply Forall2_refl, enemyAged_refl.
    + split; [apply combatStep_refl|].
      split; [apply Forall2_refl, enemyAged_refl | auto].
Qed.

Lemma bulletsLoop_combat (deltaTime : R) (bullets : list Bullet.t)
    (state : GameState.t) :
  let '(_, state') := bulletsLoop deltaTime bullets state in
  combatStep state state' /\
  Forall2 enemyAged (GameState.enemies state) (GameState.enemies state') /\
  (Forall enemyOk (GameState.enemies state) ->
   Forall enemyOk (GameState.enemies state')).
Proof.
  induction bullets as [|bullet later IH]; cbn [bulletsLoop].
  - split; [apply combatStep_refl|].
    split; [apply Forall2_refl, enemyAged_refl | auto].
  - destruct (bulletsLoop deltaTime later state) as [later' mid].
    pose proof (stepBullet_combat deltaTime bullet mid) as Hstep.
    destruct (stepBullet deltaTime bullet mid) as [kept state'].
    destruct IH as (C1 & A1 & O1), Hstep as (C2 & A2 & O2).
    split; [exact (combatStep_trans C1 C2)|].
    split; [exact (Forall2_trans enemyAged_trans A1 A2) | auto].
Qed.

Lemma updateBullets_combat (state : GameState.t) (deltaTime : R) :
  let state' := updateBullets state deltaTime in
  combatStep state state' /\
  Forall2 enemyAged (GameState.enemies state) (GameState.enemies state') /\
  (Forall enemyOk (GameState.enemies state) ->
   Forall enemyOk (GameState.enemies state')).
Proof.
  unfold updateBullets.
  pose proof (bulletsLoop_combat deltaTime (GameState.bullets state) state) as H.
  destruct (bulletsLoop _ _ _) as [bullets' state'].
  destruct H as (C & A & O). cbn. split; [|split; assumption].
  unfold combatStep, playerOk in *. exact C.
Qed.

(** *** The behaviours of the state machine *)

Lemma moveToward_core (enemy : Enemy.t) (target : Vec2.t) (grid : Grid)
    (deltaTime : R) :
  let enemy' := moveToward enemy target grid deltaTime in
  enemyCore enemy' = enemyCore enemy /\
  Enemy.currentWaypointIndex enemy' = Enemy.currentWaypointIndex enemy /\
  Enemy.alertLevel enemy' = Enemy.alertLevel enemy.
Proof.
  unfold moveToward. destruct (negb _ || negb _); cbn; repeat split.
Qed.

Lemma patrolReady_same (e e' : Enemy.t) :
  Enemy.waypoints e' = Enemy.waypoints e ->
  Enemy.currentWaypointIndex e' = Enemy.currentWaypointIndex e ->
  patrolReady e -> patrolReady e'.
Proof. unfold patrolReady. intros -> ->. auto. Qed.

Lemma enemyCore_waypoints (e e' : Enemy.t) :
  enemyCore e' = enemyCore e -> Enemy.waypoints e' = Enemy.waypoints e.
Proof. unfold enemyCore. congruence. Qed.

(** A patrolling enemy whose waypoint index is in range never reads past
    the end of its waypoint list, and keeps the index in range. *)
Lemma patrolBehavior_returns (enemy : Enemy.t) (grid : Grid) (deltaTime : R) :
  patrolReady enemy ->
  exists enemy',
    patrolBehavior enemy grid deltaTime = Some enemy' /\
    enemyCore enemy' = enemyCore enemy /\
    Enemy.alertLevel enemy' = Enemy.alertLevel enemy /\
    patrolReady enemy'.
Proof.
  intros Hready. unfold patrolBehavior.
  destruct (Nat.eqb_spec (length (Enemy.waypoints enemy)) 0) as [Hlen|Hlen].
  { exists enemy. repeat split; auto. }
  destruct Hready as [Hnil|Hidx]; [rewrite Hnil in Hlen; now destruct Hlen|].
  destruct (nth_error (Enemy.waypoints enemy) (Enemy.currentWaypointIndex enemy))
    as [target|] eqn:Hnth; [|apply nth_error_None in Hnth; lia].
  destruct (moveToward_core enemy target grid deltaTime) as (Hcore & Hi & Ha).
  set (moved := moveToward enemy target grid deltaTime) in *.
  pose proof (enemyCore_waypoints Hcore) as Hwp.
  destruct (Rltb (distance (Enemy.pos moved) target) 0.5).
  - eexists. split; [reflexivity|]. split; [exact Hcore|]. split; [exact Ha|].
    right. cbn [Enemy.set_currentWaypointIndex Enemy.currentWaypointIndex
                Enemy.waypoints].
    rewrite Hwp. apply Nat.mod_upper_bound. exact Hlen.
  - exists moved. split; [reflexivity|]. split; [exact Hcore|]. split; [exact Ha|].
    right. rewrite Hwp, Hi. exact Hidx.
Qed.

Lemma investigateBehavior_core (enemy : Enemy.t) (grid : Grid) (deltaTime : R) :
  let enemy' := investigateBehavior enemy grid deltaTime in
  enemyCore enemy' = enemyCore enemy /\
  Enemy.currentWaypointIndex enemy' = Enemy.currentWaypointIndex enemy /\
  Enemy.alertLevel enemy' = Enemy.alertLevel enemy.
Proof.
  unfold investigateBehavior.
  destruct (Enemy.investigateTarget enemy) as [target|]; [|repeat split].
  destruct (moveToward_core enemy target grid deltaTime) as (Hcore & Hi & Ha).
  destruct (Rltb _ 0.5); cbn; auto.
Qed.

Lemma chaseBehavior_core (enemy : Enemy.t) (player : Player.t) (grid : Grid)
    (deltaTime : R) :
  let enemy' := chaseBehavior enemy player grid deltaTime in
  enemyCore enemy' = enemyCore enemy /\
  Enemy.currentWaypointIndex enemy' = Enemy.currentWaypointIndex enemy /\
  Enemy.alertLevel enemy' = Enemy.alertLevel enemy.
Proof. unfold chaseBehavior. apply moveToward_core. Qed.

Lemma returnBehavior_core (enemy : Enemy.t) (grid : Grid) (deltaTime : R) :
  let enemy' := fst (returnBehavior enemy grid deltaTime) in
  enemyCore enemy' = enemyCore enemy /\
  Enemy.currentWaypointIndex enemy' = Enemy.currentWaypointIndex enemy /\
  Enemy.alertLevel enemy' = Enemy.alertLevel enemy.
Proof.
  unfold returnBehavior. destruct (Enemy.waypoints enemy) as [|target rest] eqn:Hwp.
  - cbn. repeat split.
  - cbn [fst]. apply moveToward_core.
Qed.

(** The state machine returns for every enemy whose waypoint index is in
    range; it leaves the alert level alone or forces it to 30. *)
Lemma stateMachine_returns (config : GameConfig.t) (grid : Grid) (deltaTime : R)
    (player : Player.t) (seen : bool) (distToPlayer : R) (enemy : Enemy.t) :
  patrolReady enemy ->
  exists enemy' shouldShoot,
    stateMachine config grid deltaTime player seen distToPlayer enemy =
      Some (enemy', shouldShoot) /\
    enemyCore enemy' = enemyCore enemy /\
    patrolReady enemy' /\
    (Enemy.alertLevel enemy' = Enemy.alertLevel enemy \/
     Enemy.alertLevel enemy' = 30).
Proof.
  intros Hready. destruct (Enemy.state enemy) eqn:Hstate.
  - unfold stateMachine. rewrite Hstate.
    destruct (Rgeb (Enemy.alertLevel enemy) 100);
      [|destruct (Rgeb (Enemy.alertLevel enemy) 40)].
    + eexists; eexists. split; [reflexivity|]. cbn. auto.
    + eexists; eexists. split; [reflexivity|]. cbn. auto.
    + destruct (patrolBehavior_returns grid deltaTime Hready)
        as (enemy' & Hrun & Hcore & Ha & Hr).
      rewrite Hrun. cbn [bind ret]. eauto 10.
  - unfold stateMachine. rewrite Hstate.
    cbn [Enemy.alertLevel Enemy.stateTimer Enemy.set_stateTimer].
    destruct (Rgeb (Enemy.alertLevel enemy) 100);
      [|destruct (Rleb _ 0 || Rltb _ 10)].
    + eexists; eexists. split; [reflexivity|]. cbn. auto.
    + eexists; eexists. split; [reflexivity|]. cbn. auto.
    + match goal with |- context [investigateBehavior ?e ?g ?d] =>
        destruct (investigateBehavior_core e g d) as (Hcore & Hi & Ha) end.
      eexists; eexists. split; [reflexivity|].
      split; [exact Hcore|]. split; [|left; exact Ha].
      eapply patrolReady_same; [| |exact Hready];
        [exact (enemyCore_waypoints Hcore) | exact Hi].
  - rewrite stateMachine_chase by exact Hstate. cbv zeta.
    eexists; eexists. split; [reflexivity|].
    destruct (Rleb _ 0).
    + cbn. auto.
    + match goal with |- context [chaseBehavior ?e ?p ?g ?d] =>
        destruct (chaseBehavior_core e p g d) as (Hcore & Hi & Ha) end.
      split; [exact Hcore|]. split; [|left; exact Ha].
      eapply patrolReady_same; [| |exact Hready];
        [exact (enemyCore_waypoints Hcore) | exact Hi].
  - unfold stateMachine. rewrite Hstate.
    destruct (Rgeb (Enemy.alertLevel enemy) 60).
    + eexists; eexists. split; [reflexivity|]. cbn. auto.
    + destruct (returnBehavior_core enemy grid deltaTime) as (Hcore & Hi & Ha).
      destruct (returnBehavior enemy grid deltaTime) as [moved returned].
      cbn [fst] in Hcore, Hi, Ha.
      assert (Hr : patrolReady moved).
      { eapply patrolReady_same; [| |exact Hready];
          [exact (enemyCore_waypoints Hcore) | exact Hi]. }
      destruct returned; eexists; eexists; (split; [reflexivity|]); cbn; auto.
Qed.

Lemma alertUpdate_bounded (config : GameConfig.t) (grid : Grid)
    (deltaTime : R) (noiseMarkers : list NoiseMarker.t) (player : Player.t)
    (enemy : Enemy.t) :
  0 <= deltaTime ->
  alertBounded enemy ->
  alertBounded (alertUpdate config grid deltaTime noiseMarkers player enemy).
Proof.
  intros Hdt [Hlo Hhi]. unfold alertBounded, alertUpdate, JSMath.min, JSMath.max.
  destruct (inVisionCone config grid enemy player);
    [|destruct (canHear config enemy player || _);
      [destruct (closestNoise config enemy noiseMarkers)|]];
    cbn [Enemy.alertLevel Enemy.set_alertLevel Enemy.set_lastKnownPlayerPos
         Enemy.set_investigateTarget];
    (split; [apply Rmin_glb; [lra|] | apply Rmin_l]).
  - destruct (Player.isSneaking player).
    + assert (0 <= 100 / 2 * deltaTime) by nra. lra.
    + assert (0 <= 100 / 0.8 * deltaTime) by nra. lra.
  - lra.
  - lra.
  - apply Rmax_l.
Qed.

(** [updateEnemy] returns for every live enemy whose waypoint index is
    in range. *)
Lemma updateEnemy_returns (enemy : Enemy.t) (player : Player.t) (grid : Grid)
    (config : GameConfig.t) (deltaTime : R) (noiseMarkers : list NoiseMarker.t) :
  patrolReady enemy ->
  exists enemy' result,
    updateEnemy enemy player grid config deltaTime noiseMarkers =
      Some (enemy', result) /\
    enemyBody enemy' = enemyBody enemy /\
    patrolReady enemy' /\
    (0 <= deltaTime -> alertBounded enemy -> alertBounded enemy').
Proof.
  intros Hready. destruct (Enemy.isDead enemy) eqn:Hdead.
  { rewrite updateEnemy_dead by exact Hdead. eauto 10. }
  rewrite updateEnemy_live by exact Hdead. cbv zeta.
  set (cooled := Enemy.set_shootCooldown _ enemy).
  destruct (alertUpdate_frame config grid deltaTime noiseMarkers player cooled)
    as (Fid & _ & _ & _ & Fwp & Fidx & _ & _ & _ & Fmax & Fhealth & _ & Fdead).
  pose proof (@alertUpdate_bounded config grid deltaTime noiseMarkers player cooled)
    as Hbounded.
  set (alerted := alertUpdate _ _ _ _ _ cooled) in *.
  assert (Hr : patrolReady alerted).
  { eapply patrolReady_same; [exact Fwp | exact Fidx | exact Hready]. }
  change (Enemy.id cooled) with (Enemy.id enemy) in Fid.
  change (Enemy.waypoints cooled) with (Enemy.waypoints enemy) in Fwp.
  change (Enemy.maxAmmo cooled) with (Enemy.maxAmmo enemy) in Fmax.
  change (Enemy.health cooled) with (Enemy.health enemy) in Fhealth.
  change (Enemy.isDead cooled) with (Enemy.isDead enemy) in Fdead.
  change (alertBounded cooled) with (alertBounded enemy) in Hbounded.
  clearbody alerted.
  destruct (stateMachine_returns config grid deltaTime player
              (inVisionCone config grid enemy player)
              (distance (Enemy.pos enemy) (Player.pos player)) Hr)
    as (enemy' & shouldShoot & Hrun & Hcore & Hready' & Halert).
  rewrite Hrun. cbn [bind ret]. eexists; eexists. split; [reflexivity|].
  split; [|split; [exact Hready'|]].
  - unfold enemyCore in Hcore. unfold enemyBody.
    injection Hcore as Cid Cwp Cmax Chealth Cdead _ _.
    congruence.
  - intros Hdt Hb. specialize (Hbounded Hdt Hb).
    unfold alertBounded in *. destruct Halert as [-> | ->]; [exact Hbounded | lra].
Qed.

(** *** The orchestrator's part of the enemy loop *)

Lemma afterEnemy_combat (state : GameState.t) (enemy : Enemy.t)
    (result : Result.t) :
  let '(state', enemy') := afterEnemy state enemy result in
  combatStep state state' /\
  GameState.ammoPickups state' = GameState.ammoPickups state /\
  enemyBody enemy' = enemyBody enemy /\
  Enemy.currentWaypointIndex enemy' = Enemy.currentWaypointIndex enemy /\
  Enemy.alertLevel enemy' = Enemy.alertLevel enemy.
Proof.
  unfold afterEnemy.
  assert (Hshoot :
    let '(state1, enemy1) :=
      if Result.shouldShoot result && (Enemy.ammo enemy >? 0)%Z &&
         Rleb (Enemy.shootCooldown enemy) 0
      then enemyShoot state enemy else (state, enemy) in
    combatStep state state1 /\
    GameState.ammoPickups state1 = GameState.ammoPickups state /\
    enemyBody enemy1 = enemyBody enemy /\
    Enemy.currentWaypointIndex enemy1 = Enemy.currentWaypointIndex enemy /\
    Enemy.alertLevel enemy1 = Enemy.alertLevel enemy).
  { destruct (_ && _ && _).
    - unfold enemyShoot. cbn. split; [|repeat split].
      unfold combatStep, playerOk. cbn. do 3 (split; [reflexivity|]).
      split; [lia|]. auto.
    - split; [apply combatStep_refl | repeat split]. }
  destruct (if _ && _ && _ then _ else _) as [state1 enemy1].
  destruct Hshoot as (C1 & P1 & B1 & I1 & A1).
  destruct (Rltb _ 0.8 && Rgeb _ 100).
  - split; [|destruct (_ <=? _)%Z; cbn; auto].
    apply (combatStep_trans C1).
    unfold combatStep, playerOk. cbn [Player.health Player.set_health].
    destruct (Z.leb_spec (Player.health (GameState.player state1) - 1) 0);
      cbn; (do 3 (split; [reflexivity|])); (split; [lia|]);
      (split; [auto|]); intros [Hmax Hpos];
      (split; [lia|]); intros Hgo; try discriminate; lia.
  - auto.
Qed.

Lemma enemyOk_thinks (e e' : Enemy.t) :
  enemyBody e' = enemyBody e -> patrolReady e' -> alertBounded e' ->
  enemyOk e -> enemyOk e'.
Proof.
  intros Hbody Hr Ha (_ & _ & Hh). unfold enemyBody in Hbody.
  injection Hbody as _ _ _ Hhealth Hdead.
  split; [exact Hr|]. split; [exact Ha|].
  unfold healthBounded in *. now rewrite Hhealth, Hdead.
Qed.

(** The enemy loop returns when every waypoint index is in range; it
    leaves dead flags and health alone and keeps the enemies in order. *)
Lemma enemiesLoop_returns (deltaTime : R) (enemies : list Enemy.t) :
  forall (state : GameState.t) (maxDetection : R),
    Forall patrolReady enemies ->
    exists enemies' state' maxDetection',
      enemiesLoop deltaTime enemies state maxDetection =
        Some (enemies', state', maxDetection') /\
      combatStep state state' /\
      GameState.ammoPickups state' = GameState.ammoPickups state /\
      Forall2 (fun e e' => enemyBody e' = enemyBody e) enemies enemies' /\
      Forall patrolReady enemies' /\
      (0 <= deltaTime -> Forall enemyOk enemies -> Forall enemyOk enemies').
Proof.
  induction enemies as [|enemy rest IH]; intros state maxDetection Hready;
    cbn [enemiesLoop].
  - exists [], state, maxDetection. split; [reflexivity|].
    split; [apply combatStep_refl|]. repeat split; auto.
  - inversion Hready as [|? ? Hr Hrest]; subst.
    destruct (Enemy.isDead enemy) eqn:Hdead.
    + destruct (IH state maxDetection Hrest)
        as (rest' & state' & m' & Hrun & C & P & B & R' & O).
      rewrite Hrun. cbn [bind ret]. eexists; eexists; eexists.
      split; [reflexivity|]. split; [exact C|]. split; [exact P|].
      split; [constructor; auto|]. split; [constructor; auto|].
      intros Hdt Hok. inversion Hok; subst. constructor; auto.
    + destruct (@updateEnemy_returns enemy (GameState.player state)
                  (GameState.grid state) (GameState.config state) deltaTime
                  (GameState.noiseMarkers state) Hr)
        as (thought & result & Hrun & Hbody & Hr1 & Ha1).
      rewrite Hrun. cbn [bind ret].
      pose proof (afterEnemy_combat state thought result) as Hafter.
      destruct (afterEnemy state thought result) as [state1 enemy1].
      destruct Hafter as (C1 & P1 & B1 & I1 & A1).
      destruct (IH state1 (JSMath.max maxDetection (Result.alertLevel result)) Hrest)
        as (rest' & state' & m' & Hloop & C2 & P2 & B2 & R2 & O2).
      rewrite Hloop. cbn [bind ret]. eexists; eexists; eexists.
      split; [reflexivity|]. split; [exact (combatStep_trans C1 C2)|].
      split; [congruence|].
      assert (Hready1 : patrolReady enemy1).
      { eapply patrolReady_same; [| exact I1 | exact Hr1].
        unfold enemyBody in B1. congruence. }
      split; [constructor; [congruence | exact B2]|].
      split; [constructor; auto|].
      intros Hdt Hok. inversion Hok as [|? ? He Hoks]; subst.
      constructor; [|auto].
      apply (@enemyOk_thinks enemy); [congruence | exact Hready1 | | exact He].
      unfold alertBounded in *. rewrite A1. apply Ha1; [exact Hdt|].
      destruct He as (_ & Ha & _). exact Ha.
Qed.

Lemma enemiesLoop_all_dead (deltaTime : R) (enemies : list Enemy.t)
    (state : GameState.t) (maxDetection : R) :
  forallb Enemy.isDead enemies = true ->
  enemiesLoop deltaTime enemies state maxDetection =
  Some (enemies, state, maxDetection).
Proof.
  induction enemies as [|enemy rest IH]; cbn [enemiesLoop forallb];
    [reflexivity|].
  intros H. apply andb_true_iff in H. destruct H as [Hd Hrest].
  rewrite Hd, IH by exact Hrest. reflexivity.
Qed.

(** *** Pickups and the player phase *)

Lemma collectPickups_player (ammoPickups : list AmmoPickup.t) (player : Player.t) :
  let '(_, player') := collectPickups ammoPickups player in
  Player.pos player' = Player.pos player /\
  Player.health player' = Player.health player /\
  Player.maxHealth player' = Player.maxHealth player.
Proof.
  revert player. induction ammoPickups as [|pickup rest IH]; intros player;
    cbn [collectPickups]; [auto|].
  destruct (negb _ && Rltb _ 0.7).
  - specialize (IH (Player.set_ammo
                      (Z.min (Player.ammo player + AmmoPickup.amount pickup)
                             (Player.maxAmmo player)) player)).
    cbn [AmmoPickup.amount] in *.
    destruct (collectPickups rest _) as [rest' player']. exact IH.
  - specialize (IH player). destruct (collectPickups rest player). exact IH.
Qed.

Lemma updatePlayer_frame (state : GameState.t) (input : InputState.t)
    (deltaTime : R) :
  let '(state', _) := updatePlayer state input deltaTime in
  GameState.enemies state' = GameState.enemies state /\
  worldFrame state' = worldFrame state /\
  GameState.isWin state' = GameState.isWin state /\
  GameState.isGameOver state' = GameState.isGameOver state /\
  GameState.ammoPickups state' = GameState.ammoPickups state /\
  Player.health (GameState.player state') = Player.health (GameState.player state) /\
  Player.maxHealth (GameState.player state') =
    Player.maxHealth (GameState.player state).
Proof.
  unfold updatePlayer. cbv zeta.
  set (cooled := Player.set_isSneaking _ (Player.set_isSprinting _
                   (Player.set_shootCooldown _ (GameState.player state)))).
  destruct (if Player.isSprinting cooled then _ else _) as [speed tiered] eqn:Etier.
  assert (Htier : Player.health tiered = Player.health (GameState.player state) /\
                  Player.maxHealth tiered = Player.maxHealth (GameState.player state)).
  { destruct (Player.isSprinting cooled);
      [|destruct (Player.isSneaking cooled)];
      injection Etier as _ <-; split; reflexivity. }
  clearbody cooled. clear Etier.
  destruct (if negb (Reqb _ 0) && negb (Reqb _ 0) then _ else _) as [dx dy].
  set (moved := if negb (Reqb dx 0) || negb (Reqb dy 0) then _ else _).
  assert (Hmoved : Player.health moved = Player.health (GameState.player state) /\
                   Player.maxHealth moved = Player.maxHealth (GameState.player state)).
  { unfold moved. destruct (negb (Reqb dx 0) || negb (Reqb dy 0)); exact Htier. }
  clearbody moved.
  assert (Hframe : forall s : GameState.t * InputState.t,
            (s = (GameState.set_player moved state, input) \/
             exists noise input',
               s = (GameState.set_noiseMarkers
                      (GameState.noiseMarkers (GameState.set_player moved state) ++ noise)
                      (GameState.set_player moved state), input')) ->
            let '(state', _) :=
              let '(state1, input1) := s in
              if InputState.shoot input1 && (Player.ammo moved >? 0)%Z &&
                 Rleb (Player.shootCooldown moved) 0
              then (playerShoot state1, InputState.set_shoot false input1)
              else (state1, input1) in
            GameState.enemies state' = GameState.enemies state /\
            worldFrame state' = worldFrame state /\
            GameState.isWin state' = GameState.isWin state /\
            GameState.isGameOver state' = GameState.isGameOver state /\
            GameState.ammoPickups state' = GameState.ammoPickups state /\
            Player.health (GameState.player state') =
              Player.health (GameState.player state) /\
            Player.maxHealth (GameState.player state') =
              Player.maxHealth (GameState.player state)).
  { destruct Hmoved as [Hh Hm].
    intros s [-> | (noise & input' & ->)];
      destruct (_ && _ && _); unfold playerShoot; cbn; repeat split; assumption. }
  destruct (InputState.interact input);
    match goal with
    | |- let '(_, _) :=
           (if _ then (playerShoot ?st, InputState.set_shoot false ?inp) else _)
         in _ =>
        apply (Hframe (st, inp))
    end.
  - right. eexists; eexists. reflexivity.
  - now left.
Qed.


Lemma Forall2_compose {A : Type} (P Q T : A -> A -> Prop) (l1 l2 l3 : list A) :
  (forall a b c, P a b -> Q b c -> T a c) ->
  Forall2 P l1 l2 -> Forall2 Q l2 l3 -> Forall2 T l1 l3.
Proof.
  intros H H12. revert l3. induction H12; intros l3 H23; inversion H23; subst;
    constructor; eauto.
Qed.

Lemma Forall_patrolReady (enemies : list Enemy.t) :
  Forall enemyOk enemies -> Forall patrolReady enemies.
Proof. apply Forall_impl. now intros e (H & _). Qed.

(** ** A whole tick *)

Lemma winCondition_ext (s s' : GameState.t) :
  GameState.enemies s' = GameState.enemies s ->
  Player.pos (GameState.player s') = Player.pos (GameState.player s) ->
  GameState.grid s' = GameState.grid s ->
  winCondition s' = winCondition s.
Proof. unfold winCondition. now intros -> -> ->. Qed.

Lemma winCondition_spec (s : GameState.t) :
  winCondition s = true <->
  (forall e, In e (GameState.enemies s) -> Enemy.isDead e = true) /\
  playerOnExit s.
Proof.
  unfold winCondition, playerOnExit, insideGrid, tileOf, JSMath.floor.
  cbn [fst snd].
  rewrite !andb_true_iff, forallb_forall, isTile_true, !Z.geb_le, !Z.ltb_lt.
  tauto.
Qed.

(** What a tick that is not skipped does to a state in order: it returns,
    the result is in order, no enemy and no player gains health, dead
    enemies stay dead, and the win flag is raised exactly when the win
    test succeeds on the result. *)
Lemma updateGame_tick (state : GameState.t) (input : InputState.t)
    (deltaTime : R) :
  skipped state = false ->
  Forall patrolReady (GameState.enemies state) ->
  exists state' input',
    updateGame state input deltaTime = Some (state', input') /\
    worldFrame state' = worldFrame state /\
    GameState.isWin state' = winCondition state' /\
    (GameState.isGameOver state = true -> GameState.isGameOver state' = true) /\
    Forall2 (fun e e' => (Enemy.health e' <= Enemy.health e)%Z)
      (GameState.enemies state) (GameState.enemies state') /\
    (Player.health (GameState.player state') <=
     Player.health (GameState.player state))%Z /\
    Player.maxHealth (GameState.player state') =
      Player.maxHealth (GameState.player state) /\
    (0 <= deltaTime -> stateOk state -> stateOk state') /\
    (let shot := afterBullets state input deltaTime in
     Player.pos (GameState.player state') = Player.pos (GameState.player shot) /\
     (Player.health (GameState.player state') <=
      Player.health (GameState.player shot))%Z /\
     (GameState.isGameOver shot = true -> GameState.isGameOver state' = true) /\
     Forall2 (fun e e' => enemyBody e' = enemyBody e)
       (GameState.enemies shot) (GameState.enemies state') /\
     (forallb Enemy.isDead (GameState.enemies shot) = true ->
      Player.health (GameState.player state') =
      Player.health (GameState.player shot))).
Proof.
  intros Hrun Hready. unfold updateGame, afterBullets.
  unfold skipped in Hrun. rewrite Hrun.
  assert (Hwin0 : GameState.isWin state = false).
  { destruct (GameState.isWin state); [|reflexivity].
    now rewrite orb_true_r in Hrun. }
  pose proof (updatePlayer_frame state input deltaTime) as Hplayer.
  destruct (updatePlayer state input deltaTime) as [s1 input1].
  destruct Hplayer as (E1 & F1 & W1 & G1 & P1 & H1 & M1).
  set (s2 := GameState.set_noiseMarkers _ s1).
  destruct (updateBullets_combat s2 deltaTime) as (C3 & A3 & O3).
  set (s3 := updateBullets s2 deltaTime) in *.
  change (GameState.enemies s2) with (GameState.enemies s1) in A3, O3.
  rewrite E1 in A3, O3.
  assert (Hready3 : Forall patrolReady (GameState.enemies s3)).
  { clear - Hready A3. induction A3 as [|e e' l l' Ha A3 IH]; [constructor|].
    inversion Hready; subst. constructor; [|auto].
    destruct Ha as (Hm & _). unfold enemyMind in Hm.
    eapply patrolReady_same; [| |eassumption]; congruence. }
  destruct (@enemiesLoop_returns deltaTime (GameState.enemies s3) s3 0 Hready3)
    as (enemies' & s4 & m & Hloop & C4 & P4 & B4 & R4 & O4).
  rewrite Hloop. cbn [bind ret].
  set (s5 := GameState.set_detectionLevel m (GameState.set_enemies enemies' s4)).
  set (s6 := if winCondition s5 then GameState.set_isWin true s5 else s5).
  pose proof (collectPickups_player (GameState.ammoPickups s6)
                (GameState.player s6)) as Hpick.
  destruct (collectPickups _ _) as [pickups' player'].
  destruct Hpick as (Q1 & Q2 & Q3).
  eexists; eexists. split; [reflexivity|].
  destruct C3 as (F3 & W3 & R3 & L3 & G3 & K3).
  destruct C4 as (F4 & W4 & R4' & L4 & G4 & K4).
  assert (H6 : GameState.player s6 = GameState.player s4)
    by (unfold s6; destruct (winCondition s5); reflexivity).
  assert (G6 : GameState.isGameOver s6 = GameState.isGameOver s4)
    by (unfold s6; destruct (winCondition s5); reflexivity).
  assert (E6 : GameState.enemies s6 = enemies')
    by (unfold s6; destruct (winCondition s5); reflexivity).
  assert (F6 : worldFrame s6 = worldFrame s4)
    by (unfold s6; destruct (winCondition s5); reflexivity).
  rewrite H6 in Q1, Q2, Q3.
  assert (Hwin' : GameState.isWin
                    (GameState.set_player player'
                       (GameState.set_ammoPickups pickups' s6)) =
                  winCondition
                    (GameState.set_player player'
                       (GameState.set_ammoPickups pickups' s6))).
  { change (GameState.isWin s6 = winCondition
              (GameState.set_player player' (GameState.set_ammoPickups pickups' s6))).
    rewrite (@winCondition_ext s5 (GameState.set_player player' _)).
    - unfold s6. destruct (winCondition s5); [reflexivity|].
      change (GameState.isWin s4 = false). rewrite W4, W3.
      change (GameState.isWin s1 = false). now rewrite W1.
    - cbn [GameState.enemies GameState.set_player GameState.set_ammoPickups].
      exact E6.
    - cbn [GameState.player GameState.set_player]. rewrite Q1. reflexivity.
    - cbn [GameState.grid GameState.set_player GameState.set_ammoPickups].
      unfold s6. destruct (winCondition s5); reflexivity. }
  split; [|split; [|split; [|split; [|split; [|split; [|split]]]]]].
  - change (worldFrame s6 = worldFrame state). rewrite F6, F4, F3. exact F1.
  - exact Hwin'.
  - intros Hgo. change (GameState.isGameOver s6 = true). rewrite G6.
    apply G4, G3. change (GameState.isGameOver s1 = true). now rewrite G1.
  - change (Forall2 (fun e e' => (Enemy.health e' <= Enemy.health e)%Z)
              (GameState.enemies state) (GameState.enemies s6)).
    rewrite E6.
    apply (@Forall2_compose _ enemyAged (fun e e' => enemyBody e' = enemyBody e)
             _ _ (GameState.enemies s3));
      [|exact A3 | exact B4].
    intros a b c (_ & Hle & _) Hb. unfold enemyBody in Hb.
    injection Hb as _ _ _ Hh _. lia.
  - cbn [GameState.player GameState.set_player]. rewrite Q2.
    unfold playerRest in *. change (GameState.player s2) with (GameState.player s1) in L3.
    lia.
  - cbn [GameState.player GameState.set_player]. rewrite Q3.
    unfold playerRest in R3, R4'.
    change (GameState.player s2) with (GameState.player s1) in R3. congruence.
  - intros Hdt (Hen & Hpl & _). split; [|split].
    + change (Forall enemyOk (GameState.enemies s6)). rewrite E6. auto.
    + assert (Hp2 : playerOk s2).
      { unfold playerOk in *.
        change (GameState.player s2) with (GameState.player s1).
        change (GameState.isGameOver s2) with (GameState.isGameOver s1).
        now rewrite H1, M1, G1. }
      specialize (K4 (K3 Hp2)). unfold playerOk in *.
      cbn [GameState.player GameState.set_player GameState.isGameOver
           GameState.set_ammoPickups].
      rewrite G6, Q2, Q3. exact K4.
    + exact Hwin'.
  - cbv zeta. cbn [GameState.player GameState.set_player GameState.isGameOver
                   GameState.set_ammoPickups GameState.enemies].
    rewrite Q1, Q2, G6, E6. unfold playerRest in R4'.
    split; [congruence|]. split; [lia|]. split; [exact G4|].
    split; [exact B4|].
    intros Hdead. rewrite (enemiesLoop_all_dead deltaTime _ s3 0 Hdead) in Hloop.
    injection Hloop as _ <- _. reflexivity.
Qed.

(** *** Enemy bullets *)



(** ** Skipped ticks *)

Lemma updateGame_skipped (state : GameState.t) (input : InputState.t)
    (deltaTime : R) :
  skipped state = true -> updateGame state input deltaTime = Some (state, input).
Proof. unfold skipped, updateGame. now intros ->. Qed.

Lemma runTicks_skipped (state : GameState.t) (ticks : list (InputState.t * R)) :
  skipped state = true -> runTicks state ticks = Some state.
Proof.
  intros Hskip. induction ticks as [|[input deltaTime] later IH];
    cbn [runTicks]; [reflexivity|].
  rewrite updateGame_skipped by exact Hskip. exact IH.
Qed.

(** C4: when the game is paused, over or won, [updateGame] hands back the
    very state and input it was given, whatever the input and the elapsed
    time; so a set flag stays set and the world stays frozen over any run
    of further ticks. *)
Theorem frozen_when_decided (state : GameState.t) :
  GameState.isPaused state = true \/
  GameState.isGameOver state = true \/
  GameState.isWin state = true ->
  (forall input deltaTime,
      updateGame state input deltaTime = Some (state, input)) /\
  (forall ticks, runTicks state ticks = Some state).
Proof.
  intros Hflag.
  assert (Hskip : skipped state = true).
  { unfold skipped. destruct Hflag as [-> | [-> | ->]];
      rewrite ?orb_true_r; reflexivity. }
  split.
  - intros input deltaTime. now apply updateGame_skipped.
  - intros ticks. now apply runTicks_skipped.
Qed.

(** The lost level stays as it is, also with the left key held. *)
Lemma frozen_when_decided_witness :
  GameState.isGameOver lostState = true /\
  updateGame lostState leftInput 0.1 = Some (lostState, leftInput) /\
  runTicks lostState [(leftInput, 0.1); (idleInput, 0.05)] = Some lostState.
Proof.
  destruct (@frozen_when_decided lostState (or_intror (or_introl eq_refl)))
    as [Hone Hmany].
  split; [reflexivity|]. split; [apply Hone | apply Hmany].
Defined.

(** ** The win test *)

(** C5: a tick that is not skipped returns (the enemies' waypoint indices
    being in range), and in the state it returns the win flag is up exactly
    when every enemy is dead and the tile under the player is the exit;
    otherwise the flag is still down.  Once up, the flag and the whole
    state survive any run of further ticks. *)
Theorem win_evaluation (state : GameState.t) (input : InputState.t)
    (deltaTime : R) :
  skipped state = false ->
  Forall patrolReady (GameState.enemies state) ->
  exists state' input',
    updateGame state input deltaTime = Some (state', input') /\
    (GameState.isWin state' = true <->
     (forall e, In e (GameState.enemies state') -> Enemy.isDead e = true) /\
     playerOnExit state') /\
    (GameState.isWin state' = true ->
     forall ticks, runTicks state' ticks = Some state' /\
                   GameState.isWin state' = true).
Proof.
  intros Hrun Hready.
  destruct (@updateGame_tick state input deltaTime Hrun Hready)
    as (state' & input' & Htick & _ & Hwin & _).
  exists state', input'. split; [exact Htick|]. split.
  - rewrite Hwin. apply winCondition_spec.
  - intros Hwon ticks. split; [|exact Hwon].
    apply runTicks_skipped. unfold skipped. rewrite Hwon. apply orb_true_r.
Qed.

Lemma guard_patrolReady : patrolReady guard.
Proof. right. cbn. lia. Qed.

(** The first tick of the sample level. *)
Lemma win_evaluation_witness :
  skipped startState = false /\
  Forall patrolReady (GameState.enemies startState) /\
  exists state' input',
    updateGame startState idleInput 0.1 = Some (state', input') /\
    (GameState.isWin state' = true <->
     (forall e, In e (GameState.enemies state') -> Enemy.isDead e = true) /\
     playerOnExit state').
Proof.
  assert (Hready : Forall patrolReady (GameState.enemies startState)).
  { constructor; [exact guard_patrolReady | constructor]. }
  split; [reflexivity|]. split; [exact Hready|].
  destruct (@win_evaluation startState idleInput 0.1 eq_refl Hready)
    as (state' & input' & Htick & Hwin & _).
  exists state', input'. split; [exact Htick | exact Hwin].
Defined.

(** ** Bounds kept by a tick *)










(** ** Both terminal flags in one tick *)




(** A state in order whose tick is not skipped never has every enemy dead
    with the player already on the exit: the tick before would have raised
    the win flag.  This is why the player of the last stand still has the
    step onto the exit ahead. *)
Lemma no_pending_win (state : GameState.t) :
  stateOk state -> skipped state = false ->
  ~ ((forall e, In e (GameState.enemies state) -> Enemy.isDead e = true) /\
     playerOnExit state).
Proof.
  intros (_ & _ & Hwin) Hrun Hpending. apply winCondition_spec in Hpending.
  unfold skipped in Hrun. rewrite Hwin, Hpending in Hrun.
  now rewrite orb_true_r in Hrun.
Qed.

(** For a live enemy the detection flag that [updateEnemy] reports is the
    vision test. *)
Lemma updateEnemy_detected (enemy enemy' : Enemy.t) (player : Player.t)
    (grid : Grid) (config : GameConfig.t) (deltaTime : R)
    (noiseMarkers : list NoiseMarker.t) (result : Result.t) :
  Enemy.isDead enemy = false ->
  updateEnemy enemy player grid config deltaTime noiseMarkers =
    Some (enemy', result) ->
  Result.detected result = inVisionCone config grid enemy player.
Proof.
  intros Hlive. rewrite updateEnemy_live by exact Hlive. cbv zeta.
  destruct (stateMachine _ _ _ _ _ _ _) as [[moved shouldShoot]|];
    cbn [bind ret]; [|discriminate].
  intros [= _ <-]. reflexivity.
Qed.

(** * Further properties of the code *)

(** ** The shape of a traced line *)

Section BresenhamShape.

Variables x1 y1 dx dy sx sy : Z.
Hypothesis dx_nonneg : (0 <= dx)%Z.
Hypothesis dy_nonneg : (0 <= dy)%Z.
Hypothesis sx_unit : sx = 1%Z \/ sx = (-1)%Z.
Hypothesis sy_unit : sy = 1%Z \/ sy = (-1)%Z.

Lemma getLinePoints_loop_shape (fuel : nat) :
  forall i j x y err : Z,
    (0 <= i <= dx)%Z -> (0 <= j <= dy)%Z ->
    x = (x1 - sx * (dx - i))%Z ->
    y = (y1 - sy * (dy - j))%Z ->
    err = ((1 + j) * dx - (1 + i) * dy)%Z ->
    ((i, j) = (dx, dy) \/ majorWindow dx dy err) ->
    (Z.to_nat ((dx - i) + (dy - j)) < fuel)%nat ->
    exists points,
      getLinePoints_loop fuel x1 y1 dx dy sx sy x y err = Some points /\
      hd_error points = Some (x, y) /\
      (dy <= dx -> length points = S (Z.to_nat (dx - i)))%Z /\
      (dx <= dy -> length points = S (Z.to_nat (dy - j)))%Z /\
      stepwise points.
Proof.
  induction fuel as [|fuel IH]; intros i j x y err Hi Hj Hx Hy Herr Hwin Hfuel;
    [lia|].
  cbn [getLinePoints_loop].
  destruct (Z.eqb_spec x x1) as [Ex|Ex], (Z.eqb_spec y y1) as [Ey|Ey];
    cbn [andb].
  1: { exists [(x, y)].
       assert (i = dx) by nia. assert (j = dy) by nia. subst i j.
       repeat split; intros; cbn; f_equal; lia. }
  all: assert (Hrest : (i < dx \/ j < dy)%Z)
      by (destruct (Z.eq_dec i dx), (Z.eq_dec j dy); subst; try lia;
          exfalso; first [apply Ex | apply Ey]; lia).
  all: destruct Hwin as [Hend | [Wx Wy]];
      [injection Hend as -> ->; lia|].
  all: assert (Hxs : (2 * err > - dy -> i < dx)%Z)
      by (intros G; destruct (Z.eq_dec i dx) as [->|]; [|lia];
          assert ((dy - (j + 1)) * dx >= 0)%Z by nia; subst err; nia).
  all: assert (Hys : (2 * err < dx -> j < dy)%Z)
      by (intros G; destruct (Z.eq_dec j dy) as [->|]; [|lia];
          assert ((dx - (i + 1)) * dy >= 0)%Z by nia; subst err; nia).
  all: destruct (Z.gtb_spec (2 * err) (- dy)) as [Gx|Gx];
       destruct (Z.ltb_spec (2 * err) dx) as [Gy|Gy]; try lia.
  all: try (specialize (Hxs ltac:(lia))); try (specialize (Hys ltac:(lia))).
  all: cbv beta iota zeta.
  all: first
      [ destruct (IH (i + 1)%Z (j + 1)%Z (x + sx)%Z (y + sy)%Z (err - dy + dx)%Z)
          as (points & Hp & Hhd & Hlx & Hly & Hstep);
          [lia | lia | subst; ring | subst; ring | subst; ring
          | destruct (Z.eq_dec (i + 1) dx), (Z.eq_dec (j + 1) dy);
              try (left; f_equal; lia); right; unfold majorWindow; lia
          | lia | rewrite Hp]
      | destruct (IH (i + 1)%Z j (x + sx)%Z y (err - dy)%Z)
          as (points & Hp & Hhd & Hlx & Hly & Hstep);
          [lia | lia | subst; ring | subst; ring | subst; ring
          | destruct (Z.eq_dec (i + 1) dx), (Z.eq_dec j dy);
              try (left; f_equal; lia); right; unfold majorWindow; lia
          | lia | rewrite Hp]
      | destruct (IH i (j + 1)%Z x (y + sy)%Z (err + dx)%Z)
          as (points & Hp & Hhd & Hlx & Hly & Hstep);
          [lia | lia | subst; ring | subst; ring | subst; ring
          | destruct (Z.eq_dec i dx), (Z.eq_dec (j + 1) dy);
              try (left; f_equal; lia); right; unfold majorWindow; lia
          | lia | rewrite Hp] ].
  all: cbn [option_map]; eexists; split; [reflexivity|];
       split; [reflexivity|].
  all: destruct points as [|p ps]; [discriminate|];
       injection Hhd as ->.
  all: split; [intros Hmajor; specialize (Hlx Hmajor); cbn [length] in *; lia|].
  all: split; [intros Hmajor; specialize (Hly Hmajor); cbn [length] in *; lia|].
  all: cbn [stepwise]; split; [|exact Hstep];
       unfold neighbours; cbn [fst snd];
       repeat split; try lia; intros Heq; injection Heq; lia.
Qed.

End BresenhamShape.

Lemma getLinePoints_run (x0 y0 x1 y1 : Z) :
  length (getLinePoints x0 y0 x1 y1) =
    S (Z.to_nat (Z.max (Z.abs (x1 - x0)) (Z.abs (y1 - y0)))) /\
  stepwise (getLinePoints x0 y0 x1 y1).
Proof.
  destruct (getLinePoints_traces x0 y0 x1 y1) as (points & Hrun & -> & _).
  destruct (@getLinePoints_loop_shape x1 y1
              (Z.abs (x1 - x0)) (Z.abs (y1 - y0))
              (if (x0 <? x1)%Z then 1%Z else (-1)%Z)
              (if (y0 <? y1)%Z then 1%Z else (-1)%Z)
              ltac:(lia) ltac:(lia)
              ltac:(destruct (x0 <? x1)%Z; tauto)
              ltac:(destruct (y0 <? y1)%Z; tauto)
              (S (Z.to_nat (Z.abs (x1 - x0) + Z.abs (y1 - y0))))
              0%Z 0%Z x0 y0 (Z.abs (x1 - x0) - Z.abs (y1 - y0))%Z)
    as (points' & Hrun' & _ & Hlx & Hly & Hstep); try lia.
  - destruct (Z.ltb_spec x0 x1); lia.
  - destruct (Z.ltb_spec y0 y1); lia.
  - destruct (Z.eq_dec (Z.abs (x1 - x0)) 0), (Z.eq_dec (Z.abs (y1 - y0)) 0);
      try (right; unfold majorWindow; lia).
    left. f_equal; lia.
  - rewrite Hrun in Hrun'. injection Hrun' as <-.
    split; [|exact Hstep].
    destruct (Z.le_ge_cases (Z.abs (y1 - y0)) (Z.abs (x1 - x0))) as [H|H].
    + rewrite (Hlx H). f_equal. f_equal. lia.
    + rewrite (Hly H). f_equal. f_equal. lia.
Qed.

(** X1: the traced line starts at the first cell, ends at the second,
    moves from each cell to a neighbouring one, and has exactly
    [max(|dx|, |dy|) + 1] cells: one per step along the longer axis. *)
Theorem getLinePoints_shape (x0 y0 x1 y1 : Z) :
  let points := getLinePoints x0 y0 x1 y1 in
  hd_error points = Some (x0, y0) /\
  last points (x0, y0) = (x1, y1) /\
  length points = S (Z.to_nat (Z.max (Z.abs (x1 - x0)) (Z.abs (y1 - y0)))) /\
  stepwise points.
Proof.
  cbv zeta.
  destruct (getLinePoints_run x0 y0 x1 y1) as (Hlen & Hstep).
  destruct (getLinePoints_traces x0 y0 x1 y1) as (points & _ & Heq & Hhd & Hlast).
  rewrite Heq in *.
  split; [exact Hhd|]. split; [apply Hlast|]. split; [exact Hlen | exact Hstep].
Qed.

(** X2: between the same or neighbouring tiles nothing can block the
    sight: the traced line has no cell strictly between its ends, so
    [hasLineOfSight] succeeds whatever the grid holds, even when one of
    the two tiles is itself a wall. *)
Theorem sight_between_neighbours (grid : Grid) (from to : Vec2.t) :
  (Z.abs (fst (tileOf to) - fst (tileOf from)) <= 1)%Z ->
  (Z.abs (snd (tileOf to) - snd (tileOf from)) <= 1)%Z ->
  hasLineOfSight grid from to = true.
Proof.
  unfold tileOf. cbn [fst snd]. intros Hx Hy.
  unfold hasLineOfSight, JSMath.floor. cbn [fst snd].
  destruct (getLinePoints_run (Zfloor (Vec2.x from)) (Zfloor (Vec2.y from))
              (Zfloor (Vec2.x to)) (Zfloor (Vec2.y to)))
    as (Hlen & _).
  destruct (getLinePoints _ _ _ _) as [|p [|q [|r rest]]]; try reflexivity.
  cbn [length] in Hlen. lia.
Qed.

(** From the tile left of the pillar of the walled room the pillar tile
    itself is in sight. *)
Lemma sight_between_neighbours_witness :
  tileAt walledRoom 2 1 = Some WALL /\
  hasLineOfSight walledRoom (Vec2.mk 1.5 1.5) (Vec2.mk 2.5 1.5) = true.
Proof.
  split; [reflexivity|].
  assert (H1 : Zfloor 1.5 = 1%Z) by (apply Zfloor_eq; lra).
  assert (H2 : Zfloor 2.5 = 2%Z) by (apply Zfloor_eq; lra).
  apply sight_between_neighbours; unfold tileOf; cbn [fst snd Vec2.x Vec2.y];
    rewrite ?H1, ?H2; lia.
Defined.

(** ** Vectors and scalars *)

Lemma sqrt_sum_sq_zero (a b : R) : sqrt (a ^ 2 + b ^ 2) = 0 <-> a = 0 /\ b = 0.
Proof.
  assert (Ha : 0 <= a ^ 2) by apply pow2_ge_0.
  assert (Hb : 0 <= b ^ 2) by apply pow2_ge_0.
  split.
  - intros H. apply sqrt_eq_0 in H; [|lra].
    assert (Ha0 : a ^ 2 = 0) by lra. assert (Hb0 : b ^ 2 = 0) by lra.
    rewrite <- Rsqr_pow2 in Ha0, Hb0.
    split; apply Rsqr_0_uniq; assumption.
  - intros [-> ->]. replace (0 ^ 2 + 0 ^ 2) with 0 by lra. apply sqrt_0.
Qed.

Lemma sqrt_sum_sq_sq (a b : R) : sqrt (a ^ 2 + b ^ 2) ^ 2 = a ^ 2 + b ^ 2.
Proof.
  rewrite <- Rsqr_pow2. apply Rsqr_sqrt.
  apply Rplus_le_le_0_compat; apply pow2_ge_0.
Qed.

Lemma normalize_cases (v : Vec2.t) :
  (Vec2.x v = 0 /\ Vec2.y v = 0 -> normalize v = Vec2.mk 0 0) /\
  (~ (Vec2.x v = 0 /\ Vec2.y v = 0) ->
   normalize v =
     Vec2.mk (Vec2.x v / sqrt (Vec2.x v ^ 2 + Vec2.y v ^ 2))
             (Vec2.y v / sqrt (Vec2.x v ^ 2 + Vec2.y v ^ 2)) /\
   Vec2.x (normalize v) ^ 2 + Vec2.y (normalize v) ^ 2 = 1).
Proof.
  unfold normalize, JSMath.sqrt. split.
  - intros H. apply sqrt_sum_sq_zero in H. rewrite H.
    replace (Reqb 0 0) with true by (symmetry; now apply Reqb_true). reflexivity.
  - intros H. rewrite <- sqrt_sum_sq_zero in H.
    replace (Reqb _ 0) with false by (symmetry; now apply Reqb_false).
    split; [reflexivity|]. cbn [Vec2.x Vec2.y].
    pose proof (sqrt_sum_sq_sq (Vec2.x v) (Vec2.y v)) as Hsq.
    set (len := sqrt (Vec2.x v ^ 2 + Vec2.y v ^ 2)) in *.
    replace ((Vec2.x v / len) ^ 2 + (Vec2.y v / len) ^ 2)
      with ((Vec2.x v ^ 2 + Vec2.y v ^ 2) / len ^ 2) by (field; exact H).
    rewrite <- Hsq. field. exact H.
Qed.

(** X3: [normalize] maps the zero vector to itself and every other vector
    to the vector of length 1 with the same direction. *)
Theorem normalize_unit (v : Vec2.t) :
  (Vec2.x v = 0 /\ Vec2.y v = 0 -> normalize v = Vec2.mk 0 0) /\
  (~ (Vec2.x v = 0 /\ Vec2.y v = 0) ->
   Vec2.x (normalize v) ^ 2 + Vec2.y (normalize v) ^ 2 = 1 /\
   exists len, 0 < len /\
     Vec2.x v = len * Vec2.x (normalize v) /\
     Vec2.y v = len * Vec2.y (normalize v)).
Proof.
  destruct (normalize_cases v) as [Hzero Hunit].
  split; [exact Hzero|]. intros Hnz.
  destruct (Hunit Hnz) as [Heq Hsq]. split; [exact Hsq|].
  pose proof (sqrt_pos (Vec2.x v ^ 2 + Vec2.y v ^ 2)) as Hpos.
  assert (Hlen : sqrt (Vec2.x v ^ 2 + Vec2.y v ^ 2) <> 0).
  { intros H0. apply Hnz. now apply sqrt_sum_sq_zero. }
  exists (sqrt (Vec2.x v ^ 2 + Vec2.y v ^ 2)).
  split; [lra|]. rewrite Heq. cbn [Vec2.x Vec2.y].
  split; field; exact Hlen.
Qed.

Lemma distance_nonneg (a b : Vec2.t) : 0 <= distance a b.
Proof. unfold distance, JSMath.sqrt. apply sqrt_pos. Qed.

(** X4: [distance] is symmetric, never negative, and zero exactly between
    equal points. *)
Theorem distance_metric (a b : Vec2.t) :
  distance a b = distance b a /\
  0 <= distance a b /\
  (distance a b = 0 <-> a = b).
Proof.
  split; [|split; [apply distance_nonneg|]].
  - unfold distance. f_equal. ring.
  - unfold distance, JSMath.sqrt. rewrite sqrt_sum_sq_zero.
    destruct a as [ax ay], b as [bx by_]. cbn [Vec2.x Vec2.y]. split.
    + intros [Hx Hy]. f_equal; lra.
    + intros [= -> ->]. lra.
Qed.

(** X5: [clamp] returns its value unchanged inside [min, max] and the
    nearer bound outside, so the result lies in [min, max]; when the
    bounds are crossed (min above max) it returns min. *)
Theorem clamp_range (value min max : R) :
  (min <= max ->
   min <= clamp value min max <= max /\
   (min <= value <= max -> clamp value min max = value) /\
   (value < min -> clamp value min max = min) /\
   (max < value -> clamp value min max = max)) /\
  (max < min -> clamp value min max = min).
Proof.
  unfold clamp, JSMath.max, JSMath.min, Rmax, Rmin.
  repeat destruct (Rle_dec _ _); repeat split; intros; lra.
Qed.

(** X6: degrees to radians and back is the identity, in both orders. *)
Theorem deg_rad_round_trip (a : R) :
  radToDeg (degToRad a) = a /\ degToRad (radToDeg a) = a.
Proof.
  pose proof PI_RGT_0. unfold radToDeg, degToRad. split; field; lra.
Qed.

(** ** Collision, continued *)

Lemma resolveCollision_cases (grid : Grid) (from to : Vec2.t) (radius : R) :
  let result := resolveCollision grid from to radius in
  (result = from \/ cornersWalkable grid result radius) /\
  (Vec2.x result = Vec2.x from \/ Vec2.x result = Vec2.x to) /\
  (Vec2.y result = Vec2.y from \/ Vec2.y result = Vec2.y to).
Proof.
  cbv zeta. unfold resolveCollision.
  destruct (canMoveTo grid from to radius) eqn:Hfull.
  { apply canMoveTo_spec in Hfull. auto. }
  destruct (canMoveTo grid from (Vec2.mk (Vec2.x to) (Vec2.y from)) radius) eqn:Hx.
  { apply canMoveTo_spec in Hx. cbn. auto. }
  destruct (canMoveTo grid from (Vec2.mk (Vec2.x from) (Vec2.y to)) radius) eqn:Hy.
  { apply canMoveTo_spec in Hy. cbn. auto. }
  auto.
Qed.

(** X7: [resolveCollision] never puts an entity into a wall or off the
    grid: the position it returns is the starting position or one whose
    four corners are walkable, each of its coordinates is taken from the
    starting or from the desired position, and it is never farther from
    the start than the desired position. *)
Theorem resolveCollision_safe (grid : Grid) (from to : Vec2.t) (radius : R) :
  let result := resolveCollision grid from to radius in
  (result = from \/ cornersWalkable grid result radius) /\
  (Vec2.x result = Vec2.x from \/ Vec2.x result = Vec2.x to) /\
  (Vec2.y result = Vec2.y from \/ Vec2.y result = Vec2.y to) /\
  distance from result <= distance from to.
Proof.
  cbv zeta.
  destruct (resolveCollision_cases grid from to radius) as (Hsafe & Hx & Hy).
  split; [exact Hsafe|]. split; [exact Hx|]. split; [exact Hy|].
  unfold distance, JSMath.sqrt. apply sqrt_le_1_alt.
  set (r := resolveCollision grid from to radius) in *.
  assert (0 <= (Vec2.x to - Vec2.x from) ^ 2) by apply pow2_ge_0.
  assert (0 <= (Vec2.y to - Vec2.y from) ^ 2) by apply pow2_ge_0.
  destruct Hx as [-> | ->], Hy as [-> | ->]; nra.
Qed.

(** An entity that is clear of the walls stays clear. *)
Lemma resolveCollision_clear (grid : Grid) (from to : Vec2.t) (radius : R) :
  cornersWalkable grid from radius ->
  cornersWalkable grid (resolveCollision grid from to radius) radius.
Proof.
  intros Hfrom. destruct (resolveCollision_cases grid from to radius) as ([-> | H] & _);
    assumption.
Qed.

(** The resolved move is never longer than the desired one. *)
Lemma resolveCollision_shorter (grid : Grid) (from to : Vec2.t) (radius : R) :
  distance from (resolveCollision grid from to radius) <= distance from to.
Proof.
  destruct (resolveCollision_cases grid from to radius) as (_ & Hx & Hy).
  unfold distance, JSMath.sqrt. apply sqrt_le_1_alt.
  set (r := resolveCollision grid from to radius) in *.
  assert (0 <= (Vec2.x to - Vec2.x from) ^ 2) by apply pow2_ge_0.
  assert (0 <= (Vec2.y to - Vec2.y from) ^ 2) by apply pow2_ge_0.
  destruct Hx as [-> | ->], Hy as [-> | ->]; nra.
Qed.

(** ** The state machine *)

Lemma moveToward_stepped (enemy : Enemy.t) (target : Vec2.t) (grid : Grid)
    (deltaTime : R) :
  steppedFrom grid deltaTime enemy (moveToward enemy target grid deltaTime) /\
  Enemy.state (moveToward enemy target grid deltaTime) = Enemy.state enemy /\
  Enemy.speed (moveToward enemy target grid deltaTime) = Enemy.speed enemy /\
  Enemy.stateTimer (moveToward enemy target grid deltaTime) =
    Enemy.stateTimer enemy.
Proof.
  destruct (moveToward_frame enemy target grid deltaTime)
    as (Hpos & _ & Hstate & _ & _ & _ & _ & _ & Htimer & Hspeed & _).
  split; [right; exists target; exact Hpos|]. auto.
Qed.

Lemma patrolBehavior_stepped (enemy enemy' : Enemy.t) (grid : Grid)
    (deltaTime : R) :
  patrolBehavior enemy grid deltaTime = Some enemy' ->
  steppedFrom grid deltaTime enemy enemy' /\
  Enemy.state enemy' = Enemy.state enemy /\
  Enemy.speed enemy' = Enemy.speed enemy /\
  (Enemy.waypoints enemy = [] -> enemy' = enemy).
Proof.
  unfold patrolBehavior.
  destruct (Nat.eqb_spec (length (Enemy.waypoints enemy)) 0) as [Hlen|Hlen].
  { intros [= <-]. split; [now left | auto]. }
  destruct (nth_error _ _) as [target|]; [|discriminate].
  destruct (moveToward_stepped enemy target grid deltaTime) as (Hs & Hst & Hsp & _).
  destruct (Rltb _ 0.5); intros [= <-]; cbn;
    (split; [exact Hs|]); (split; [exact Hst|]); (split; [exact Hsp|]);
    intros Hnil; rewrite Hnil in Hlen; now destruct Hlen.
Qed.

Lemma investigateBehavior_stepped (enemy : Enemy.t) (grid : Grid) (deltaTime : R) :
  steppedFrom grid deltaTime enemy (investigateBehavior enemy grid deltaTime) /\
  Enemy.state (investigateBehavior enemy grid deltaTime) = Enemy.state enemy /\
  Enemy.speed (investigateBehavior enemy grid deltaTime) = Enemy.speed enemy.
Proof.
  unfold investigateBehavior.
  destruct (Enemy.investigateTarget enemy) as [target|]; [|split; [now left | auto]].
  destruct (moveToward_stepped enemy target grid deltaTime) as (Hs & Hst & Hsp & _).
  destruct (Rltb _ 0.5); cbn; auto.
Qed.

Lemma returnBehavior_stepped (enemy : Enemy.t) (grid : Grid) (deltaTime : R) :
  steppedFrom grid deltaTime enemy (fst (returnBehavior enemy grid deltaTime)) /\
  Enemy.state (fst (returnBehavior enemy grid deltaTime)) = Enemy.state enemy /\
  Enemy.speed (fst (returnBehavior enemy grid deltaTime)) = Enemy.speed enemy /\
  (Enemy.waypoints enemy = [] ->
   returnBehavior enemy grid deltaTime = (enemy, true)).
Proof.
  unfold returnBehavior. destruct (Enemy.waypoints enemy) as [|target rest].
  - cbn. split; [now left | auto].
  - cbn [fst].
    destruct (moveToward_stepped enemy target grid deltaTime) as (Hs & Hst & Hsp & _).
    repeat split; auto. discriminate.
Qed.

(** What one run of the state machine can do: the arrow it follows and
    the position it leaves. *)
Lemma stateMachine_step (config : GameConfig.t) (grid : Grid) (deltaTime : R)
    (player : Player.t) (seen : bool) (distToPlayer : R)
    (enemy enemy' : Enemy.t) (shouldShoot : bool) :
  stateMachine config grid deltaTime player seen distToPlayer enemy =
    Some (enemy', shouldShoot) ->
  transition (Enemy.state enemy) (Enemy.state enemy') /\
  steppedFrom grid deltaTime enemy enemy' /\
  (Enemy.state enemy <> CHASE -> Enemy.state enemy' = CHASE ->
   100 <= Enemy.alertLevel enemy /\
   Enemy.alertLevel enemy' = Enemy.alertLevel enemy /\
   Enemy.speed enemy' = GameConfig.enemyChaseSpeed config /\
   Enemy.stateTimer enemy' = GameConfig.chaseDuration config /\
   Enemy.pos enemy' = Enemy.pos enemy) /\
  (Enemy.state enemy <> CHASE -> 100 <= Enemy.alertLevel enemy ->
   Enemy.state enemy = PATROL \/ Enemy.state enemy = INVESTIGATE ->
   Enemy.state enemy' = CHASE) /\
  (Enemy.state enemy <> CHASE -> shouldShoot = false).
Proof.
  destruct (Enemy.state enemy) eqn:Hstate.
  - unfold stateMachine. rewrite Hstate.
    destruct (Rgeb (Enemy.alertLevel enemy) 100) eqn:H100;
      [|destruct (Rgeb (Enemy.alertLevel enemy) 40)].
    + apply Rgeb_true in H100. intros [= <- <-]. cbn.
      repeat split; auto. now left.
    + apply Rgeb_false in H100. intros [= <- <-]. cbn.
      repeat split; try discriminate; auto; try lra. now left.
    + apply Rgeb_false in H100.
      destruct (patrolBehavior enemy grid deltaTime) as [moved|] eqn:Hrun;
        cbn [bind ret]; [|discriminate].
      intros [= <- <-].
      destruct (patrolBehavior_stepped _ _ _ Hrun) as (Hs & Hst & _).
      rewrite Hst, Hstate. cbn.
      repeat split; try discriminate; auto; lra.
  - unfold stateMachine. rewrite Hstate.
    cbn [Enemy.alertLevel Enemy.stateTimer Enemy.set_stateTimer].
    destruct (Rgeb (Enemy.alertLevel enemy) 100) eqn:H100;
      [|destruct (Rleb _ 0 || Rltb _ 10)].
    + apply Rgeb_true in H100. intros [= <- <-]. cbn.
      repeat split; auto. now left.
    + apply Rgeb_false in H100. intros [= <- <-]. cbn.
      repeat split; try discriminate; auto; try lra. now left.
    + apply Rgeb_false in H100. intros [= <- <-].
      match goal with |- context [investigateBehavior ?e ?g ?d] =>
        destruct (investigateBehavior_stepped e g d) as (Hs & Hst & _) end.
      rewrite Hst. cbn [Enemy.state Enemy.set_stateTimer]. rewrite Hstate. cbn.
      repeat split; try discriminate; auto; lra.
  - rewrite stateMachine_chase by exact Hstate. cbv zeta.
    intros [= <- <-]. destruct (Rleb _ 0).
    + cbn. repeat split; try congruence. now left.
    + unfold chaseBehavior.
      match goal with |- context [moveToward ?e ?t ?g ?d] =>
        destruct (moveToward_stepped e t g d) as (Hs & Hst & _) end.
      rewrite Hst. cbn [Enemy.state Enemy.set_stateTimer]. rewrite Hstate. cbn.
      repeat split; try congruence. exact Hs.
  - unfold stateMachine. rewrite Hstate.
    destruct (Rgeb (Enemy.alertLevel enemy) 60).
    + intros [= <- <-]. cbn. repeat split; try discriminate; auto.
      * now left.
      * intros _ _ [H|H]; discriminate.
    + destruct (returnBehavior_stepped enemy grid deltaTime) as (Hs & Hst & _).
      destruct (returnBehavior enemy grid deltaTime) as [moved returned].
      cbn [fst] in Hs, Hst.
      destruct returned; intros [= <- <-]; cbn; rewrite ?Hst, ?Hstate;
        repeat split; try discriminate; auto;
        intros _ _ [H|H]; discriminate.
Qed.

(** The state machine throws in one place only: a patrol that reads a
    waypoint which is not there. *)
Lemma stateMachine_throws (config : GameConfig.t) (grid : Grid) (deltaTime : R)
    (player : Player.t) (seen : bool) (distToPlayer : R) (enemy : Enemy.t) :
  stateMachine config grid deltaTime player seen distToPlayer enemy = None <->
  Enemy.state enemy = PATROL /\ Enemy.alertLevel enemy < 40 /\
  Enemy.waypoints enemy <> [] /\
  (length (Enemy.waypoints enemy) <= Enemy.currentWaypointIndex enemy)%nat.
Proof.
  destruct (Enemy.state enemy) eqn:Hstate.
  - unfold stateMachine. rewrite Hstate.
    destruct (Rgeb (Enemy.alertLevel enemy) 100) eqn:H100.
    { apply Rgeb_true in H100. split; [discriminate|]. intros (_ & H & _). lra. }
    destruct (Rgeb (Enemy.alertLevel enemy) 40) eqn:H40.
    { apply Rgeb_true in H40. split; [discriminate|]. intros (_ & H & _). lra. }
    apply Rgeb_false in H40. unfold patrolBehavior.
    destruct (Nat.eqb_spec (length (Enemy.waypoints enemy)) 0) as [Hlen|Hlen].
    { cbn. split; [discriminate|]. intros (_ & _ & Hne & _).
      destruct (Enemy.waypoints enemy); [now destruct Hne | discriminate]. }
    destruct (nth_error _ _) as [target|] eqn:Hnth.
    + assert (Hlt : (Enemy.currentWaypointIndex enemy <
                     length (Enemy.waypoints enemy))%nat).
      { apply nth_error_Some. congruence. }
      destruct (Rltb _ 0.5); cbn; (split; [discriminate|]);
        intros (_ & _ & _ & H); lia.
    + apply nth_error_None in Hnth. cbn. split; [|reflexivity].
      intros _. repeat split; auto.
      intros Hnil. rewrite Hnil in Hlen. now destruct Hlen.
  - unfold stateMachine. rewrite Hstate.
    split; [|intros (H & _); discriminate].
    cbn [Enemy.alertLevel Enemy.stateTimer Enemy.set_stateTimer].
    destruct (Rgeb _ 100); [|destruct (_ || _)]; discriminate.
  - rewrite stateMachine_chase by exact Hstate.
    split; [discriminate | intros (H & _); discriminate].
  - unfold stateMachine. rewrite Hstate.
    split; [|intros (H & _); discriminate].
    destruct (Rgeb _ 60); [discriminate|].
    destruct (returnBehavior enemy grid deltaTime) as [moved []]; discriminate.
Qed.

Lemma alertUpdate_capped (config : GameConfig.t) (grid : Grid)
    (deltaTime : R) (noiseMarkers : list NoiseMarker.t) (player : Player.t)
    (enemy : Enemy.t) :
  Enemy.alertLevel (alertUpdate config grid deltaTime noiseMarkers player enemy)
    <= 100.
Proof. unfold alertUpdate, JSMath.min. cbn. apply Rmin_l. Qed.

(** What [updateEnemy] does to a live enemy, read off the state machine. *)
Lemma updateEnemy_step (enemy enemy' : Enemy.t) (player : Player.t) (grid : Grid)
    (config : GameConfig.t) (deltaTime : R) (noiseMarkers : list NoiseMarker.t)
    (result : Result.t) :
  updateEnemy enemy player grid config deltaTime noiseMarkers =
    Some (enemy', result) ->
  transition (Enemy.state enemy) (Enemy.state enemy') /\
  steppedFrom grid deltaTime enemy enemy' /\
  (Enemy.state enemy <> CHASE -> Enemy.state enemy' = CHASE ->
   Enemy.alertLevel enemy' = 100 /\
   Enemy.speed enemy' = GameConfig.enemyChaseSpeed config /\
   Enemy.stateTimer enemy' = GameConfig.chaseDuration config /\
   Enemy.pos enemy' = Enemy.pos enemy) /\
  (Result.shouldShoot result = true ->
   Enemy.isDead enemy = false /\ Enemy.state enemy = CHASE).
Proof.
  destruct (Enemy.isDead enemy) eqn:Hdead.
  { rewrite updateEnemy_dead by exact Hdead. intros [= <- <-]. cbn.
    split; [now destruct (Enemy.state enemy)|]. split; [now left|].
    split; [congruence | discriminate]. }
  rewrite updateEnemy_live by exact Hdead. cbv zeta.
  set (cooled := Enemy.set_shootCooldown _ enemy).
  destruct (alertUpdate_frame config grid deltaTime noiseMarkers player cooled)
    as (_ & Fpos & _ & Fstate & _ & _ & _ & Fspeed & _).
  pose proof (alertUpdate_capped config grid deltaTime noiseMarkers player cooled)
    as Hcap.
  change (Enemy.pos cooled) with (Enemy.pos enemy) in Fpos.
  change (Enemy.state cooled) with (Enemy.state enemy) in Fstate.
  change (Enemy.speed cooled) with (Enemy.speed enemy) in Fspeed.
  set (alerted := alertUpdate _ _ _ _ _ cooled) in *. clearbody alerted.
  destruct (stateMachine _ _ _ _ _ _ alerted) as [[moved shouldShoot]|] eqn:Hrun;
    cbn [bind ret]; [|discriminate].
  intros [= <- <-].
  destruct (stateMachine_step _ _ _ _ _ _ _ Hrun) as (Ht & Hs & Hin & _ & Hshot).
  rewrite Fstate in Ht, Hin, Hshot.
  split; [exact Ht|]. split.
  { unfold steppedFrom in *. rewrite Fpos, Fspeed in Hs. exact Hs. }
  split.
  - intros Hne Hch. destruct (Hin Hne Hch) as (H100 & Ha & Hsp & Htm & Hp).
    rewrite Fpos in Hp. repeat split; auto. lra.
  - cbn. intros ->. split; [reflexivity|].
    destruct (Enemy.state enemy); try reflexivity;
      (assert (Hf : true = false) by (apply Hshot; discriminate));
      discriminate.
Qed.

Lemma stepToward_length (from target : Vec2.t) (speed deltaTime : R) :
  0 <= speed -> 0 <= deltaTime ->
  distance from (stepToward from target speed deltaTime) <= speed * deltaTime.
Proof.
  intros Hs Hd. assert (Hsd : 0 <= speed * deltaTime) by nra.
  unfold stepToward, distance, JSMath.sqrt. cbn [Vec2.x Vec2.y].
  set (v := Vec2.mk (Vec2.x target - Vec2.x from) (Vec2.y target - Vec2.y from)).
  destruct (normalize_cases v) as [Hzero Hunit].
  set (d := normalize v) in *. clearbody d.
  assert (Hsq : Vec2.x d ^ 2 + Vec2.y d ^ 2 <= 1).
  { destruct (Req_dec (Vec2.x v) 0) as [Hx|Hx];
      [destruct (Req_dec (Vec2.y v) 0) as [Hy|Hy]|].
    - rewrite (Hzero (conj Hx Hy)). cbn. lra.
    - destruct Hunit as [_ ->]; [tauto | lra].
    - destruct Hunit as [_ ->]; [tauto | lra]. }
  rewrite <- (sqrt_pow2 (speed * deltaTime)) by exact Hsd.
  apply sqrt_le_1_alt.
  assert (0 <= (speed * deltaTime) ^ 2) by apply pow2_ge_0.
  replace ((Vec2.x from + Vec2.x d * speed * deltaTime - Vec2.x from) ^ 2 +
           (Vec2.y from + Vec2.y d * speed * deltaTime - Vec2.y from) ^ 2)
    with ((Vec2.x d ^ 2 + Vec2.y d ^ 2) * (speed * deltaTime) ^ 2) by ring.
  nra.
Qed.

Lemma distance_self (p : Vec2.t) : distance p p = 0.
Proof.
  unfold distance, JSMath.sqrt.
  replace ((Vec2.x p - Vec2.x p) ^ 2 + (Vec2.y p - Vec2.y p) ^ 2) with 0 by ring.
  apply sqrt_0.
Qed.

(** A step as in [steppedFrom] is no longer than [speed * deltaTime] and
    ends clear of the walls when it starts clear of them. *)
Lemma steppedFrom_bound (grid : Grid) (deltaTime : R) (e e' : Enemy.t) :
  steppedFrom grid deltaTime e e' ->
  (0 <= Enemy.speed e -> 0 <= deltaTime ->
   distance (Enemy.pos e) (Enemy.pos e') <= Enemy.speed e * deltaTime) /\
  (Enemy.pos e' = Enemy.pos e \/ cornersWalkable grid (Enemy.pos e') 0.35) /\
  (cornersWalkable grid (Enemy.pos e) 0.35 ->
   cornersWalkable grid (Enemy.pos e') 0.35).
Proof.
  intros [Hsame | (target & Hstep)].
  - rewrite Hsame. split; [|auto].
    intros Hs Hd. rewrite distance_self. nra.
  - rewrite Hstep. split; [|split].
    + intros Hs Hd.
      eapply Rle_trans; [apply resolveCollision_shorter|].
      now apply stepToward_length.
    + destruct (resolveCollision_cases grid (Enemy.pos e)
                  (stepToward (Enemy.pos e) target (Enemy.speed e) deltaTime) 0.35)
        as (H & _). exact H.
    + apply resolveCollision_clear.
Qed.

(** X8: the arrows of the enemy state machine.  In one call of
    [updateEnemy] an enemy keeps its state or follows one of: Patrol to
    Investigate or Chase, Investigate to Chase or Return, Chase to Return,
    Return to Investigate or Patrol.  An enemy that enters Chase has an
    alert level of exactly 100, takes the chase speed and a full chase
    timer, and does not move in that call.  Only a live enemy that was
    already in Chase asks to shoot. *)
Theorem updateEnemy_transitions (enemy enemy' : Enemy.t) (player : Player.t)
    (grid : Grid) (config : GameConfig.t) (deltaTime : R)
    (noiseMarkers : list NoiseMarker.t) (result : Result.t) :
  updateEnemy enemy player grid config deltaTime noiseMarkers =
    Some (enemy', result) ->
  transition (Enemy.state enemy) (Enemy.state enemy') /\
  (Enemy.state enemy <> CHASE -> Enemy.state enemy' = CHASE ->
   Enemy.alertLevel enemy' = 100 /\
   Enemy.speed enemy' = GameConfig.enemyChaseSpeed config /\
   Enemy.stateTimer enemy' = GameConfig.chaseDuration config /\
   Enemy.pos enemy' = Enemy.pos enemy) /\
  (Result.shouldShoot result = true ->
   Enemy.isDead enemy = false /\ Enemy.state enemy = CHASE).
Proof.
  intros Hrun.
  destruct (updateEnemy_step _ _ _ _ _ _ Hrun) as (Ht & _ & Hin & Hshot).
  auto.
Qed.

Lemma updateEnemy_transitions_witness :
  exists enemy' result,
    updateEnemy guard walker openRoom (DEFAULT_CONFIG 0) 0.1 [] =
      Some (enemy', result) /\
    transition (Enemy.state guard) (Enemy.state enemy').
Proof.
  destruct (@updateEnemy_returns guard walker openRoom (DEFAULT_CONFIG 0) 0.1 []
              guard_patrolReady) as (enemy' & result & Hrun & _).
  exists enemy', result. split; [exact Hrun|].
  exact (proj1 (updateEnemy_transitions _ _ _ _ _ _ Hrun)).
Defined.

(** X9: the one way [updateEnemy] can throw.  It fails exactly for a live
    enemy in Patrol whose alert level after the update is below 40, whose
    waypoint list is not empty and whose waypoint index is past the end of
    the list; a dead enemy, an enemy without waypoints and an enemy in any
    other state always get a result. *)
Theorem updateEnemy_throws (enemy : Enemy.t) (player : Player.t) (grid : Grid)
    (config : GameConfig.t) (deltaTime : R) (noiseMarkers : list NoiseMarker.t) :
  updateEnemy enemy player grid config deltaTime noiseMarkers = None <->
  Enemy.isDead enemy = false /\ Enemy.state enemy = PATROL /\
  Enemy.alertLevel
    (alertUpdate config grid deltaTime noiseMarkers player
       (Enemy.set_shootCooldown
          (JSMath.max 0 (Enemy.shootCooldown enemy - deltaTime)) enemy)) < 40 /\
  Enemy.waypoints enemy <> [] /\
  (length (Enemy.waypoints enemy) <= Enemy.currentWaypointIndex enemy)%nat.
Proof.
  destruct (Enemy.isDead enemy) eqn:Hdead.
  { rewrite updateEnemy_dead by exact Hdead.
    split; [discriminate | intros (H & _); discriminate]. }
  rewrite updateEnemy_live by exact Hdead. cbv zeta.
  change (Rmax 0 (Enemy.shootCooldown enemy - deltaTime))
    with (JSMath.max 0 (Enemy.shootCooldown enemy - deltaTime)).
  set (cooled := Enemy.set_shootCooldown _ enemy).
  destruct (alertUpdate_frame config grid deltaTime noiseMarkers player cooled)
    as (_ & _ & _ & Fstate & Fwp & Fidx & _).
  change (Enemy.state cooled) with (Enemy.state enemy) in Fstate.
  change (Enemy.waypoints cooled) with (Enemy.waypoints enemy) in Fwp.
  change (Enemy.currentWaypointIndex cooled)
    with (Enemy.currentWaypointIndex enemy) in Fidx.
  rewrite <- Fstate, <- Fwp, <- Fidx.
  set (alerted := alertUpdate _ _ _ _ _ cooled). clearbody alerted.
  rewrite <- stateMachine_throws
    with (config := config) (grid := grid) (deltaTime := deltaTime)
         (player := player) (seen := inVisionCone config grid enemy player)
         (distToPlayer := distance (Enemy.pos enemy) (Player.pos player)).
  destruct (stateMachine _ _ _ _ _ _ alerted) as [[moved shouldShoot]|];
    cbn [bind ret]; split; try discriminate; try tauto.
  intros (_ & H); discriminate.
Qed.

(** X10: an enemy never outruns its speed and never walks into a wall.
    In one call of [updateEnemy] an enemy of non-negative speed moves at
    most [speed * deltaTime]; its new position is the old one or one where
    the four corners of its body (half-width 0.35) are on walkable tiles,
    so an enemy that stands clear of the walls stays clear of them. *)
Theorem updateEnemy_step_bound (enemy enemy' : Enemy.t) (player : Player.t)
    (grid : Grid) (config : GameConfig.t) (deltaTime : R)
    (noiseMarkers : list NoiseMarker.t) (result : Result.t) :
  0 <= Enemy.speed enemy -> 0 <= deltaTime ->
  updateEnemy enemy player grid config deltaTime noiseMarkers =
    Some (enemy', result) ->
  distance (Enemy.pos enemy) (Enemy.pos enemy') <=
    Enemy.speed enemy * deltaTime /\
  (Enemy.pos enemy' = Enemy.pos enemy \/
   cornersWalkable grid (Enemy.pos enemy') 0.35) /\
  (cornersWalkable grid (Enemy.pos enemy) 0.35 ->
   cornersWalkable grid (Enemy.pos enemy') 0.35).
Proof.
  intros Hs Hd Hrun.
  destruct (updateEnemy_step _ _ _ _ _ _ Hrun) as (_ & Hstep & _).
  destruct (steppedFrom_bound Hstep) as (Hlen & Hclear & Hkeep).
  auto.
Qed.

Lemma updateEnemy_step_bound_witness :
  exists enemy' result,
    updateEnemy guard walker openRoom (DEFAULT_CONFIG 0) 0.1 [] =
      Some (enemy', result) /\
    distance (Enemy.pos guard) (Enemy.pos enemy') <= 1.8 * 0.1.
Proof.
  destruct (@updateEnemy_returns guard walker openRoom (DEFAULT_CONFIG 0) 0.1 []
              guard_patrolReady) as (enemy' & result & Hrun & _).
  exists enemy', result. split; [exact Hrun|].
  refine (proj1 (@updateEnemy_step_bound guard enemy' walker openRoom
                   (DEFAULT_CONFIG 0) 0.1 [] result _ _ Hrun)).
  - cbn. lra.
  - lra.
Defined.

(** ** The player's turn *)

Lemma diagonal_unit (a b : R) :
  0 < a * a + b * b ->
  (a / sqrt (a * a + b * b)) ^ 2 + (b / sqrt (a * a + b * b)) ^ 2 = 1.
Proof.
  intros Hpos.
  assert (Hs : sqrt (a * a + b * b) * sqrt (a * a + b * b) = a * a + b * b)
    by (apply sqrt_sqrt; lra).
  assert (Hne : sqrt (a * a + b * b) <> 0).
  { intros H0. rewrite H0 in Hs. lra. }
  set (l := sqrt (a * a + b * b)) in *.
  replace ((a / l) ^ 2 + (b / l) ^ 2) with ((a * a + b * b) / (l * l))
    by (field; exact Hne).
  rewrite Hs. field. lra.
Qed.

(** [updatePlayer] in two phases: the player record after the movement
    step, then the thrown distraction and the shot. *)
Lemma updatePlayer_phases (state : GameState.t) (input : InputState.t)
    (deltaTime : R) :
  let player := GameState.player state in
  exists moved : Player.t,
    updatePlayer state input deltaTime =
      (let state1 := GameState.set_player moved state in
       let '(state2, input2) :=
         if InputState.interact input then
           (GameState.set_noiseMarkers
              (GameState.noiseMarkers state1 ++
               [NoiseMarker.mk
                  (Vec2.mk
                     (Vec2.x (Player.pos moved) + cos (Player.angle moved) * 3)
                     (Vec2.y (Player.pos moved) + sin (Player.angle moved) * 3))
                  2 2 2])
              state1,
            InputState.set_interact false input)
         else (state1, input) in
       if InputState.shoot input2 && (Player.ammo moved >? 0)%Z &&
          Rleb (Player.shootCooldown moved) 0
       then (playerShoot state2, InputState.set_shoot false input2)
       else (state2, input2)) /\
    Player.isSprinting moved =
      InputState.sprint input && negb (InputState.sneak input) /\
    Player.isSneaking moved =
      InputState.sneak input && negb (InputState.sprint input) /\
    Player.noiseLevel moved =
      (if still input then 0 else tierNoise input) /\
    (Player.pos moved = Player.pos player /\ still input = true \/
     exists dx dy,
       still input = false /\ dx ^ 2 + dy ^ 2 = 1 /\
       Player.pos moved =
         resolveCollision (GameState.grid state) (Player.pos player)
           (Vec2.mk
              (Vec2.x (Player.pos player) +
               dx * tierSpeed (GameState.config state) input * deltaTime)
              (Vec2.y (Player.pos player) +
               dy * tierSpeed (GameState.config state) input * deltaTime))
           0.3) /\
    Player.angle moved = Player.angle player /\
    Player.speed moved = Player.speed player /\
    Player.ammo moved = Player.ammo player /\
    Player.maxAmmo moved = Player.maxAmmo player /\
    Player.health moved = Player.health player /\
    Player.maxHealth moved = Player.maxHealth player /\
    Player.shootCooldown moved =
      JSMath.max 0 (Player.shootCooldown player - deltaTime).
Proof.
  intros player. unfold updatePlayer. cbv zeta. fold player.
  set (cooled := Player.set_isSneaking _ (Player.set_isSprinting _
                   (Player.set_shootCooldown _ player))).
  destruct (if Player.isSprinting cooled then _ else _) as [speed tiered] eqn:Etier.
  assert (Htier :
    speed = tierSpeed (GameState.config state) input /\
    Player.noiseLevel tiered = tierNoise input /\
    Player.isSprinting tiered =
      InputState.sprint input && negb (InputState.sneak input) /\
    Player.isSneaking tiered =
      InputState.sneak input && negb (InputState.sprint input) /\
    Player.pos tiered = Player.pos player /\
    Player.angle tiered = Player.angle player /\
    Player.speed tiered = Player.speed player /\
    Player.ammo tiered = Player.ammo player /\
    Player.maxAmmo tiered = Player.maxAmmo player /\
    Player.health tiered = Player.health player /\
    Player.maxHealth tiered = Player.maxHealth player /\
    Player.shootCooldown tiered =
      JSMath.max 0 (Player.shootCooldown player - deltaTime)).
  { unfold tierSpeed, tierNoise. subst cooled.
    cbn [Player.isSprinting Player.isSneaking Player.set_isSprinting
         Player.set_isSneaking] in Etier.
    destruct (InputState.sprint input && negb (InputState.sneak input));
      [|destruct (InputState.sneak input && negb (InputState.sprint input))];
      injection Etier as <- <-; cbn; repeat split. }
  clearbody cooled. clear Etier.
  destruct Htier as (-> & Hnoise & Hsprint & Hsneak & Hpos & Hangle & Hspeed &
                     Hammo & Hmax & Hhealth & Hmaxh & Hcool).
  destruct (if negb (Reqb _ 0) && negb (Reqb _ 0) then _ else _)
    as [dx dy] eqn:Edir.
  assert (Hdir : still input = true /\ dx = 0 /\ dy = 0 \/
                 still input = false /\ dx ^ 2 + dy ^ 2 = 1).
  { assert (H00 : Reqb 0 0 = true) by now apply Reqb_true.
    assert (Hm : Reqb (0 - 1) 0 = false) by (apply Reqb_false; lra).
    assert (Hp : Reqb (0 + 1) 0 = false) by (apply Reqb_false; lra).
    assert (Hmp : Reqb (0 - 1 + 1) 0 = true) by (apply Reqb_true; lra).
    unfold still.
    destruct (InputState.up input), (InputState.down input),
             (InputState.left input), (InputState.right input);
      rewrite ?H00, ?Hm, ?Hp, ?Hmp in Edir; cbn [negb andb] in Edir;
      injection Edir as <- <-; cbn [Bool.eqb andb];
      first [ left; split; [reflexivity|]; split; lra
            | right; split; [reflexivity|];
              first [ unfold JSMath.sqrt; apply diagonal_unit; lra | lra ] ]. }
  clear Edir.
  set (moved := if negb (Reqb dx 0) || negb (Reqb dy 0) then _ else _).
  exists moved. split; [reflexivity|].
  destruct Hdir as [(Hstill & -> & ->) | (Hstill & Hunit)].
  - assert (Hmoved : moved = Player.set_noiseLevel 0 tiered).
    { unfold moved.
      replace (Reqb 0 0) with true by (symmetry; now apply Reqb_true).
      reflexivity. }
    clearbody moved. subst moved. rewrite Hstill. cbn.
    repeat split; auto.
  - assert (Hmoved :
      moved =
      Player.set_pos
        (resolveCollision (GameState.grid state) (Player.pos tiered)
           (Vec2.mk
              (Vec2.x (Player.pos tiered) +
               dx * tierSpeed (GameState.config state) input * deltaTime)
              (Vec2.y (Player.pos tiered) +
               dy * tierSpeed (GameState.config state) input * deltaTime))
           0.3) tiered).
    { unfold moved.
      destruct (Reqb dx 0) eqn:Hx; [|reflexivity].
      destruct (Reqb dy 0) eqn:Hy; [|reflexivity].
      apply Reqb_true in Hx. apply Reqb_true in Hy. subst dx dy. lra. }
    clearbody moved. subst moved. rewrite Hstill, Hpos. cbn.
    repeat split; auto.
    right. exists dx, dy. auto.
Qed.

Lemma fires_spec (state : GameState.t) (input : InputState.t) (deltaTime : R) :
  InputState.shoot input &&
  (Player.ammo (GameState.player state) >? 0)%Z &&
  Rleb (JSMath.max 0
          (Player.shootCooldown (GameState.player state) - deltaTime)) 0 =
  fires state input deltaTime.
Proof.
  unfold fires, JSMath.max. rewrite Z.gtb_ltb. f_equal.
  destruct (Rleb (Player.shootCooldown (GameState.player state)) deltaTime) eqn:H.
  - apply Rleb_true in H. apply Rleb_true. apply Rmax_lub; lra.
  - apply Rleb_false in H. apply Rleb_false.
    pose proof (Rmax_r 0 (Player.shootCooldown (GameState.player state) - deltaTime)).
    lra.
Qed.

(** Everything [updatePlayer] does, in terms of the state it was given. *)
Lemma updatePlayer_outcome (state : GameState.t) (input : InputState.t)
    (deltaTime : R) :
  let player := GameState.player state in
  let state' := fst (updatePlayer state input deltaTime) in
  let input' := snd (updatePlayer state input deltaTime) in
  let player' := GameState.player state' in
  (Player.isSprinting player' =
     InputState.sprint input && negb (InputState.sneak input) /\
   Player.isSneaking player' =
     InputState.sneak input && negb (InputState.sprint input) /\
   Player.noiseLevel player' = (if still input then 0 else tierNoise input) /\
   Player.angle player' = Player.angle player /\
   Player.maxAmmo player' = Player.maxAmmo player) /\
  (Player.pos player' = Player.pos player /\ still input = true \/
   exists dx dy,
     still input = false /\ dx ^ 2 + dy ^ 2 = 1 /\
     Player.pos player' =
       resolveCollision (GameState.grid state) (Player.pos player)
         (Vec2.mk
            (Vec2.x (Player.pos player) +
             dx * tierSpeed (GameState.config state) input * deltaTime)
            (Vec2.y (Player.pos player) +
             dy * tierSpeed (GameState.config state) input * deltaTime))
         0.3) /\
  GameState.noiseMarkers state' =
    (GameState.noiseMarkers state ++
     (if InputState.interact input
      then [NoiseMarker.mk
              (Vec2.mk
                 (Vec2.x (Player.pos player') + cos (Player.angle player) * 3)
                 (Vec2.y (Player.pos player') + sin (Player.angle player) * 3))
              2 2 2]
      else [])) ++
    (if fires state input deltaTime
     then [NoiseMarker.mk (Player.pos player') 6 1.5 1.5]
     else []) /\
  InputState.interact input' = false /\
  GameState.bullets state' =
    GameState.bullets state ++
    (if fires state input deltaTime
     then [Bullet.mk (GameState.nextBulletId state) (Player.pos player')
             (Vec2.mk (cos (Player.angle player) * COMBAT_CONFIG.bulletSpeed)
                      (sin (Player.angle player) * COMBAT_CONFIG.bulletSpeed))
             true COMBAT_CONFIG.bulletLifetime]
     else []) /\
  Player.ammo player' =
    (if fires state input deltaTime
     then Player.ammo player - 1 else Player.ammo player)%Z /\
  Player.shootCooldown player' =
    (if fires state input deltaTime then COMBAT_CONFIG.shootCooldown
     else JSMath.max 0 (Player.shootCooldown player - deltaTime)) /\
  GameState.nextBulletId state' =
    (if fires state input deltaTime
     then GameState.nextBulletId state + 1 else GameState.nextBulletId state)%Z /\
  InputState.shoot input' =
    (if fires state input deltaTime then false else InputState.shoot input).
Proof.
  cbv zeta.
  pose proof (fires_spec state input deltaTime) as Hfires.
  destruct (updatePlayer_phases state input deltaTime)
    as (moved & -> & Hsprint & Hsneak & Hnoise & Hpos & Hangle & _ & Hammo &
        Hmax & _ & _ & Hcool).
  cbv zeta. rewrite <- Hammo, <- Hcool in Hfires.
  rewrite <- Hsprint, <- Hsneak, <- Hnoise, <- Hangle, <- Hmax, <- Hammo, <- Hcool.
  assert (Hposes :
    forall q : Vec2.t,
      q = Player.pos moved ->
      q = Player.pos (GameState.player state) /\ still input = true \/
      exists dx dy,
        still input = false /\ dx ^ 2 + dy ^ 2 = 1 /\
        q =
          resolveCollision (GameState.grid state)
            (Player.pos (GameState.player state))
            (Vec2.mk
               (Vec2.x (Player.pos (GameState.player state)) +
                dx * tierSpeed (GameState.config state) input * deltaTime)
               (Vec2.y (Player.pos (GameState.player state)) +
                dy * tierSpeed (GameState.config state) input * deltaTime))
            0.3).
  { intros q ->. exact Hpos. }
  clear Hsprint Hsneak Hnoise Hpos Hangle Hmax Hammo Hcool.
  destruct (Player.pos moved) as [px py] eqn:Epos.
  destruct (InputState.interact input) eqn:Hi;
    cbn [InputState.shoot InputState.set_interact];
    rewrite Hfires; destruct (fires state input deltaTime);
    cbn [fst snd playerShoot GameState.player GameState.set_player
         GameState.set_noiseMarkers GameState.set_bullets
         GameState.set_nextBulletId GameState.noiseMarkers GameState.bullets
         GameState.nextBulletId Player.isSprinting Player.isSneaking
         Player.noiseLevel Player.angle Player.maxAmmo Player.pos Player.ammo
         Player.shootCooldown Player.set_ammo Player.set_shootCooldown
         InputState.interact InputState.shoot InputState.set_shoot
         InputState.set_interact];
    rewrite ?Epos; cbn [Vec2.x Vec2.y]; rewrite ?app_nil_r;
    (split; [repeat split|]);
    (split; [apply Hposes; reflexivity|]);
    repeat split; auto.
Qed.

(** X11: movement modes and footstep noise of the player.  After
    [updatePlayer] the player is sprinting exactly when sprint is held
    without sneak and sneaking exactly when sneak is held without sprint,
    never both.  The noise level is 0 when the movement keys cancel out
    (and then the player has not moved), otherwise 1 when sprinting, 0
    when sneaking and 0.3 when walking; throwing and shooting in the same
    call leave it alone. *)
Theorem updatePlayer_noise (state : GameState.t) (input : InputState.t)
    (deltaTime : R) :
  let player' := GameState.player (fst (updatePlayer state input deltaTime)) in
  Player.isSprinting player' =
    InputState.sprint input && negb (InputState.sneak input) /\
  Player.isSneaking player' =
    InputState.sneak input && negb (InputState.sprint input) /\
  Player.isSprinting player' && Player.isSneaking player' = false /\
  Player.noiseLevel player' = (if still input then 0 else tierNoise input) /\
  (Player.noiseLevel player' = 0 \/ Player.noiseLevel player' = 0.3 \/
   Player.noiseLevel player' = 1) /\
  (still input = true ->
   Player.pos player' = Player.pos (GameState.player state)).
Proof.
  destruct (updatePlayer_outcome state input deltaTime)
    as ((Hsprint & Hsneak & Hnoise & _) & Hpos & _).
  cbv zeta. rewrite Hsprint, Hsneak, Hnoise.
  split; [reflexivity|]. split; [reflexivity|].
  split; [destruct (InputState.sprint input), (InputState.sneak input); reflexivity|].
  split; [reflexivity|]. split.
  - unfold tierNoise. destruct (still input); [now left|].
    destruct (_ && _); [now right; right|].
    destruct (_ && _); [now left | now right; left].
  - intros Hstill. destruct Hpos as [[H _] | (dx & dy & H & _)]; [exact H|].
    congruence.
Qed.

(** X12: the player never outruns the speed of the movement mode and
    never walks into a wall.  In one call of [updatePlayer] the player
    moves at most [speed * deltaTime], where the speed is the sprint,
    sneak or walk speed of the mode (diagonal moves are normalised); the new
    position is the old one or one where the four corners of the body
    (half-width 0.3) are on walkable tiles, so a player clear of the walls
    stays clear of them. *)
Theorem updatePlayer_step_bound (state : GameState.t) (input : InputState.t)
    (deltaTime : R) :
  0 <= tierSpeed (GameState.config state) input -> 0 <= deltaTime ->
  let player := GameState.player state in
  let player' := GameState.player (fst (updatePlayer state input deltaTime)) in
  distance (Player.pos player) (Player.pos player') <=
    tierSpeed (GameState.config state) input * deltaTime /\
  (Player.pos player' = Player.pos player \/
   cornersWalkable (GameState.grid state) (Player.pos player') 0.3) /\
  (cornersWalkable (GameState.grid state) (Player.pos player) 0.3 ->
   cornersWalkable (GameState.grid state) (Player.pos player') 0.3).
Proof.
  intros Hs Hd. cbv zeta.
  destruct (updatePlayer_outcome state input deltaTime) as (_ & Hpos & _).
  cbv zeta in Hpos.
  set (speed := tierSpeed (GameState.config state) input) in *.
  assert (Hsd : 0 <= speed * deltaTime) by nra.
  destruct Hpos as [[-> _] | (dx & dy & _ & Hunit & ->)].
  - rewrite distance_self. auto.
  - split; [|split].
    + eapply Rle_trans; [apply resolveCollision_shorter|].
      unfold distance, JSMath.sqrt. cbn [Vec2.x Vec2.y].
      rewrite <- (sqrt_pow2 (speed * deltaTime)) by exact Hsd.
      apply sqrt_le_1_alt.
      match goal with |- ?l <= _ =>
        replace l with ((dx ^ 2 + dy ^ 2) * (speed * deltaTime) ^ 2) by ring end.
      rewrite Hunit. lra.
    + match goal with |- context [resolveCollision ?g ?f ?t ?r] =>
        destruct (resolveCollision_cases g f t r) as (H & _) end.
      exact H.
    + apply resolveCollision_clear.
Qed.

Lemma updatePlayer_step_bound_witness :
  distance (Player.pos walker)
    (Player.pos (GameState.player (fst (updatePlayer startState leftInput 0.1))))
    <= 3 * 0.1.
Proof.
  refine (proj1 (@updatePlayer_step_bound startState leftInput 0.1 _ _)).
  - cbn. lra.
  - lra.
Defined.

(** X13: when the player fires.  [updatePlayer] fires exactly when the
    trigger is pulled, at least one round is left and the weapon's
    cooldown is no longer than the tick.  A shot costs one round, sets the
    cooldown to 0.3, appends one player bullet with the next free id at
    the player's position flying at speed 15 along the player's angle,
    advances the id counter and clears the trigger; otherwise rounds,
    bullets and counter are untouched and the cooldown only runs down. *)
Theorem updatePlayer_fire (state : GameState.t) (input : InputState.t)
    (deltaTime : R) :
  let player := GameState.player state in
  let state' := fst (updatePlayer state input deltaTime) in
  let input' := snd (updatePlayer state input deltaTime) in
  let player' := GameState.player state' in
  (fires state input deltaTime = true <->
   InputState.shoot input = true /\ (0 < Player.ammo player)%Z /\
   Player.shootCooldown player <= deltaTime) /\
  (fires state input deltaTime = true ->
   exists bullet,
     GameState.bullets state' = GameState.bullets state ++ [bullet] /\
     Bullet.id bullet = GameState.nextBulletId state /\
     Bullet.isPlayerBullet bullet = true /\
     Bullet.pos bullet = Player.pos player' /\
     Bullet.lifetime bullet = 2 /\
     Vec2.x (Bullet.velocity bullet) ^ 2 + Vec2.y (Bullet.velocity bullet) ^ 2 =
       15 ^ 2 /\
     Player.ammo player' = (Player.ammo player - 1)%Z /\
     Player.shootCooldown player' = 0.3 /\
     GameState.nextBulletId state' = (GameState.nextBulletId state + 1)%Z /\
     InputState.shoot input' = false) /\
  (fires state input deltaTime = false ->
   GameState.bullets state' = GameState.bullets state /\
   Player.ammo player' = Player.ammo player /\
   Player.shootCooldown player' =
     Rmax 0 (Player.shootCooldown player - deltaTime) /\
   GameState.nextBulletId state' = GameState.nextBulletId state /\
   InputState.shoot input' = InputState.shoot input).
Proof.
  cbv zeta.
  destruct (updatePlayer_outcome state input deltaTime)
    as (_ & _ & _ & _ & Hbullets & Hammo & Hcool & Hnext & Hshoot).
  cbv zeta in *. split; [|split].
  - unfold fires. rewrite !andb_true_iff, Rleb_true, Z.ltb_lt. tauto.
  - intros Hf. rewrite Hf in *. eexists. split; [exact Hbullets|].
    cbn [Bullet.id Bullet.isPlayerBullet Bullet.pos Bullet.lifetime
         Bullet.velocity Vec2.x Vec2.y].
    repeat split; auto.
    unfold COMBAT_CONFIG.bulletSpeed.
    pose proof (sin2_cos2 (Player.angle (GameState.player state))) as Hsc.
    unfold Rsqr in Hsc. nra.
  - intros Hf. rewrite Hf in *. rewrite app_nil_r in Hbullets. auto.
Qed.

(** X14: the noise the player makes on purpose.  A thrown distraction
    (interact held) appends one noise marker of radius 2 and lifetime 2
    that lies exactly 3 away from the player, along the player's angle,
    and clears the interact flag; a shot appends, after it, one marker of
    radius 6 and lifetime 1.5 at the player's position.  Nothing else is
    added to the markers and none is removed. *)
Theorem updatePlayer_markers (state : GameState.t) (input : InputState.t)
    (deltaTime : R) :
  let state' := fst (updatePlayer state input deltaTime) in
  let input' := snd (updatePlayer state input deltaTime) in
  let player' := GameState.player state' in
  exists thrown shotNoise,
    GameState.noiseMarkers state' =
      (GameState.noiseMarkers state ++ thrown) ++ shotNoise /\
    length thrown = (if InputState.interact input then 1 else 0)%nat /\
    length shotNoise = (if fires state input deltaTime then 1 else 0)%nat /\
    Forall (fun n =>
              distance (Player.pos player') (NoiseMarker.pos n) = 3 /\
              Vec2.x (NoiseMarker.pos n) =
                Vec2.x (Player.pos player') + cos (Player.angle player') * 3 /\
              Vec2.y (NoiseMarker.pos n) =
                Vec2.y (Player.pos player') + sin (Player.angle player') * 3 /\
              NoiseMarker.radius n = 2 /\ NoiseMarker.lifetime n = 2 /\
              NoiseMarker.maxLifetime n = 2) thrown /\
    Forall (fun n =>
              NoiseMarker.pos n = Player.pos player' /\
              NoiseMarker.radius n = 6 /\ NoiseMarker.lifetime n = 1.5 /\
              NoiseMarker.maxLifetime n = 1.5) shotNoise /\
    InputState.interact input' = false.
Proof.
  cbv zeta.
  destruct (updatePlayer_outcome state input deltaTime)
    as ((_ & _ & _ & Hangle & _) & _ & Hmarkers & Hinteract & _).
  cbv zeta in *. rewrite Hangle.
  eexists. eexists. split; [exact Hmarkers|].
  split; [now destruct (InputState.interact input)|].
  split; [now destruct (fires state input deltaTime)|].
  split; [|split; [|exact Hinteract]].
  - destruct (InputState.interact input); constructor; [|constructor].
    cbn [NoiseMarker.pos NoiseMarker.radius NoiseMarker.lifetime
         NoiseMarker.maxLifetime Vec2.x Vec2.y].
    repeat split.
    unfold distance, JSMath.sqrt. cbn [Vec2.x Vec2.y].
    pose proof (sin2_cos2 (Player.angle (GameState.player state))) as Hsc.
    unfold Rsqr in Hsc.
    match goal with |- sqrt ?a = 3 => replace a with (3 ^ 2) by nra end.
    apply sqrt_pow2. lra.
  - destruct (fires state input deltaTime); constructor; [|constructor].
    cbn. repeat split.
Qed.

(** ** The bullets' turn *)

Lemma Forall2_source {A B : Type} (R : A -> B -> Prop) (l : list A)
    (l' : list B) (y : B) :
  Forall2 R l l' -> In y l' -> exists x, In x l /\ R x y.
Proof.
  induction 1 as [|a b l l' Hab _ IH]; intros Hin; [destruct Hin|].
  destruct Hin as [<- | Hin].
  - exists a. split; [now left | exact Hab].
  - destruct (IH Hin) as (x & Hx & Hr). exists x. split; [now right | exact Hr].
Qed.

(** A kill drops one pickup, at the place of the enemy and with half its
    rounds plus two; nothing else is added to the pickups. *)
Lemma hitEnemies_drops (bullet : Bullet.t) (enemies : list Enemy.t)
    (ammoPickups : list AmmoPickup.t) :
  exists drops,
    snd (fst (hitEnemies bullet enemies ammoPickups)) = ammoPickups ++ drops /\
    Forall (fun d => exists e, In e enemies /\ Enemy.isDead e = false /\
                               d = dropOf e) drops.
Proof.
  induction enemies as [|enemy rest IH]; cbn [hitEnemies].
  - exists []. cbn. split; [now rewrite app_nil_r | constructor].
  - destruct (negb (Enemy.isDead enemy) && _) eqn:Hhit.
    + apply andb_true_iff in Hhit. destruct Hhit as [Hlive _].
      apply negb_true_iff in Hlive.
      cbn [Enemy.health Enemy.set_health].
      destruct (_ <=? 0)%Z; cbn [fst snd].
      * eexists. split; [reflexivity|]. constructor; [|constructor].
        exists enemy. split; [now left|]. split; [exact Hlive|].
        unfold dropOf. cbn. now rewrite Vec2_eta.
      * exists []. split; [now rewrite app_nil_r | constructor].
    + destruct IH as (drops & Hd & Hall).
      destruct (hitEnemies bullet rest ammoPickups) as [[rest' pickups'] hit].
      cbn [fst snd] in *. exists drops. split; [exact Hd|].
      eapply Forall_impl; [|exact Hall].
      intros d (e & Hin & Hl & He). exists e. split; [now right | auto].
Qed.

(** One bullet: what it does to the ledger and to the pickups, and
    whether it flies on. *)
Lemma stepBullet_trace (deltaTime : R) (bullet : Bullet.t) (state : GameState.t) :
  let kept := fst (stepBullet deltaTime bullet state) in
  let state' := snd (stepBullet deltaTime bullet state) in
  shotLedger state' = shotLedger state /\
  (exists drops,
     GameState.ammoPickups state' = GameState.ammoPickups state ++ drops /\
     Forall (fun d => exists e, In e (GameState.enemies state) /\
                                Enemy.isDead e = false /\ d = dropOf e) drops) /\
  (kept = None \/
   kept = Some (advance deltaTime bullet) /\
   0 < Bullet.lifetime bullet - deltaTime /\
   walkableAt (GameState.grid state)
     (Vec2.x (Bullet.pos (advance deltaTime bullet)))
     (Vec2.y (Bullet.pos (advance deltaTime bullet)))).
Proof.
  cbv zeta. unfold stepBullet. fold (advance deltaTime bullet).
  set (moved := advance deltaTime bullet).
  assert (Hnone : exists drops : list AmmoPickup.t,
            GameState.ammoPickups state = GameState.ammoPickups state ++ drops /\
            Forall (fun d => exists e, In e (GameState.enemies state) /\
                                       Enemy.isDead e = false /\ d = dropOf e) drops).
  { exists []. split; [now rewrite app_nil_r | constructor]. }
  rewrite isWalkable_tile.
  destruct (isWalkable _ _ _) eqn:Hwalk; cbn [negb fst snd]; [|auto].
  apply isWalkable_spec in Hwalk.
  destruct (Rleb (Bullet.lifetime moved) 0) eqn:Hlife; cbn [fst snd]; [auto|].
  apply Rleb_false in Hlife.
  assert (Hfly : 0 < Bullet.lifetime bullet - deltaTime /\
                 walkableAt (GameState.grid state)
                   (Vec2.x (Bullet.pos moved)) (Vec2.y (Bullet.pos moved))).
  { split; [|exact Hwalk]. cbn in Hlife. lra. }
  destruct (Bullet.isPlayerBullet moved).
  - destruct (hitEnemies_drops moved (GameState.enemies state)
                (GameState.ammoPickups state)) as (drops & Hd & Hall).
    destruct (hitEnemies _ _ _) as [[enemies' pickups'] hit].
    cbn [fst snd] in *. split; [reflexivity|]. split.
    + exists drops. split; [exact Hd | exact Hall].
    + destruct hit; auto.
  - destruct (Rltb _ 0.35); cbn [fst snd]; [|auto].
    destruct (_ <=? 0)%Z; cbn; auto.
Qed.

(** The whole loop over the bullets. *)
Lemma bulletsLoop_trace (deltaTime : R) (bullets : list Bullet.t)
    (state : GameState.t) :
  let bullets' := fst (bulletsLoop deltaTime bullets state) in
  let state' := snd (bulletsLoop deltaTime bullets state) in
  shotLedger state' = shotLedger state /\
  (exists drops,
     GameState.ammoPickups state' = GameState.ammoPickups state ++ drops /\
     Forall (fun d => exists e, In e (GameState.enemies state) /\
                                Enemy.isDead e = false /\ d = dropOf e) drops) /\
  survivors deltaTime bullets bullets' /\
  Forall (fun b => 0 < Bullet.lifetime b /\
                   walkableAt (GameState.grid state)
                     (Vec2.x (Bullet.pos b)) (Vec2.y (Bullet.pos b))) bullets'.
Proof.
  cbv zeta. induction bullets as [|bullet later IH]; cbn [bulletsLoop fst snd].
  - split; [reflexivity|]. split; [|split; constructor].
    exists []. split; [now rewrite app_nil_r | constructor].
  - pose proof (bulletsLoop_combat deltaTime later state) as Hcombat.
    destruct (bulletsLoop deltaTime later state) as [later' mid].
    cbn [fst snd] in IH. destruct IH as (L1 & (drops1 & D1 & A1) & S1 & F1).
    destruct Hcombat as ((Hframe & _) & Haged & _).
    pose proof (stepBullet_trace deltaTime bullet mid) as Hstep.
    destruct (stepBullet deltaTime bullet mid) as [kept state'].
    cbn [fst snd] in *. destruct Hstep as (L2 & (drops2 & D2 & A2) & K).
    assert (Hgrid : GameState.grid mid = GameState.grid state).
    { unfold worldFrame in Hframe. congruence. }
    split; [congruence|]. split.
    + exists (drops1 ++ drops2). split; [rewrite D2, D1; symmetry; apply app_assoc|].
      apply Forall_app. split; [exact A1|].
      eapply Forall_impl; [|exact A2].
      intros d (e & Hin & Hlive & ->).
      destruct (@Forall2_source _ _ _ _ _ e Haged Hin)
        as (e0 & Hin0 & Hmind & _ & Hdead).
      exists e0. split; [exact Hin0|]. split.
      * destruct (Enemy.isDead e0) eqn:Hd0; [|reflexivity].
        rewrite (Hdead eq_refl) in Hlive. congruence.
      * unfold dropOf, enemyMind in *. congruence.
    + destruct K as [-> | (-> & Hlife & Hwalk)].
      * split; [now constructor | exact F1].
      * split; [now constructor|]. constructor; [|exact F1].
        rewrite <- Hgrid. split; [exact Hlife | exact Hwalk].
Qed.

(** ** The enemies' turn *)

Lemma patrolBehavior_core (enemy enemy' : Enemy.t) (grid : Grid) (deltaTime : R) :
  patrolBehavior enemy grid deltaTime = Some enemy' ->
  enemyCore enemy' = enemyCore enemy /\
  Enemy.alertLevel enemy' = Enemy.alertLevel enemy.
Proof.
  unfold patrolBehavior.
  destruct (length (Enemy.waypoints enemy) =? 0)%nat; [intros [= <-]; auto|].
  destruct (nth_error _ _) as [target|]; [|discriminate].
  destruct (moveToward_core enemy target grid deltaTime) as (Hcore & _ & Ha).
  destruct (Rltb _ 0.5); intros [= <-]; cbn; auto.
Qed.

Lemma stateMachine_core (config : GameConfig.t) (grid : Grid) (deltaTime : R)
    (player : Player.t) (seen : bool) (distToPlayer : R)
    (enemy enemy' : Enemy.t) (shouldShoot : bool) :
  stateMachine config grid deltaTime player seen distToPlayer enemy =
    Some (enemy', shouldShoot) ->
  enemyCore enemy' = enemyCore enemy /\
  (Enemy.alertLevel enemy' = Enemy.alertLevel enemy \/
   Enemy.alertLevel enemy' = 30).
Proof.
  destruct (Enemy.state enemy) eqn:Hstate.
  - unfold stateMachine. rewrite Hstate.
    destruct (Rgeb (Enemy.alertLevel enemy) 100);
      [|destruct (Rgeb (Enemy.alertLevel enemy) 40)];
      try (intros [= <- <-]; cbn; now auto).
    destruct (patrolBehavior enemy grid deltaTime) as [moved|] eqn:Hrun;
      cbn [bind ret]; [|discriminate].
    intros [= <- <-]. destruct (patrolBehavior_core _ _ _ Hrun). auto.
  - unfold stateMachine. rewrite Hstate.
    cbn [Enemy.alertLevel Enemy.stateTimer Enemy.set_stateTimer].
    destruct (Rgeb (Enemy.alertLevel enemy) 100);
      [|destruct (Rleb _ 0 || Rltb _ 10)];
      try (intros [= <- <-]; cbn; now auto).
    intros [= <- <-].
    match goal with |- context [investigateBehavior ?e ?g ?d] =>
      destruct (investigateBehavior_core e g d) as (Hcore & _ & Ha) end.
    auto.
  - rewrite stateMachine_chase by exact Hstate. cbv zeta.
    intros [= <- <-]. destruct (Rleb _ 0); [cbn; now auto|].
    match goal with |- context [chaseBehavior ?e ?p ?g ?d] =>
      destruct (chaseBehavior_core e p g d) as (Hcore & _ & Ha) end.
    auto.
  - unfold stateMachine. rewrite Hstate.
    destruct (Rgeb (Enemy.alertLevel enemy) 60);
      [intros [= <- <-]; cbn; now auto|].
    destruct (returnBehavior_core enemy grid deltaTime) as (Hcore & _ & Ha).
    destruct (returnBehavior enemy grid deltaTime) as [moved returned].
    cbn [fst] in Hcore, Ha.
    destruct returned; intros [= <- <-]; cbn; auto.
Qed.

(** What [updateEnemy] keeps, whenever it returns. *)
Lemma updateEnemy_keeps (enemy enemy' : Enemy.t) (player : Player.t)
    (grid : Grid) (config : GameConfig.t) (deltaTime : R)
    (noiseMarkers : list NoiseMarker.t) (result : Result.t) :
  updateEnemy enemy player grid config deltaTime noiseMarkers =
    Some (enemy', result) ->
  (Enemy.isDead enemy = true -> enemy' = enemy) /\
  enemyBody enemy' = enemyBody enemy /\
  Enemy.ammo enemy' = Enemy.ammo enemy /\
  (Enemy.isDead enemy = false ->
   Enemy.alertLevel enemy' <= 100 /\
   Result.alertLevel result = Enemy.alertLevel enemy').
Proof.
  destruct (Enemy.isDead enemy) eqn:Hdead.
  { rewrite updateEnemy_dead by exact Hdead. intros [= <- <-].
    repeat split; auto; discriminate. }
  rewrite updateEnemy_live by exact Hdead. cbv zeta.
  set (cooled := Enemy.set_shootCooldown _ enemy).
  destruct (alertUpdate_frame config grid deltaTime noiseMarkers player cooled)
    as (Fid & _ & _ & _ & Fwp & _ & _ & _ & Fammo & Fmax & Fhealth & _ & Fdead).
  pose proof (alertUpdate_capped config grid deltaTime noiseMarkers player cooled)
    as Hcap.
  change (Enemy.id cooled) with (Enemy.id enemy) in Fid.
  change (Enemy.waypoints cooled) with (Enemy.waypoints enemy) in Fwp.
  change (Enemy.ammo cooled) with (Enemy.ammo enemy) in Fammo.
  change (Enemy.maxAmmo cooled) with (Enemy.maxAmmo enemy) in Fmax.
  change (Enemy.health cooled) with (Enemy.health enemy) in Fhealth.
  change (Enemy.isDead cooled) with (Enemy.isDead enemy) in Fdead.
  set (alerted := alertUpdate _ _ _ _ _ cooled) in *. clearbody alerted.
  destruct (stateMachine _ _ _ _ _ _ alerted) as [[moved shouldShoot]|] eqn:Hrun;
    cbn [bind ret]; [|discriminate].
  intros [= <- <-].
  destruct (stateMachine_core _ _ _ _ _ _ _ Hrun) as (Hcore & Halert).
  unfold enemyCore in Hcore. injection Hcore as C1 C2 C3 C4 C5 C6 _.
  split; [discriminate|].
  split; [unfold enemyBody; congruence|].
  split; [congruence|].
  intros _. split; [|reflexivity].
  destruct Halert as [-> | ->]; lra.
Qed.

Lemma volley_app (next : Z) (first later : list Bullet.t) :
  volley next first ->
  volley (next + Z.of_nat (length first)) later ->
  volley next (first ++ later).
Proof.
  revert next. induction first as [|b first IH]; intros next Hf Hl.
  - cbn in Hl. now rewrite Z.add_0_r in Hl.
  - cbn [volley app length] in *. destruct Hf as (H1 & H2 & H3 & H4).
    repeat split; auto. apply IH; [exact H4|].
    replace (next + 1 + Z.of_nat (length first))%Z
      with (next + Z.of_nat (S (length first)))%Z by lia.
    exact Hl.
Qed.

(** The orchestrator's part of an enemy's turn: the shot and the catch. *)
Lemma afterEnemy_trace (state : GameState.t) (enemy : Enemy.t)
    (result : Result.t) :
  let state' := fst (afterEnemy state enemy result) in
  let enemy' := snd (afterEnemy state enemy result) in
  (exists shots noises,
     GameState.bullets state' = GameState.bullets state ++ shots /\
     GameState.noiseMarkers state' = GameState.noiseMarkers state ++ noises /\
     GameState.nextBulletId state' =
       (GameState.nextBulletId state + Z.of_nat (length shots))%Z /\
     volley (GameState.nextBulletId state) shots /\
     Forall (fun n => NoiseMarker.lifetime n = 1) noises) /\
  GameState.detectionLevel state' = GameState.detectionLevel state /\
  GameState.enemies state' = GameState.enemies state /\
  Enemy.pos enemy' = Enemy.pos enemy /\
  Enemy.state enemy' = Enemy.state enemy /\
  Enemy.speed enemy' = Enemy.speed enemy /\
  (Enemy.ammo enemy' = Enemy.ammo enemy \/
   (0 < Enemy.ammo enemy)%Z /\ Enemy.ammo enemy' = (Enemy.ammo enemy - 1)%Z).
Proof.
  cbv zeta. unfold afterEnemy.
  assert (Hquiet : exists (shots : list Bullet.t) (noises : list NoiseMarker.t),
            GameState.bullets state = GameState.bullets state ++ shots /\
            GameState.noiseMarkers state = GameState.noiseMarkers state ++ noises /\
            GameState.nextBulletId state =
              (GameState.nextBulletId state + Z.of_nat (length shots))%Z /\
            volley (GameState.nextBulletId state) shots /\
            Forall (fun n => NoiseMarker.lifetime n = 1) noises).
  { exists [], []. rewrite !app_nil_r. cbn. repeat split; auto; lia. }
  destruct (Result.shouldShoot result && (Enemy.ammo enemy >? 0)%Z &&
            Rleb (Enemy.shootCooldown enemy) 0) eqn:Hshoot.
  - apply andb_true_iff in Hshoot. destruct Hshoot as [Hshoot _].
    apply andb_true_iff in Hshoot. destruct Hshoot as [_ Hammo].
    apply Z.gtb_lt in Hammo.
    unfold enemyShoot.
    cbn [Enemy.pos Enemy.set_ammo Enemy.set_shootCooldown Enemy.alertLevel
         GameState.player GameState.set_noiseMarkers GameState.set_bullets
         GameState.set_nextBulletId].
    destruct (Rltb _ 0.8 && Rgeb _ 100); [destruct (_ <=? 0)%Z|];
      cbn; (split; [|repeat split; auto]);
      eexists; eexists; (split; [reflexivity|]); (split; [reflexivity|]);
      cbn; repeat split; auto.
  - destruct (Rltb _ 0.8 && Rgeb _ 100); [destruct (_ <=? 0)%Z|];
      cbn; (split; [exact Hquiet|]); repeat split; auto.
Qed.

Lemma highestAlert_live (floor : R) (enemy : Enemy.t) (rest : list Enemy.t) :
  Enemy.isDead enemy = false ->
  highestAlert floor (enemy :: rest) =
  highestAlert (JSMath.max floor (Enemy.alertLevel enemy)) rest.
Proof. intros H. unfold highestAlert. cbn. now rewrite H. Qed.

Lemma highestAlert_dead (floor : R) (enemy : Enemy.t) (rest : list Enemy.t) :
  Enemy.isDead enemy = true ->
  highestAlert floor (enemy :: rest) = highestAlert floor rest.
Proof. intros H. unfold highestAlert. cbn. now rewrite H. Qed.

(** The whole loop over the enemies, whenever it returns. *)
Lemma enemiesLoop_trace (deltaTime : R) (enemies : list Enemy.t) :
  forall (state : GameState.t) (maxDetection : R)
         (enemies' : list Enemy.t) (state' : GameState.t) (maxDetection' : R),
    enemiesLoop deltaTime enemies state maxDetection =
      Some (enemies', state', maxDetection') ->
    (exists shots noises,
       GameState.bullets state' = GameState.bullets state ++ shots /\
       GameState.noiseMarkers state' = GameState.noiseMarkers state ++ noises /\
       GameState.nextBulletId state' =
         (GameState.nextBulletId state + Z.of_nat (length shots))%Z /\
       volley (GameState.nextBulletId state) shots /\
       Forall (fun n => NoiseMarker.lifetime n = 1) noises) /\
    combatStep state state' /\
    GameState.ammoPickups state' = GameState.ammoPickups state /\
    GameState.detectionLevel state' = GameState.detectionLevel state /\
    GameState.enemies state' = GameState.enemies state /\
    Forall2 (enemyTurn (GameState.grid state) deltaTime) enemies enemies' /\
    maxDetection' = highestAlert maxDetection enemies'.
Proof.
  induction enemies as [|enemy rest IH];
    intros state maxDetection enemies' state' maxDetection'; cbn [enemiesLoop].
  - intros [= <- <- <-]. split.
    { exists [], []. rewrite !app_nil_r. cbn. repeat split; auto; lia. }
    split; [apply combatStep_refl|]. repeat split; auto.
  - destruct (Enemy.isDead enemy) eqn:Hdead.
    + destruct (enemiesLoop deltaTime rest state maxDetection)
        as [[[rest' state1] m1]|] eqn:Hloop; cbn [bind ret]; [|discriminate].
      intros [= <- <- <-].
      destruct (IH _ _ _ _ _ Hloop) as (T & C & P & D & E & F & M).
      split; [exact T|]. split; [exact C|]. split; [exact P|].
      split; [exact D|]. split; [exact E|]. split.
      * constructor; [|exact F]. unfold enemyTurn.
        split; [reflexivity|]. split; [reflexivity|].
        split; [now destruct (Enemy.state enemy)|].
        split; [now left|]. split; [now left | congruence].
      * now rewrite highestAlert_dead.
    + destruct (updateEnemy enemy _ _ _ _ _) as [[thought result]|] eqn:Hrun;
        cbn [bind ret]; [|discriminate].
      destruct (updateEnemy_step _ _ _ _ _ _ Hrun) as (Ht & Hs & _).
      destruct (updateEnemy_keeps _ _ _ _ _ _ Hrun) as (_ & Hb & Ha & Hl).
      destruct (Hl Hdead) as (Hcap & Hres).
      pose proof (afterEnemy_combat state thought result) as Hcombat.
      pose proof (afterEnemy_trace state thought result) as Htrace.
      destruct (afterEnemy state thought result) as [state1 enemy1].
      cbn [fst snd] in Htrace.
      destruct Hcombat as (C1 & P1 & B1 & _ & A1).
      destruct Htrace as ((shots1 & noises1 & S1 & N1 & X1 & V1 & L1) &
                          D1 & E1 & Hpos & Hst & Hsp & Hammo).
      destruct (enemiesLoop deltaTime rest state1 _)
        as [[[rest' state2] m2]|] eqn:Hloop; cbn [bind ret]; [|discriminate].
      intros [= <- <- <-].
      destruct (IH _ _ _ _ _ Hloop)
        as ((shots2 & noises2 & S2 & N2 & X2 & V2 & L2) & C2 & P2 & D2 & E2 & F & M).
      assert (Hgrid : GameState.grid state1 = GameState.grid state).
      { destruct C1 as (Hframe & _). unfold worldFrame in Hframe. congruence. }
      split.
      { exists (shots1 ++ shots2), (noises1 ++ noises2).
        rewrite S2, S1, N2, N1, X2, X1, <- !app_assoc, length_app.
        split; [reflexivity|]. split; [reflexivity|]. split; [lia|].
        split; [apply volley_app; [exact V1 | now rewrite <- X1]|].
        apply Forall_app. auto. }
      split; [exact (combatStep_trans C1 C2)|].
      split; [congruence|]. split; [congruence|]. split; [congruence|].
      assert (Hdead1 : Enemy.isDead enemy1 = false).
      { unfold enemyBody in *. congruence. }
      split.
      * constructor; [|now rewrite <- Hgrid].
        unfold enemyTurn. split; [congruence|].
        split; [congruence|]. split; [congruence|].
        split; [unfold steppedFrom in *; now rewrite Hpos|].
        split; [rewrite <- Ha; exact Hammo|].
        intros _. now rewrite A1.
      * rewrite highestAlert_live by exact Hdead1.
        rewrite A1, <- Hres. exact M.
Qed.

(** ** Pickups *)

Lemma collectPickups_trace (ammoPickups : list AmmoPickup.t) :
  forall player : Player.t,
    let pickups' := fst (collectPickups ammoPickups player) in
    let player' := snd (collectPickups ammoPickups player) in
    playerUnarmed player' = playerUnarmed player /\
    Forall2 (fun a a' =>
               AmmoPickup.pos a' = AmmoPickup.pos a /\
               AmmoPickup.amount a' = AmmoPickup.amount a /\
               AmmoPickup.collected a' =
                 AmmoPickup.collected a || inReach player a)
      ammoPickups pickups' /\
    ((Player.ammo player <= Player.maxAmmo player)%Z ->
     Forall (fun a => (0 <= AmmoPickup.amount a)%Z) ammoPickups ->
     Player.ammo player' =
       Z.min (Player.ammo player + gain player ammoPickups)
             (Player.maxAmmo player)).
Proof.
  cbv zeta. induction ammoPickups as [|pickup rest IH]; intros player;
    cbn [collectPickups fst snd].
  - split; [reflexivity|]. split; [constructor|].
    intros Hle _. unfold gain. cbn. lia.
  - fold (inReach player pickup). unfold gain. cbn [filter].
    destruct (inReach player pickup) eqn:Hreach.
    + set (armed := Player.set_ammo _ player).
      specialize (IH armed).
      destruct (collectPickups rest armed) as [rest' player'].
      cbn [fst snd] in *. destruct IH as (Hu & Hall & Hammo).
      assert (Hsame : forall a, inReach armed a = inReach player a) by reflexivity.
      split; [rewrite Hu; reflexivity|]. split.
      * constructor.
        { rewrite Hreach, orb_true_r. cbn. auto. }
        { eapply Forall2_impl; [|exact Hall]. intros a a' H. exact H. }
      * intros Hle Hpos. inversion Hpos as [|? ? Hp Hrest]; subst.
        assert (Hgain : (0 <= gain armed rest)%Z).
        { clear - Hrest. unfold gain.
          induction Hrest as [|a l Ha _ IH]; cbn; [lia|].
          destruct (inReach armed a); cbn; lia. }
        rewrite Hammo; [|cbn; lia | exact Hrest].
        change (gain armed rest) with (gain player rest) in *.
        cbn [map fold_right]. fold (gain player rest).
        subst armed.
        cbn [Player.ammo Player.maxAmmo Player.set_ammo AmmoPickup.amount] in *.
        lia.
    + specialize (IH player).
      destruct (collectPickups rest player) as [rest' player'].
      cbn [fst snd] in *. destruct IH as (Hu & Hall & Hammo).
      split; [exact Hu|]. split.
      * constructor; [|exact Hall]. rewrite Hreach, orb_false_r. auto.
      * intros Hle Hpos. inversion Hpos; subst. fold (gain player rest). auto.
Qed.

(** X15: the pickup loop at the end of a tick.  It marks as collected
    exactly the pickups that were not yet collected and lie closer than
    0.7 to the player, keeps their order, places and amounts, and changes
    nothing of the player but the rounds carried.  For a player who
    carries no more than the maximum, and pickups with non-negative
    amounts, the rounds become the old ones plus the rounds picked up,
    capped at the maximum: never fewer than before, never above the
    maximum. *)
Theorem collectPickups_spec (ammoPickups : list AmmoPickup.t)
    (player : Player.t) :
  let pickups' := fst (collectPickups ammoPickups player) in
  let player' := snd (collectPickups ammoPickups player) in
  playerUnarmed player' = playerUnarmed player /\
  Forall2 (fun a a' =>
             AmmoPickup.pos a' = AmmoPickup.pos a /\
             AmmoPickup.amount a' = AmmoPickup.amount a /\
             AmmoPickup.collected a' =
               AmmoPickup.collected a || inReach player a)
    ammoPickups pickups' /\
  ((Player.ammo player <= Player.maxAmmo player)%Z ->
   Forall (fun a => (0 <= AmmoPickup.amount a)%Z) ammoPickups ->
   Player.ammo player' =
     Z.min (Player.ammo player + gain player ammoPickups)
           (Player.maxAmmo player) /\
   (Player.ammo player <= Player.ammo player' <= Player.maxAmmo player)%Z).
Proof.
  cbv zeta.
  destruct (collectPickups_trace ammoPickups player) as (Hu & Hall & Hammo).
  split; [exact Hu|]. split; [exact Hall|].
  intros Hle Hpos. specialize (Hammo Hle Hpos). split; [exact Hammo|].
  assert (Hgain : (0 <= gain player ammoPickups)%Z).
  { clear - Hpos. unfold gain.
    induction Hpos as [|a l Ha _ IH]; cbn; [lia|].
    destruct (inReach player a); cbn; lia. }
  lia.
Qed.

Lemma collectPickups_spec_witness :
  let player := freshPlayer (Vec2.mk 1.5 1.5) in
  let pickups := [dropAt (Vec2.mk 1.5 1.5); dropAt (Vec2.mk 6.5 1.5)] in
  (Player.ammo player <=
   Player.ammo (snd (collectPickups pickups player)) <=
   Player.maxAmmo player)%Z.
Proof.
  cbv zeta.
  refine (proj2 (proj2 (proj2 (collectPickups_spec
            [dropAt (Vec2.mk 1.5 1.5); dropAt (Vec2.mk 6.5 1.5)]
            (freshPlayer (Vec2.mk 1.5 1.5)))) _ _)).
  - vm_compute. discriminate.
  - repeat constructor; vm_compute; discriminate.
Defined.

(** ** A whole tick *)

(** The phases of a tick that is not skipped. *)
Lemma updateGame_phases (state state' : GameState.t) (input input' : InputState.t)
    (deltaTime : R) :
  skipped state = false ->
  updateGame state input deltaTime = Some (state', input') ->
  let shot := afterBullets state input deltaTime in
  exists enemies' fought maxDetection,
    enemiesLoop deltaTime (GameState.enemies shot) shot 0 =
      Some (enemies', fought, maxDetection) /\
    input' = snd (updatePlayer state input deltaTime) /\
    GameState.enemies state' = enemies' /\
    GameState.detectionLevel state' = maxDetection /\
    GameState.bullets state' = GameState.bullets fought /\
    GameState.noiseMarkers state' = GameState.noiseMarkers fought /\
    GameState.nextBulletId state' = GameState.nextBulletId fought /\
    GameState.isGameOver state' = GameState.isGameOver fought /\
    GameState.grid state' = GameState.grid fought /\
    GameState.player state' =
      snd (collectPickups (GameState.ammoPickups fought)
             (GameState.player fought)) /\
    GameState.ammoPickups state' =
      fst (collectPickups (GameState.ammoPickups fought)
             (GameState.player fought)).
Proof.
  intros Hrun. unfold updateGame, afterBullets.
  unfold skipped in Hrun. rewrite Hrun.
  destruct (updatePlayer state input deltaTime) as [s1 input1]. cbn [snd].
  set (s3 := updateBullets _ deltaTime).
  destruct (enemiesLoop deltaTime (GameState.enemies s3) s3 0)
    as [[[enemies' s4] m]|]; cbn [bind ret]; [|discriminate].
  set (s5 := GameState.set_detectionLevel m (GameState.set_enemies enemies' s4)).
  set (s6 := if winCondition s5 then GameState.set_isWin true s5 else s5).
  assert (H6 : GameState.player s6 = GameState.player s4 /\
               GameState.ammoPickups s6 = GameState.ammoPickups s4 /\
               GameState.enemies s6 = enemies' /\
               GameState.detectionLevel s6 = m /\
               GameState.bullets s6 = GameState.bullets s4 /\
               GameState.noiseMarkers s6 = GameState.noiseMarkers s4 /\
               GameState.nextBulletId s6 = GameState.nextBulletId s4 /\
               GameState.isGameOver s6 = GameState.isGameOver s4 /\
               GameState.grid s6 = GameState.grid s4).
  { unfold s6. destruct (winCondition s5); repeat split. }
  clearbody s6. destruct H6 as (-> & -> & E & D & B & N & X & G & Gr).
  destruct (collectPickups _ _) as [pickups' player'] eqn:Ecollect.
  intros [= <- <-]. exists enemies', s4, m. rewrite Ecollect. cbn.
  repeat split; auto.
Qed.

(** The trace of a tick that is not skipped: what became of the enemies,
    the bullets, the noise markers, the pickups and the player. *)
Lemma updateGame_trace (state state' : GameState.t) (input input' : InputState.t)
    (deltaTime : R) :
  skipped state = false ->
  updateGame state input deltaTime = Some (state', input') ->
  let moved := fst (updatePlayer state input deltaTime) in
  exists mid kept drops shots noises armed,
    Forall2 enemyAged (GameState.enemies state) mid /\
    Forall2 (enemyTurn (GameState.grid state) deltaTime) mid
      (GameState.enemies state') /\
    survivors deltaTime (GameState.bullets moved) kept /\
    Forall (fun b => 0 < Bullet.lifetime b /\
                     walkableAt (GameState.grid state)
                       (Vec2.x (Bullet.pos b)) (Vec2.y (Bullet.pos b))) kept /\
    volley (GameState.nextBulletId moved) shots /\
    GameState.bullets state' = kept ++ shots /\
    GameState.nextBulletId state' =
      (GameState.nextBulletId moved + Z.of_nat (length shots))%Z /\
    GameState.noiseMarkers state' =
      decayNoise deltaTime (GameState.noiseMarkers moved) ++ noises /\
    Forall (fun n => NoiseMarker.lifetime n = 1) noises /\
    Forall (fun d => exists e, In e (GameState.enemies state) /\
                               Enemy.isDead e = false /\ d = dropOf e) drops /\
    playerRest armed = playerRest (GameState.player moved) /\
    (Player.health armed <= Player.health (GameState.player state))%Z /\
    GameState.player state' =
      snd (collectPickups (GameState.ammoPickups state ++ drops) armed) /\
    GameState.ammoPickups state' =
      fst (collectPickups (GameState.ammoPickups state ++ drops) armed) /\
    GameState.detectionLevel state' = highestAlert 0 (GameState.enemies state') /\
    GameState.grid state' = GameState.grid state /\
    input' = snd (updatePlayer state input deltaTime).
Proof.
  intros Hskip Hrun. cbv zeta.
  destruct (@updateGame_phases _ _ _ _ _ Hskip Hrun)
    as (enemies' & s4 & m & Hloop & Hinput & E & D & B & N & X & _ & Gr & P & A).
  unfold afterBullets in Hloop.
  pose proof (updatePlayer_frame state input deltaTime) as Hframe.
  destruct (updatePlayer state input deltaTime) as [s1 input1]. cbn [fst snd] in *.
  destruct Hframe as (E1 & F1 & _ & _ & P1 & H1 & _).
  set (s2 := GameState.set_noiseMarkers _ s1) in *.
  unfold updateBullets in Hloop.
  pose proof (bulletsLoop_combat deltaTime (GameState.bullets s2) s2) as Hcombat.
  pose proof (bulletsLoop_trace deltaTime (GameState.bullets s2) s2) as Htrace.
  destruct (bulletsLoop deltaTime (GameState.bullets s2) s2) as [kept sB].
  cbn [fst snd] in Htrace.
  destruct Hcombat as (CB & AB & _).
  destruct Htrace as (LB & (drops & DB & HB) & SB & FB).
  set (s3 := GameState.set_bullets kept sB) in *.
  destruct (@enemiesLoop_trace _ _ _ _ _ _ _ Hloop)
    as ((shots & noises & S4 & N4 & X4 & V4 & L4) & C4 & P4 & _ & _ & T4 & M4).
  unfold shotLedger in LB. injection LB as LB1 LB2 _ _.
  change (GameState.enemies s2) with (GameState.enemies s1) in AB, HB.
  change (GameState.ammoPickups s2) with (GameState.ammoPickups s1) in DB.
  change (GameState.grid s2) with (GameState.grid s1) in FB.
  change (GameState.nextBulletId s2) with (GameState.nextBulletId s1) in LB1.
  change (GameState.noiseMarkers s2)
    with (decayNoise deltaTime (GameState.noiseMarkers s1)) in LB2.
  change (GameState.bullets s2) with (GameState.bullets s1) in SB.
  change (GameState.enemies s3) with (GameState.enemies sB) in T4.
  change (GameState.grid s3) with (GameState.grid sB) in T4.
  change (GameState.bullets s3) with kept in S4.
  change (GameState.noiseMarkers s3) with (GameState.noiseMarkers sB) in N4.
  change (GameState.nextBulletId s3) with (GameState.nextBulletId sB) in X4, V4.
  change (GameState.ammoPickups s3) with (GameState.ammoPickups sB) in P4.
  assert (G1 : GameState.grid s1 = GameState.grid state).
  { unfold worldFrame in F1. congruence. }
  assert (GB : GameState.grid sB = GameState.grid state).
  { destruct CB as (F & _). unfold worldFrame in F.
    change (GameState.grid s2) with (GameState.grid s1) in F. congruence. }
  assert (G4 : GameState.grid s4 = GameState.grid state).
  { destruct C4 as (F & _). unfold worldFrame in F.
    change (GameState.grid s3) with (GameState.grid sB) in F. congruence. }
  destruct CB as (_ & _ & RB & HhB & _).
  destruct C4 as (_ & _ & R4 & Hh4 & _).
  change (GameState.player s2) with (GameState.player s1) in RB, HhB.
  change (GameState.player s3) with (GameState.player sB) in R4, Hh4.
  exists (GameState.enemies sB), kept, drops, shots, noises, (GameState.player s4).
  rewrite E1, GB in *. rewrite G1 in FB. rewrite LB1 in *.
  split; [exact AB|]. split; [rewrite E; exact T4|].
  split; [exact SB|]. split; [exact FB|]. split; [exact V4|].
  split; [congruence|]. split; [congruence|]. split; [congruence|].
  split; [exact L4|]. split; [exact HB|].
  split; [congruence|]. split; [lia|].
  split; [rewrite P, P4, DB, P1; reflexivity|].
  split; [rewrite A, P4, DB, P1; reflexivity|].
  split; [rewrite D, E; exact M4|].
  split; [congruence | exact Hinput].
Qed.

Lemma startState_ready : Forall patrolReady (GameState.enemies startState).
Proof. constructor; [exact guard_patrolReady | constructor]. Qed.

Lemma survivors_ids (deltaTime : R) (bullets bullets' : list Bullet.t) :
  survivors deltaTime bullets bullets' ->
  (forall i, In i (map Bullet.id bullets') -> In i (map Bullet.id bullets)) /\
  (NoDup (map Bullet.id bullets) -> NoDup (map Bullet.id bullets')).
Proof.
  induction 1 as [|b bs bs' _ [IHin IHdup]|b bs bs' _ [IHin IHdup]]; cbn [map].
  - split; auto.
  - split; [intros i Hi; right; auto|].
    intros Hd. inversion Hd; subst. auto.
  - split; [intros i [<- | Hi]; [now left | right; auto]|].
    intros Hd. inversion Hd as [|? ? Hnot Hrest]; subst.
    constructor; [|auto]. cbn [advance Bullet.id]. intros Hin. apply Hnot; auto.
Qed.

Lemma volley_ids (next : Z) (shots : list Bullet.t) :
  volley next shots ->
  NoDup (map Bullet.id shots) /\
  Forall (fun b => (next <= Bullet.id b < next + Z.of_nat (length shots))%Z /\
                   Bullet.lifetime b = COMBAT_CONFIG.bulletLifetime) shots.
Proof.
  revert next. induction shots as [|b shots IH]; intros next Hv; cbn [map].
  - split; constructor.
  - destruct Hv as (Hid & _ & Hlife & Hrest).
    destruct (IH _ Hrest) as (Hdup & Hall). split.
    + constructor; [|exact Hdup]. intros Hin. apply in_map_iff in Hin.
      destruct Hin as (b' & Heq & Hin'). rewrite Forall_forall in Hall.
      destruct (Hall b' Hin') as [Hr _]. lia.
    + constructor; [cbn [length]; split; [lia | exact Hlife]|].
      eapply Forall_impl; [|exact Hall]. cbn [length].
      intros b' [Hr Hl]. split; [lia | exact Hl].
Qed.

(** A tick keeps the rounds within their bounds, leaves the player's
    maximum alone and costs the player at most one round. *)
Lemma updateGame_arms (state state' : GameState.t)
    (input input' : InputState.t) (deltaTime : R) :
  armsOk state ->
  updateGame state input deltaTime = Some (state', input') ->
  armsOk state' /\
  Player.maxAmmo (GameState.player state') =
    Player.maxAmmo (GameState.player state) /\
  (Player.ammo (GameState.player state) - 1 <=
   Player.ammo (GameState.player state'))%Z.
Proof.
  intros Harms Hrun. destruct (skipped state) eqn:Hskip.
  { rewrite updateGame_skipped in Hrun by exact Hskip.
    injection Hrun as <- _. split; [exact Harms|]. split; [reflexivity | lia]. }
  destruct (@updateGame_trace _ _ _ _ _ Hskip Hrun)
    as (mid & kept & drops & shots & noises & armed & Haged & Hturn & _ & _ & _ &
        _ & _ & _ & _ & Hdrops & Hrest & _ & Hplayer & Hpickups & _).
  destruct Harms as ((Hlo & Hhi) & Henemies & Hamounts).
  destruct (updatePlayer_outcome state input deltaTime)
    as ((_ & _ & _ & _ & Hmax) & _ & _ & _ & _ & Hammo & _).
  cbv zeta in *.
  set (moved := GameState.player (fst (updatePlayer state input deltaTime))) in *.
  assert (Hfire : (Player.ammo (GameState.player state) - 1 <= Player.ammo moved
                   <= Player.ammo (GameState.player state))%Z /\
                  (0 <= Player.ammo moved)%Z).
  { rewrite Hammo. unfold fires.
    destruct (InputState.shoot input); cbn [andb]; [|lia].
    destruct (Z.ltb_spec 0 (Player.ammo (GameState.player state)));
      cbn [andb]; [|lia].
    destruct (Rleb _ deltaTime); lia. }
  clearbody moved.
  assert (Harmed : Player.ammo armed = Player.ammo moved /\
                   Player.maxAmmo armed = Player.maxAmmo moved).
  { unfold playerRest in Hrest. split; congruence. }
  destruct Harmed as [Ha Hm].
  assert (Hall : Forall (fun a => (0 <= AmmoPickup.amount a)%Z)
                   (GameState.ammoPickups state ++ drops)).
  { apply Forall_app. split; [exact Hamounts|].
    eapply Forall_impl; [|exact Hdrops].
    intros d (e & Hin & _ & ->). rewrite Forall_forall in Henemies.
    specialize (Henemies e Hin). unfold dropOf. cbn [AmmoPickup.amount].
    assert (0 <= Enemy.ammo e / 2)%Z by (apply Z.div_pos; lia). lia. }
  destruct (collectPickups_trace (GameState.ammoPickups state ++ drops) armed)
    as (Hun & Hpicked & Hgain).
  rewrite <- Hplayer, <- Hpickups in *.
  assert (Hcount : Player.ammo (GameState.player state') =
                   Z.min (Player.ammo armed +
                          gain armed (GameState.ammoPickups state ++ drops))
                         (Player.maxAmmo armed)).
  { apply Hgain; [lia | exact Hall]. }
  assert (Hpos : (0 <= gain armed (GameState.ammoPickups state ++ drops))%Z).
  { clear - Hall. unfold gain.
    induction Hall as [|a l Ha _ IH]; cbn; [lia|].
    destruct (inReach armed a); cbn; lia. }
  assert (Hmax' : Player.maxAmmo (GameState.player state') = Player.maxAmmo armed).
  { unfold playerUnarmed in Hun. congruence. }
  split; [|split; [congruence | lia]].
  split; [lia|]. split.
  - assert (Hmid : Forall (fun e => (0 <= Enemy.ammo e)%Z) mid).
    { clear - Haged Henemies.
      induction Haged as [|e e' l l' (Hmind & _) _ IH]; [constructor|].
      inversion Henemies; subst. constructor; [|auto].
      unfold enemyMind in Hmind. congruence. }
    clear - Hturn Hmid.
    induction Hturn as [|e e' l l' (_ & _ & _ & _ & Hammo & _) _ IH];
      [constructor|].
    inversion Hmid; subst. constructor; [|auto]. lia.
  - clear - Hpicked Hall.
    induction Hpicked as [|a a' l l' (_ & Hamount & _) _ IH]; [constructor|].
    inversion Hall; subst. constructor; [lia | auto].
Qed.


Lemma survivors_alive (deltaTime : R) (bullets bullets' : list Bullet.t)
    (next : Z) :
  survivors deltaTime bullets bullets' ->
  Forall (fun b => (Bullet.id b < next)%Z) bullets ->
  Forall (fun b => (Bullet.id b < next)%Z) bullets'.
Proof.
  induction 1 as [|b bs bs' _ IH|b bs bs' _ IH]; intros Hall;
    [constructor| |]; inversion Hall; subst; auto.
Qed.

(** A tick keeps the bullet ids distinct and below the counter, which
    never goes back. *)
Lemma updateGame_bullets (state state' : GameState.t)
    (input input' : InputState.t) (deltaTime : R) :
  bulletsOk state ->
  updateGame state input deltaTime = Some (state', input') ->
  bulletsOk state' /\
  (GameState.nextBulletId state <= GameState.nextBulletId state')%Z.
Proof.
  intros Hok Hrun. destruct (skipped state) eqn:Hskip.
  { rewrite updateGame_skipped in Hrun by exact Hskip.
    injection Hrun as <- _. split; [exact Hok | lia]. }
  destruct (@updateGame_trace _ _ _ _ _ Hskip Hrun)
    as (mid & kept & drops & shots & noises & armed & _ & _ & Hkept & Hfly &
        Hvolley & Hbullets & Hnext & _).
  destruct (updatePlayer_outcome state input deltaTime)
    as (_ & _ & _ & _ & Hfired & _ & _ & Hcount & _).
  cbv zeta in *.
  set (moved := fst (updatePlayer state input deltaTime)) in *. clearbody moved.
  destruct Hok as (Hdup & Hall).
  assert (Hbelow : Forall (fun b => (Bullet.id b < GameState.nextBulletId state)%Z)
                     (GameState.bullets state)).
  { eapply Forall_impl; [|exact Hall]. now intros b [H _]. }
  assert (Hmoved : NoDup (map Bullet.id (GameState.bullets moved)) /\
                   Forall (fun b => (Bullet.id b < GameState.nextBulletId moved)%Z)
                     (GameState.bullets moved) /\
                   (GameState.nextBulletId state <=
                    GameState.nextBulletId moved)%Z).
  { rewrite Hfired, Hcount. destruct (fires state input deltaTime).
    - rewrite map_app. cbn [map Bullet.id]. split; [|split; [|lia]].
      + apply NoDup_app; [exact Hdup | repeat constructor; intros [] |].
        intros i Hin [<- | []]. apply in_map_iff in Hin.
        destruct Hin as (b & Hid & Hin). rewrite Forall_forall in Hbelow.
        specialize (Hbelow b Hin). lia.
      + apply Forall_app. split.
        * eapply Forall_impl; [|exact Hbelow]. cbv beta. intros b H. lia.
        * repeat constructor. cbn [Bullet.id]. lia.
    - rewrite app_nil_r. split; [exact Hdup|]. split; [exact Hbelow | lia]. }
  destruct Hmoved as (Hdup1 & Hbelow1 & Hle1).
  destruct (survivors_ids Hkept) as (Hsub & Hkeepdup).
  pose proof (survivors_alive Hkept Hbelow1) as Hbelow2.
  destruct (volley_ids _ _ Hvolley) as (Hdup3 & Hall3).
  split; [|lia]. unfold bulletsOk. rewrite Hbullets, Hnext. split.
  - rewrite map_app. apply NoDup_app; [auto | exact Hdup3 |].
    intros i Hin Hin3. apply in_map_iff in Hin. destruct Hin as (b & Hid & Hin).
    apply in_map_iff in Hin3. destruct Hin3 as (b3 & Hid3 & Hin3).
    rewrite Forall_forall in Hbelow2, Hall3.
    specialize (Hbelow2 b Hin). destruct (Hall3 b3 Hin3) as [Hr _]. lia.
  - apply Forall_app. split.
    + rewrite Forall_forall in *. intros b Hin.
      specialize (Hbelow2 b Hin). destruct (Hfly b Hin) as [Hlife _].
      split; [lia | exact Hlife].
    + eapply Forall_impl; [|exact Hall3]. cbv beta.
      intros b [Hr ->]. unfold COMBAT_CONFIG.bulletLifetime. split; [lia | lra].
Qed.


(** X18: what a tick can do to an enemy.  After any call of [updateGame]
    the enemies are the same ones in the same order; each keeps its id,
    its waypoints and its maximum of rounds, neither its health nor its
    rounds go up, its state moves along the arrows of the state machine,
    and an enemy that was dead is left exactly as it was. *)
Theorem tick_enemies (state state' : GameState.t)
    (input input' : InputState.t) (deltaTime : R) :
  updateGame state input deltaTime = Some (state', input') ->
  Forall2 (fun e e' =>
             Enemy.id e' = Enemy.id e /\
             Enemy.waypoints e' = Enemy.waypoints e /\
             Enemy.maxAmmo e' = Enemy.maxAmmo e /\
             (Enemy.health e' <= Enemy.health e)%Z /\
             (Enemy.ammo e' <= Enemy.ammo e)%Z /\
             transition (Enemy.state e) (Enemy.state e') /\
             (Enemy.isDead e = true -> e' = e))
    (GameState.enemies state) (GameState.enemies state').
Proof.
  intros Hrun. destruct (skipped state) eqn:Hskip.
  { rewrite updateGame_skipped in Hrun by exact Hskip.
    injection Hrun as <- _. apply Forall2_refl. intros e.
    repeat split; try lia. now destruct (Enemy.state e). }
  destruct (@updateGame_trace _ _ _ _ _ Hskip Hrun)
    as (mid & kept & drops & shots & noises & armed & Haged & Hturn & _).
  apply (@Forall2_compose _ enemyAged
           (enemyTurn (GameState.grid state) deltaTime) _ _ mid);
    [|exact Haged | exact Hturn].
  intros a b c (Hmind & Hhealth & Hdead) (Hdead' & Hbody & Ht & _ & Hammo & _).
  unfold enemyMind in Hmind. unfold enemyBody in Hbody.
  injection Hmind as M1 M2 M3 M4 M5 M6 M7 M8 M9 M10 M11 M12 M13 M14.
  injection Hbody as B1 B2 B3 B4 B5.
  split; [congruence|]. split; [congruence|]. split; [congruence|].
  split; [lia|]. split; [lia|]. split; [congruence|].
  intros Hd. specialize (Hdead Hd). subst b. auto.
Qed.

Lemma tick_enemies_witness :
  exists state' input',
    updateGame startState leftInput 0.1 = Some (state', input') /\
    length (GameState.enemies state') = 1%nat.
Proof.
  destruct (@updateGame_tick startState leftInput 0.1 eq_refl startState_ready)
    as (state' & input' & Hrun & _).
  exists state', input'. split; [exact Hrun|].
  rewrite <- (Forall2_length (@tick_enemies startState state' leftInput input'
                               0.1 Hrun)).
  reflexivity.
Defined.

(** A tick leaves nobody inside a wall, and leaves the grid alone. *)
Lemma updateGame_clear (state state' : GameState.t)
    (input input' : InputState.t) (deltaTime : R) :
  standsClear state ->
  updateGame state input deltaTime = Some (state', input') ->
  standsClear state' /\ GameState.grid state' = GameState.grid state.
Proof.
  intros Hclear Hrun. destruct (skipped state) eqn:Hskip.
  { rewrite updateGame_skipped in Hrun by exact Hskip.
    injection Hrun as <- _. split; [exact Hclear | reflexivity]. }
  destruct (@updateGame_trace _ _ _ _ _ Hskip Hrun)
    as (mid & kept & drops & shots & noises & armed & Haged & Hturn & _ & _ & _ &
        _ & _ & _ & _ & _ & Hrest & _ & Hplayer & _ & _ & Hgrid & _).
  destruct (updatePlayer_outcome state input deltaTime) as (_ & Hpos & _).
  cbv zeta in *.
  set (moved := GameState.player (fst (updatePlayer state input deltaTime))) in *.
  destruct Hclear as (Hp & He).
  split; [|exact Hgrid]. unfold standsClear. rewrite Hgrid. split.
  - destruct (collectPickups_trace (GameState.ammoPickups state ++ drops) armed)
      as (Hun & _).
    rewrite <- Hplayer in Hun.
    assert (Hsame : Player.pos (GameState.player state') = Player.pos moved).
    { unfold playerUnarmed in Hun. unfold playerRest in Hrest. congruence. }
    rewrite Hsame. clearbody moved.
    destruct Hpos as [[-> _] | (dx & dy & _ & _ & ->)]; [exact Hp|].
    now apply resolveCollision_clear.
  - assert (Hmid : Forall (fun e => cornersWalkable (GameState.grid state)
                                      (Enemy.pos e) 0.35) mid).
    { clear - Haged He.
      induction Haged as [|e e' l l' (Hmind & _) _ IH]; [constructor|].
      inversion He; subst. constructor; [|auto].
      unfold enemyMind in Hmind.
      replace (Enemy.pos e') with (Enemy.pos e) by congruence. assumption. }
    clear - Hturn Hmid.
    induction Hturn as [|e e' l l' (_ & _ & _ & Hstep & _) _ IH]; [constructor|].
    inversion Hmid; subst. constructor; [|auto].
    destruct (steppedFrom_bound Hstep) as (_ & _ & Hkeep). auto.
Qed.

Lemma tileCorner (x r : R) (n : Z) :
  IZR n <= x - r -> x + r < IZR n + 1 -> 0 <= r ->
  Zfloor (x - r) = n /\ Zfloor (x + r) = n.
Proof. intros H1 H2 H3. split; apply Zfloor_eq; lra. Qed.

Lemma startState_clear : standsClear startState.
Proof.
  assert (Hcell : forall x y : Z,
            (0 <= x < 8)%Z -> (0 <= y < 3)%Z ->
            forall px py : R,
              Zfloor px = x -> Zfloor py = y -> walkableAt openRoom px py).
  { intros x y Hx Hy px py Hpx Hpy. unfold walkableAt. rewrite Hpx, Hpy.
    split; [exact Hy|]. split; [exact Hx|].
    assert (Hc : (x = 0 \/ x = 1 \/ x = 2 \/ x = 3 \/ x = 4 \/ x = 5 \/ x = 6 \/
                  x = 7)%Z) by lia.
    assert (Hr : (y = 0 \/ y = 1 \/ y = 2)%Z) by lia.
    destruct Hr as [-> | [-> | ->]];
      destruct Hc as [-> | [-> | [-> | [-> | [-> | [-> | [-> | ->]]]]]]];
      vm_compute; discriminate. }
  split.
  - cbn [startState world GameState.grid GameState.player walker freshPlayer
         Player.pos Vec2.x Vec2.y].
    destruct (@tileCorner 6.5 0.3 6) as [X1 X2]; try lra.
    destruct (@tileCorner 1.5 0.3 1) as [Y1 Y2]; try lra.
    repeat split; eapply Hcell; try eassumption; lia.
  - constructor; [|constructor].
    cbn [startState world GameState.grid guard freshEnemy Enemy.pos Vec2.x Vec2.y].
    destruct (@tileCorner 1.5 0.35 1) as [X1 X2]; try lra.
    repeat split; eapply Hcell; try eassumption; lia.
Qed.


Lemma highestAlert_bounds (enemies : list Enemy.t) :
  forall floor : R,
    floor <= highestAlert floor enemies /\
    (floor <= 100 ->
     Forall (fun e => Enemy.isDead e = false -> Enemy.alertLevel e <= 100)
       enemies ->
     highestAlert floor enemies <= 100) /\
    (forallb Enemy.isDead enemies = true -> highestAlert floor enemies = floor) /\
    (highestAlert floor enemies = floor \/
     exists e, In e enemies /\ Enemy.isDead e = false /\
               highestAlert floor enemies = Enemy.alertLevel e) /\
    (forall e, In e enemies -> Enemy.isDead e = false ->
               Enemy.alertLevel e <= highestAlert floor enemies).
Proof.
  induction enemies as [|enemy rest IH]; intros floor.
  - unfold highestAlert. cbn. repeat split; auto; try lra. intros e [].
  - destruct (Enemy.isDead enemy) eqn:Hdead.
    + rewrite highestAlert_dead by exact Hdead.
      destruct (IH floor) as (H1 & H2 & H3 & H4 & H5).
      split; [exact H1|]. split.
      { intros Hf Hall. inversion Hall; subst. auto. }
      split.
      { cbn [forallb]. rewrite Hdead. exact H3. }
      split.
      { destruct H4 as [H4 | (e & Hin & Hl & H4)]; [now left|].
        right. exists e. split; [now right | auto]. }
      intros e [<- | Hin] Hl; [congruence | auto].
    + rewrite highestAlert_live by exact Hdead.
      destruct (IH (JSMath.max floor (Enemy.alertLevel enemy)))
        as (H1 & H2 & H3 & H4 & H5).
      unfold JSMath.max in *.
      pose proof (Rmax_l floor (Enemy.alertLevel enemy)) as Hl.
      pose proof (Rmax_r floor (Enemy.alertLevel enemy)) as Hr.
      split; [lra|]. split.
      { intros Hf Hall. inversion Hall as [|? ? He Hrest]; subst.
        apply H2; [|exact Hrest]. apply Rmax_lub; [exact Hf | auto]. }
      split.
      { cbn [forallb]. rewrite Hdead. discriminate. }
      split.
      { destruct H4 as [H4 | (e & Hin & Hlive & H4)].
        - rewrite H4.
          destruct (Rmax_case floor (Enemy.alertLevel enemy)
                      (fun r => r = floor \/ r = Enemy.alertLevel enemy));
            auto.
          right. exists enemy. split; [now left | auto].
        - right. exists e. split; [now right | auto]. }
      intros e [<- | Hin] Hlive; [lra | auto].
Qed.

(** X20: the detection meter.  After a tick that is not skipped the
    detection level is the largest alert level among the enemies still
    alive, and 0 when there is none; it always lies between 0 and 100. *)
Theorem tick_detection (state state' : GameState.t)
    (input input' : InputState.t) (deltaTime : R) :
  skipped state = false ->
  updateGame state input deltaTime = Some (state', input') ->
  let level := GameState.detectionLevel state' in
  0 <= level <= 100 /\
  (forall e, In e (GameState.enemies state') -> Enemy.isDead e = false ->
             Enemy.alertLevel e <= level) /\
  (level = 0 \/
   exists e, In e (GameState.enemies state') /\ Enemy.isDead e = false /\
             level = Enemy.alertLevel e) /\
  (forallb Enemy.isDead (GameState.enemies state') = true -> level = 0).
Proof.
  intros Hskip Hrun. cbv zeta.
  destruct (@updateGame_trace _ _ _ _ _ Hskip Hrun)
    as (mid & kept & drops & shots & noises & armed & _ & Hturn & _ & _ & _ &
        _ & _ & _ & _ & _ & _ & _ & _ & _ & -> & _).
  destruct (highestAlert_bounds (GameState.enemies state') 0)
    as (H1 & H2 & H3 & H4 & H5).
  split; [|split; [exact H5 | split; [exact H4 | exact H3]]].
  split; [exact H1|]. apply H2; [lra|].
  clear - Hturn.
  induction Hturn as [|e e' l l' (_ & Hbody & _ & _ & _ & Hcap) _ IH];
    [constructor|].
  constructor; [|exact IH]. intros Hlive. apply Hcap.
  unfold enemyBody in Hbody. congruence.
Qed.

Lemma tick_detection_witness :
  exists state' input',
    updateGame startState leftInput 0.1 = Some (state', input') /\
    0 <= GameState.detectionLevel state' <= 100.
Proof.
  destruct (@updateGame_tick startState leftInput 0.1 eq_refl startState_ready)
    as (state' & input' & Hrun & _).
  exists state', input'. split; [exact Hrun|].
  exact (proj1 (@tick_detection startState state' leftInput input' 0.1
                  eq_refl Hrun)).
Defined.

Lemma decayNoise_alive (deltaTime : R) (noiseMarkers : list NoiseMarker.t) :
  Forall (fun n => 0 < NoiseMarker.lifetime n)
    (decayNoise deltaTime noiseMarkers) /\
  (forall n', In n' (decayNoise deltaTime noiseMarkers) <->
     exists n, In n noiseMarkers /\ deltaTime < NoiseMarker.lifetime n /\
               n' = NoiseMarker.mk (NoiseMarker.pos n) (NoiseMarker.radius n)
                      (NoiseMarker.lifetime n - deltaTime)
                      (NoiseMarker.maxLifetime n)).
Proof.
  unfold decayNoise. split.
  - apply Forall_forall. intros n Hin. apply filter_In in Hin.
    destruct Hin as [_ Hlife]. now apply Rgtb_true in Hlife.
  - intros n'. rewrite filter_In, in_map_iff. split.
    + intros [(n & <- & Hin) Hlife]. apply Rgtb_true in Hlife. cbn in Hlife.
      exists n. split; [exact Hin|]. split; [lra | reflexivity].
    + intros (n & Hin & Hlife & ->). split; [exists n; auto|].
      apply Rgtb_true. cbn. lra.
Qed.

(** X21: noise markers fade and are dropped.  After a tick that is not
    skipped the markers are the old ones, those thrown or caused by the
    player's shot included, that had more than [deltaTime] left, each with
    its lifetime reduced by [deltaTime] and nothing else changed, followed
    by the markers of the enemies' shots, which have a lifetime of 1; so
    every marker in the state has a positive lifetime. *)
Theorem tick_noise_markers (state state' : GameState.t)
    (input input' : InputState.t) (deltaTime : R) :
  skipped state = false ->
  updateGame state input deltaTime = Some (state', input') ->
  let before :=
    GameState.noiseMarkers (fst (updatePlayer state input deltaTime)) in
  Forall (fun n => 0 < NoiseMarker.lifetime n) (GameState.noiseMarkers state') /\
  exists faded noises,
    GameState.noiseMarkers state' = faded ++ noises /\
    Forall (fun n => NoiseMarker.lifetime n = 1) noises /\
    (forall n', In n' faded <->
       exists n, In n before /\ deltaTime < NoiseMarker.lifetime n /\
                 n' = NoiseMarker.mk (NoiseMarker.pos n) (NoiseMarker.radius n)
                        (NoiseMarker.lifetime n - deltaTime)
                        (NoiseMarker.maxLifetime n)).
Proof.
  intros Hskip Hrun. cbv zeta.
  destruct (@updateGame_trace _ _ _ _ _ Hskip Hrun)
    as (mid & kept & drops & shots & noises & armed & _ & _ & _ & _ & _ &
        _ & _ & Hnoise & Hshots & _).
  cbv zeta in Hnoise.
  destruct (decayNoise_alive deltaTime
              (GameState.noiseMarkers (fst (updatePlayer state input deltaTime))))
    as (Halive & Hspec).
  split.
  - rewrite Hnoise. apply Forall_app. split; [exact Halive|].
    eapply Forall_impl; [|exact Hshots]. cbv beta. intros n ->. lra.
  - eexists. exists noises. split; [exact Hnoise|]. split; [exact Hshots|].
    exact Hspec.
Qed.

Lemma tick_noise_markers_witness :
  exists state' input',
    updateGame startState leftInput 0.1 = Some (state', input') /\
    Forall (fun n => 0 < NoiseMarker.lifetime n) (GameState.noiseMarkers state').
Proof.
  destruct (@updateGame_tick startState leftInput 0.1 eq_refl startState_ready)
    as (state' & input' & Hrun & _).
  exists state', input'. split; [exact Hrun|].
  exact (proj1 (@tick_noise_markers startState state' leftInput input' 0.1
                  eq_refl Hrun)).
Defined.

(** ** Runs of ticks *)

Lemma afterBullets_ready (state : GameState.t) (input : InputState.t)
    (deltaTime : R) :
  Forall patrolReady (GameState.enemies state) ->
  Forall patrolReady (GameState.enemies (afterBullets state input deltaTime)).
Proof.
  intros Hready. unfold afterBullets.
  pose proof (updatePlayer_frame state input deltaTime) as Hplayer.
  destruct (updatePlayer state input deltaTime) as [s1 input1].
  destruct Hplayer as (E1 & _).
  set (s2 := GameState.set_noiseMarkers _ s1).
  destruct (updateBullets_combat s2 deltaTime) as (_ & Haged & _).
  change (GameState.enemies s2) with (GameState.enemies s1) in Haged.
  rewrite E1 in Haged. clear - Hready Haged.
  induction Haged as [|e e' l l' (Hmind & _) _ IH]; [constructor|].
  inversion Hready; subst. constructor; [|auto].
  unfold enemyMind in Hmind.
  eapply patrolReady_same; [| |eassumption]; congruence.
Qed.

(** A tick keeps the waypoint indices in range, whatever the input and
    the time step. *)
Lemma updateGame_ready (state : GameState.t) (input : InputState.t)
    (deltaTime : R) :
  Forall patrolReady (GameState.enemies state) ->
  exists state' input',
    updateGame state input deltaTime = Some (state', input') /\
    Forall patrolReady (GameState.enemies state').
Proof.
  intros Hready. destruct (skipped state) eqn:Hskip.
  { exists state, input. split; [now apply updateGame_skipped | exact Hready]. }
  destruct (@updateGame_tick state input deltaTime Hskip Hready)
    as (state' & input' & Hrun & _).
  exists state', input'. split; [exact Hrun|].
  destruct (@updateGame_phases _ _ _ _ _ Hskip Hrun)
    as (enemies' & fought & m & Hloop & _ & <- & _).
  destruct (@enemiesLoop_returns deltaTime
              (GameState.enemies (afterBullets state input deltaTime))
              (afterBullets state input deltaTime) 0
              (@afterBullets_ready state input deltaTime Hready))
    as (enemies'' & fought' & m' & Hloop' & _ & _ & _ & Hready' & _).
  rewrite Hloop in Hloop'. injection Hloop' as <- _ _. exact Hready'.
Qed.

(** X22: the game loop never throws.  From a state in which every enemy
    has no waypoints or a waypoint index inside its waypoint list, every
    run of ticks returns a state, for all inputs and all time steps, and
    the indices are still in range at the end. *)
Theorem runTicks_returns (ticks : list (InputState.t * R)) :
  forall state : GameState.t,
    Forall patrolReady (GameState.enemies state) ->
    exists state',
      runTicks state ticks = Some state' /\
      Forall patrolReady (GameState.enemies state').
Proof.
  induction ticks as [|[input deltaTime] later IH]; intros state Hready;
    cbn [runTicks].
  - exists state. split; [reflexivity | exact Hready].
  - destruct (@updateGame_ready state input deltaTime Hready)
      as (state1 & input1 & Hrun & Hready1).
    rewrite Hrun. cbn [bind ret]. apply IH. exact Hready1.
Qed.

Lemma runTicks_returns_witness :
  exists state',
    runTicks startState [(leftInput, 0.1); (idleInput, 0.05)] = Some state' /\
    Forall patrolReady (GameState.enemies state').
Proof.
  exact (@runTicks_returns [(leftInput, 0.1); (idleInput, 0.05)] startState
           startState_ready).
Defined.

(** ** More on sight and bullets *)

(** X23: sight is not symmetric.  The line is traced from the viewer's
    tile, and the trace from the other end can pass through other cells:
    there are a grid and two positions such that the first sees the
    second while the second does not see the first. *)
Theorem sight_not_symmetric :
  ~ (forall (grid : Grid) (from to : Vec2.t),
       hasLineOfSight grid from to = hasLineOfSight grid to from).
Proof.
  intros Hsym.
  specialize (Hsym cornerRoom (Vec2.mk 0.5 0.5) (Vec2.mk 2.5 1.5)).
  unfold hasLineOfSight, JSMath.floor in Hsym.
  cbn [Vec2.x Vec2.y fst snd] in Hsym.
  replace (Zfloor 0.5) with 0%Z in Hsym by (symmetry; apply Zfloor_eq; lra).
  replace (Zfloor 1.5) with 1%Z in Hsym by (symmetry; apply Zfloor_eq; lra).
  replace (Zfloor 2.5) with 2%Z in Hsym by (symmetry; apply Zfloor_eq; lra).
  vm_compute in Hsym. discriminate.
Qed.

Lemma hitEnemies_count (bullet : Bullet.t) (enemies : list Enemy.t)
    (ammoPickups : list AmmoPickup.t) :
  let enemies' := fst (fst (hitEnemies bullet enemies ammoPickups)) in
  let pickups' := snd (fst (hitEnemies bullet enemies ammoPickups)) in
  (length pickups' + countDead enemies =
   length ammoPickups + countDead enemies')%nat.
Proof.
  cbv zeta. unfold countDead.
  induction enemies as [|enemy rest IH]; cbn [hitEnemies fst snd].
  - reflexivity.
  - destruct (negb (Enemy.isDead enemy) && _) eqn:Hhit.
    + apply andb_true_iff in Hhit. destruct Hhit as [Hlive _].
      apply negb_true_iff in Hlive.
      cbn [Enemy.health Enemy.set_health].
      destruct (_ <=? 0)%Z; cbn [fst snd filter Enemy.isDead Enemy.set_isDead
                                  Enemy.set_health];
        rewrite ?Hlive, ?length_app; cbn [length]; lia.
    + destruct (hitEnemies bullet rest ammoPickups) as [[rest' pickups'] hit].
      cbn [fst snd filter] in *.
      destruct (Enemy.isDead enemy); cbn [length]; lia.
Qed.

Lemma bulletsLoop_count (deltaTime : R) (bullets : list Bullet.t)
    (state : GameState.t) :
  let state' := snd (bulletsLoop deltaTime bullets state) in
  (length (GameState.ammoPickups state') + countDead (GameState.enemies state) =
   length (GameState.ammoPickups state) + countDead (GameState.enemies state'))%nat.
Proof.
  cbv zeta. induction bullets as [|bullet later IH]; cbn [bulletsLoop fst snd].
  - reflexivity.
  - destruct (bulletsLoop deltaTime later state) as [later' mid].
    cbn [snd] in IH.
    assert (Hstep :
      (length (GameState.ammoPickups (snd (stepBullet deltaTime bullet mid))) +
       countDead (GameState.enemies mid) =
       length (GameState.ammoPickups mid) +
       countDead (GameState.enemies (snd (stepBullet deltaTime bullet mid))))%nat).
    { unfold stepBullet. set (moved := Bullet.mk _ _ _ _ _).
      destruct (negb (isWalkable _ _ _)); [reflexivity|].
      destruct (Rleb (Bullet.lifetime moved) 0); [reflexivity|].
      destruct (Bullet.isPlayerBullet moved).
      - pose proof (hitEnemies_count moved (GameState.enemies mid)
                      (GameState.ammoPickups mid)) as Hc.
        destruct (hitEnemies _ _ _) as [[enemies' pickups'] hit].
        cbn [fst snd] in *. exact Hc.
      - destruct (Rltb _ 0.35); [|reflexivity].
        destruct (_ <=? 0)%Z; reflexivity. }
    destruct (stepBullet deltaTime bullet mid) as [kept state'].
    cbn [snd] in *. lia.
Qed.

(** X24: what [updateBullets] leaves behind.  The bullets that remain are
    old ones, in their old order, each moved by its velocity times
    [deltaTime] and aged by [deltaTime]; each has time left and lies on a
    walkable tile.  The id counter and the noise markers are untouched.
    Pickups are only appended: one for every enemy that died in this
    call, at the place of an enemy that was alive, holding half its rounds
    (rounded down) plus two. *)
Theorem updateBullets_survivors (state : GameState.t) (deltaTime : R) :
  let state' := updateBullets state deltaTime in
  survivors deltaTime (GameState.bullets state) (GameState.bullets state') /\
  Forall (fun b => 0 < Bullet.lifetime b /\
                   walkableAt (GameState.grid state)
                     (Vec2.x (Bullet.pos b)) (Vec2.y (Bullet.pos b)))
    (GameState.bullets state') /\
  GameState.nextBulletId state' = GameState.nextBulletId state /\
  GameState.noiseMarkers state' = GameState.noiseMarkers state /\
  exists drops,
    GameState.ammoPickups state' = GameState.ammoPickups state ++ drops /\
    Forall (fun d => exists e, In e (GameState.enemies state) /\
                               Enemy.isDead e = false /\ d = dropOf e) drops /\
    (length drops + countDead (GameState.enemies state) =
     countDead (GameState.enemies state'))%nat.
Proof.
  cbv zeta. unfold updateBullets.
  pose proof (bulletsLoop_trace deltaTime (GameState.bullets state) state) as Ht.
  pose proof (bulletsLoop_count deltaTime (GameState.bullets state) state) as Hc.
  destruct (bulletsLoop deltaTime (GameState.bullets state) state) as [kept mid].
  cbn [fst snd] in *.
  destruct Ht as (Hledger & (drops & Hdrops & Hall) & Hkept & Hfly).
  unfold shotLedger in Hledger. injection Hledger as Hnext Hnoise _ _.
  cbn [GameState.bullets GameState.set_bullets GameState.nextBulletId
       GameState.noiseMarkers GameState.ammoPickups GameState.enemies].
  split; [exact Hkept|]. split; [exact Hfly|].
  split; [exact Hnext|]. split; [exact Hnoise|].
  exists drops. split; [exact Hdrops|]. split; [exact Hall|].
  rewrite Hdrops, length_app in Hc. lia.
Qed.

(** * Spawning *)

Lemma range_in (n x : Z) : In x (range n) <-> (0 <= x < n)%Z.
Proof.
  unfold range. rewrite in_map_iff. split.
  - intros (k & <- & Hk). apply in_seq in Hk. lia.
  - intros Hx. exists (Z.to_nat x). split; [lia|]. apply in_seq. lia.
Qed.

Lemma inBounds_spec (grid : Grid) (x y : Z) :
  inBounds grid x y = true <-> insideGrid grid (x, y).
Proof.
  unfold inBounds, insideGrid. cbn [fst snd].
  rewrite !andb_true_iff, !Z.geb_le, !Z.ltb_lt. lia.
Qed.

Lemma tiles_in (grid : Grid) (x y : Z) :
  In (x, y) (tiles grid) <-> inBounds grid x y = true.
Proof.
  rewrite inBounds_spec. unfold tiles, insideGrid. cbn [fst snd].
  rewrite in_flat_map. split.
  - intros (y' & Hy & Hin). apply in_map_iff in Hin.
    destruct Hin as (x' & [= <- <-] & Hx).
    apply range_in in Hy. apply range_in in Hx. lia.
  - intros [Hy Hx]. exists y. split; [now apply range_in|].
    apply in_map_iff. exists x. split; [reflexivity | now apply range_in].
Qed.

Lemma hasKey_spec (visited : list (Z * Z)) (key : Z * Z) :
  hasKey visited key = true <-> In key visited.
Proof.
  unfold hasKey. rewrite existsb_exists. split.
  - intros ([kx ky] & Hin & Heq). apply andb_true_iff in Heq.
    destruct Heq as [H1 H2]. apply Z.eqb_eq in H1. apply Z.eqb_eq in H2.
    destruct key as [x y]. cbn [fst snd] in *. now subst.
  - intros Hin. exists key. split; [exact Hin|]. now rewrite !Z.eqb_refl.
Qed.

Lemma isWalkableTile_spec (grid : Grid) (x y : Z) :
  isWalkableTile grid x y = true <->
  insideGrid grid (x, y) /\ tileAt grid x y <> Some WALL.
Proof.
  unfold isWalkableTile, insideGrid. cbn [fst snd].
  destruct (Z.ltb_spec y 0); cbn [orb]; [split; [discriminate | lia]|].
  destruct (Z.geb_spec y (gridRows grid)); cbn [orb];
    [split; [discriminate | lia]|].
  destruct (Z.ltb_spec x 0); cbn [orb]; [split; [discriminate | lia]|].
  destruct (Z.geb_spec x (gridCols grid)); cbn [orb];
    [split; [discriminate | lia]|].
  rewrite negb_true_iff, isTile_false.
  split; [intros Hw; split; [lia | exact Hw]|]. now intros [_ Hw].
Qed.

Lemma isClear3x3_spec (grid : Grid) (x y : Z) :
  isClear3x3 grid x y = true <-> clearAround grid (x, y).
Proof.
  unfold isClear3x3, clearAround. cbn [fst snd].
  assert (Hcell : forall cx cy : Z,
            (if ((cy <? 0) || (cy >=? gridRows grid) ||
                 (cx <? 0) || (cx >=? gridCols grid))%Z
             then false
             else negb (isTile WALL (tileAt grid cx cy))) = true <->
            insideGrid grid (cx, cy) /\ tileAt grid cx cy <> Some WALL).
  { intros cx cy. exact (isWalkableTile_spec grid cx cy). }
  split.
  - intros H dx dy Hdx Hdy. cbv zeta in H. rewrite forallb_forall in H.
    assert (Hy : In dy [(-1)%Z; 0%Z; 1%Z]) by (cbn; lia).
    specialize (H dy Hy). rewrite forallb_forall in H.
    assert (Hx : In dx [(-1)%Z; 0%Z; 1%Z]) by (cbn; lia).
    specialize (H dx Hx). now apply Hcell.
  - intros H. cbv zeta. apply forallb_forall. intros dy Hy.
    apply forallb_forall. intros dx Hx. apply Hcell. apply H.
    + cbn in Hx. lia.
    + cbn in Hy. lia.
Qed.

Lemma ok_spec (grid : Grid) (requireClear3x3 : bool) (x y : Z) :
  ok grid requireClear3x3 x y = true <->
  insideGrid grid (x, y) /\ tileAt grid x y <> Some WALL /\
  (requireClear3x3 = true -> clearAround grid (x, y)).
Proof.
  unfold ok.
  destruct (inBounds grid x y) eqn:Hin; cbn [negb].
  - apply inBounds_spec in Hin.
    destruct (isWalkableTile grid x y) eqn:Hw; cbn [negb].
    + apply isWalkableTile_spec in Hw. destruct Hw as [_ Hw].
      destruct requireClear3x3.
      * rewrite isClear3x3_spec. tauto.
      * split; [|reflexivity]. intros _. split; [exact Hin|].
        split; [exact Hw | intros Hf; discriminate Hf].
    + split; [discriminate|]. intros (H1 & H2 & _).
      assert (isWalkableTile grid x y = true) by (apply isWalkableTile_spec; auto).
      congruence.
  - split; [discriminate|]. intros (H1 & _).
    apply inBounds_spec in H1. congruence.
Qed.

Lemma filter_shrink {A : Type} (p p' : A -> bool) (l : list A) (a : A) :
  (forall x, p' x = true -> p x = true) ->
  In a l -> p a = true -> p' a = false ->
  (length (filter p' l) < length (filter p l))%nat.
Proof.
  intros Himp. 
  assert (Hle : forall l', (length (filter p' l') <= length (filter p l'))%nat).
  { induction l' as [|x l' IH]; cbn [filter]; [lia|].
    destruct (p' x) eqn:Hp'; [rewrite (Himp x Hp'); cbn; lia|].
    destruct (p x); cbn; lia. }
  induction l as [|x l IH]; intros Hin Hp Hp'; [destruct Hin|].
  cbn [filter]. destruct Hin as [-> | Hin].
  - rewrite Hp, Hp'. cbn [length]. specialize (Hle l). lia.
  - specialize (IH Hin Hp Hp').
    destruct (p' x) eqn:Hx; [rewrite (Himp x Hx); cbn; lia|].
    destruct (p x); cbn; lia.
Qed.

Lemma enqueue_load (grid : Grid) (cur : Z * Z * Z)
    (acc : list (Z * Z * Z) * list (Z * Z)) (dir : Z * Z) :
  (searchLoad grid (fst (enqueue grid cur acc dir))
     (snd (enqueue grid cur acc dir)) <=
   searchLoad grid (fst acc) (snd acc))%nat.
Proof.
  destruct acc as [q visited], cur as [[cx cy] d]. unfold enqueue.
  cbn [fst snd].
  destruct (inBounds grid _ _) eqn:Hin; cbn [negb orb]; [|apply Nat.le_refl].
  destruct (hasKey visited _) eqn:Hkey; [apply Nat.le_refl|].
  cbn [fst snd]. unfold searchLoad. rewrite length_app. cbn [length].
  apply tiles_in in Hin.
  pose proof (@filter_shrink _
                (fun tile => negb (hasKey visited tile))
                (fun tile => negb (hasKey ((cx + fst dir, cy + snd dir)%Z :: visited)
                                     tile))
                (tiles grid) (cx + fst dir, cy + snd dir)%Z) as Hshrink.
  cbv beta in Hshrink.
  assert (Hlt : (length (filter
                   (fun tile => negb (hasKey ((cx + fst dir, cy + snd dir)%Z :: visited)
                                        tile)) (tiles grid)) <
                 length (filter (fun tile => negb (hasKey visited tile))
                           (tiles grid)))%nat).
  { apply Hshrink.
    - intros tile H. apply negb_true_iff in H. apply negb_true_iff.
      destruct (hasKey visited tile) eqn:Hk; [|reflexivity].
      apply hasKey_spec in Hk.
      assert (hasKey ((cx + fst dir, cy + snd dir)%Z :: visited) tile = true)
        by (apply hasKey_spec; now right).
      congruence.
    - exact Hin.
    - now rewrite Hkey.
    - apply negb_false_iff. apply hasKey_spec. now left. }
  lia.
Qed.

Lemma enqueue_all_load (grid : Grid) (cur : Z * Z * Z) (ds : list (Z * Z)) :
  forall acc : list (Z * Z * Z) * list (Z * Z),
    (searchLoad grid (fst (fold_left (enqueue grid cur) ds acc))
       (snd (fold_left (enqueue grid cur) ds acc)) <=
     searchLoad grid (fst acc) (snd acc))%nat.
Proof.
  induction ds as [|dir ds IH]; intros acc; cbn [fold_left]; [lia|].
  eapply Nat.le_trans; [apply IH | apply enqueue_load].
Qed.

(** The search always ends within its fuel. *)
Lemma search_returns (grid : Grid) (requireClear3x3 : bool) (maxR : Z)
    (fuel : nat) :
  forall (q : list (Z * Z * Z)) (visited : list (Z * Z)),
    (searchLoad grid q visited < fuel)%nat ->
    exists found, search fuel grid requireClear3x3 maxR q visited = Some found.
Proof.
  induction fuel as [|fuel IH]; intros q visited Hload; [lia|].
  cbn [search]. destruct q as [|[[cx cy] d] q]; [eauto|].
  destruct (d >? maxR)%Z; [eauto|].
  destruct (ok grid requireClear3x3 cx cy); [eauto|].
  pose proof (enqueue_all_load grid (cx, cy, d) dirs (q, visited)) as Hle.
  destruct (fold_left _ dirs (q, visited)) as [q' visited'].
  cbn [fst snd] in Hle. apply IH.
  unfold searchLoad in *. cbn [length] in Hload. lia.
Qed.

(** A tile the search returns passes the test. *)
Lemma search_ok (grid : Grid) (requireClear3x3 : bool) (maxR : Z) (fuel : nat) :
  forall (q : list (Z * Z * Z)) (visited : list (Z * Z)) (tile : Z * Z),
    search fuel grid requireClear3x3 maxR q visited = Some (Some tile) ->
    ok grid requireClear3x3 (fst tile) (snd tile) = true.
Proof.
  induction fuel as [|fuel IH]; intros q visited tile; cbn [search];
    [discriminate|].
  destruct q as [|[[cx cy] d] q]; [discriminate|].
  destruct (d >? maxR)%Z; [discriminate|].
  destruct (ok grid requireClear3x3 cx cy) eqn:Hok.
  - intros [= <-]. exact Hok.
  - destruct (fold_left _ dirs (q, visited)) as [q' visited']. apply IH.
Qed.

Lemma startLoad (grid : Grid) (start : Z * Z) :
  (searchLoad grid [(fst start, snd start, 0%Z)] [start] <
   S (S (length (tiles grid))))%nat.
Proof.
  unfold searchLoad. cbn [length].
  pose proof (filter_length_le (fun tile => negb (hasKey [start] tile))
                (tiles grid)).
  lia.
Qed.

(** The outcome of [findSafeSpawnPos]. *)
Lemma findSafeSpawnPos_cases (grid : Grid) (preferredPos : Vec2.t)
    (options : option SpawnOptions.t) :
  let requireClear3x3 :=
    match options with
    | Some o =>
        match SpawnOptions.requireClear3x3 o with Some b => b | None => true end
    | None => true
    end in
  exists pos,
    findSafeSpawnPos grid preferredPos options = Some pos /\
    ((exists tile, ok grid requireClear3x3 (fst tile) (snd tile) = true /\
                   pos = tileCentre tile) \/
     (forall x y, ok grid requireClear3x3 x y = false) /\
     pos = Vec2.mk 1.5 1.5) /\
    (ok grid requireClear3x3 (fst (tileOf preferredPos))
       (snd (tileOf preferredPos)) = true ->
     pos = tileCentre (tileOf preferredPos)).
Proof.
  cbv zeta. unfold findSafeSpawnPos, JSMath.floor. fold (tileOf preferredPos).
  set (require := match options with Some o => _ | None => true end).
  set (maxR := match options with Some o => _ | None => 30%Z end).
  cbv zeta.
  destruct (ok grid require (fst (tileOf preferredPos))
              (snd (tileOf preferredPos))) eqn:Hstart.
  { eexists. split; [reflexivity|]. split; [|reflexivity].
    left. exists (tileOf preferredPos). auto. }
  destruct (@search_returns grid require maxR (S (S (length (tiles grid))))
              [(fst (tileOf preferredPos), snd (tileOf preferredPos), 0%Z)]
              [tileOf preferredPos] (startLoad grid (tileOf preferredPos)))
    as (found & Hsearch).
  rewrite Hsearch. destruct found as [tile|].
  { eexists. split; [reflexivity|]. split; [|discriminate].
    left. exists tile. split; [|reflexivity].
    exact (search_ok _ _ _ _ _ _ Hsearch). }
  destruct (find _ (tiles grid)) as [tile|] eqn:Hfind.
  - apply find_some in Hfind. destruct Hfind as [_ Hok].
    eexists. split; [reflexivity|]. split; [|discriminate].
    left. exists tile. auto.
  - eexists. split; [reflexivity|]. split; [|discriminate].
    right. split; [|reflexivity]. intros x y.
    destruct (ok grid require x y) eqn:Hok; [|reflexivity].
    pose proof Hok as Hin. apply ok_spec in Hin. destruct Hin as (Hin & _).
    apply inBounds_spec, tiles_in in Hin.
    pose proof (find_none _ _ Hfind _ Hin) as Hno. cbn [fst snd] in Hno.
    congruence.
Qed.

Lemma usable_spec (grid : Grid) (requireClear3x3 : bool) (tile : Z * Z) :
  ok grid requireClear3x3 (fst tile) (snd tile) = true <->
  usable grid requireClear3x3 tile.
Proof. destruct tile as [x y]. apply ok_spec. Qed.

(** X25: where [findSafeSpawnPos] puts an entity.  It always returns a
    position.  If the tile of the preferred position is usable (inside
    the grid, not a wall and, when a clear 3 x 3 block is required, with
    no wall and no edge next to it), the result is the centre of that
    tile.  Whenever the grid has a usable tile at all, the result is the
    centre of a usable tile, however far away it is; only when there is
    none is it the fixed position (1.5, 1.5). *)
Theorem findSafeSpawnPos_safe (grid : Grid) (preferredPos : Vec2.t)
    (options : option SpawnOptions.t) :
  exists pos,
    findSafeSpawnPos grid preferredPos options = Some pos /\
    (usable grid (wantsClear options) (tileOf preferredPos) ->
     pos = tileCentre (tileOf preferredPos)) /\
    ((exists tile, usable grid (wantsClear options) tile) ->
     exists tile, usable grid (wantsClear options) tile /\
                  pos = tileCentre tile) /\
    ((forall tile, ~ usable grid (wantsClear options) tile) ->
     pos = Vec2.mk 1.5 1.5).
Proof.
  destruct (findSafeSpawnPos_cases grid preferredPos options)
    as (pos & Hrun & Hcase & Hstart).
  fold (wantsClear options) in Hcase, Hstart.
  exists pos. split; [exact Hrun|]. split; [|split].
  - intros Hu. apply Hstart. now apply usable_spec.
  - intros (tile & Hu).
    destruct Hcase as [(found & Hok & ->) | (Hnone & _)].
    + exists found. split; [now apply usable_spec | reflexivity].
    + apply usable_spec in Hu. rewrite Hnone in Hu. discriminate.
  - intros Hnone. destruct Hcase as [(found & Hok & _) | (_ & ->)];
      [|reflexivity].
    apply usable_spec in Hok. now destruct (Hnone found).
Qed.

Lemma Zfloor_near (x : Z) (t : R) :
  IZR x - 1 <= t < IZR x + 2 -> (-1 <= Zfloor t - x <= 1)%Z.
Proof.
  intros [Hlo Hhi]. pose proof (Zfloor_bound t) as [Hf1 Hf2].
  assert (H1 : (Zfloor t < x + 2)%Z).
  { apply lt_IZR. rewrite plus_IZR. lra. }
  assert (H2 : (x - 2 < Zfloor t)%Z).
  { apply lt_IZR. rewrite minus_IZR. lra. }
  lia.
Qed.

Lemma centre_walkable (grid : Grid) (requireClear3x3 : bool) (tile : Z * Z)
    (cx cy : R) :
  usable grid requireClear3x3 tile ->
  (if requireClear3x3
   then IZR (fst tile) - 1 <= cx < IZR (fst tile) + 2 /\
        IZR (snd tile) - 1 <= cy < IZR (snd tile) + 2
   else IZR (fst tile) <= cx < IZR (fst tile) + 1 /\
        IZR (snd tile) <= cy < IZR (snd tile) + 1) ->
  walkableAt grid cx cy.
Proof.
  intros (Hin & Hwall & Hclear) Hnear. unfold walkableAt.
  destruct requireClear3x3.
  - destruct Hnear as [Hx Hy].
    apply Zfloor_near in Hx. apply Zfloor_near in Hy.
    destruct (Hclear eq_refl (Zfloor cx - fst tile)%Z (Zfloor cy - snd tile)%Z
                Hx Hy) as [[H1 H2] H3].
    cbn [fst snd] in H1, H2.
    replace (fst tile + (Zfloor cx - fst tile))%Z with (Zfloor cx) in * by lia.
    replace (snd tile + (Zfloor cy - snd tile))%Z with (Zfloor cy) in * by lia.
    auto.
  - destruct Hnear as [Hx Hy].
    rewrite (Zfloor_eq (fst tile) cx Hx), (Zfloor_eq (snd tile) cy Hy).
    destruct Hin as [H1 H2]. auto.
Qed.

(** X26: a spawned entity stands clear of the walls.  Whenever the grid
    has a usable tile, the position [findSafeSpawnPos] returns has all
    four corners of a body of half-width [radius] on walkable tiles: for
    every radius below 0.5 in general, and for every radius below 1.5
    when a clear 3 x 3 block is required, as it is for the player. *)
Theorem findSafeSpawnPos_clear (grid : Grid) (preferredPos : Vec2.t)
    (options : option SpawnOptions.t) (radius : R) :
  (exists tile, usable grid (wantsClear options) tile) ->
  0 <= radius < (if wantsClear options then 1.5 else 0.5) ->
  exists pos,
    findSafeSpawnPos grid preferredPos options = Some pos /\
    cornersWalkable grid pos radius.
Proof.
  intros Hsome Hr.
  destruct (findSafeSpawnPos_cases grid preferredPos options)
    as (pos & Hrun & Hcase & _).
  fold (wantsClear options) in Hcase.
  exists pos. split; [exact Hrun|].
  destruct Hcase as [(tile & Hok & ->) | (Hnone & _)].
  - apply usable_spec in Hok. unfold cornersWalkable, tileCentre.
    cbn [Vec2.x Vec2.y].
    split; [|split; [|split]];
      match goal with |- walkableAt _ ?cx ?cy =>
        apply (@centre_walkable grid (wantsClear options) tile cx cy Hok) end;
      destruct (wantsClear options); lra.
  - destruct Hsome as (tile & Hu). apply usable_spec in Hu.
    rewrite Hnone in Hu. discriminate.
Qed.

Lemma findSafeSpawnPos_clear_witness :
  exists pos,
    findSafeSpawnPos openRoom (Vec2.mk 0.5 0.5)
      (Some (SpawnOptions.mk (Some true) None)) = Some pos /\
    cornersWalkable openRoom pos 0.3.
Proof.
  apply (@findSafeSpawnPos_clear openRoom (Vec2.mk 0.5 0.5)
           (Some (SpawnOptions.mk (Some true) None)) 0.3).
  - exists (1%Z, 1%Z). apply usable_spec. vm_compute. reflexivity.
  - cbn. lra.
Defined.

(** ** The nearest usable tile *)

Lemma dirs_cases (dir : Z * Z) :
  In dir dirs ->
  dir = (1, 0)%Z \/ dir = (-1, 0)%Z \/ dir = (0, 1)%Z \/ dir = (0, -1)%Z.
Proof. cbn. intuition auto. Qed.

Lemma neighbour_distance (start tile dir : Z * Z) :
  In dir dirs ->
  (manhattan start (neighbour tile dir) = manhattan start tile + 1 \/
   manhattan start (neighbour tile dir) = manhattan start tile - 1)%Z.
Proof.
  intros Hdir. apply dirs_cases in Hdir. unfold manhattan, neighbour.
  destruct Hdir as [-> | [-> | [-> | ->]]]; cbn [fst snd]; lia.
Qed.

(** Inside the grid every tile but the start has a neighbour that is one
    step closer to the start. *)
Lemma step_closer (grid : Grid) (start tile : Z * Z) (k : Z) :
  insideGrid grid start -> insideGrid grid tile ->
  (0 <= k)%Z -> manhattan start tile = (k + 1)%Z ->
  exists closer dir,
    In dir dirs /\ tile = neighbour closer dir /\
    insideGrid grid closer /\ manhattan start closer = k.
Proof.
  unfold insideGrid, manhattan, neighbour.
  destruct start as [sx sy], tile as [tx ty]. cbn [fst snd].
  intros Hs Ht Hk Hd.
  destruct (Z.lt_trichotomy tx sx) as [Hx | [Hx | Hx]].
  - exists (tx + 1, ty)%Z, (-1, 0)%Z. cbn [fst snd In dirs].
    split; [auto|]. split; [f_equal; lia|]. lia.
  - destruct (Z.lt_trichotomy ty sy) as [Hy | [Hy | Hy]].
    + exists (tx, ty + 1)%Z, (0, -1)%Z. cbn [fst snd In dirs].
      split; [auto|]. split; [f_equal; lia|]. lia.
    + lia.
    + exists (tx, ty - 1)%Z, (0, 1)%Z. cbn [fst snd In dirs].
      split; [auto|]. split; [f_equal; lia|]. lia.
  - exists (tx - 1, ty)%Z, (1, 0)%Z. cbn [fst snd In dirs].
    split; [auto|]. split; [f_equal; lia|]. lia.
Qed.

(** What the loop over the four directions adds. *)
Lemma enqueue_fold (grid : Grid) (cur : Z * Z * Z) (ds : list (Z * Z)) :
  forall acc : list (Z * Z * Z) * list (Z * Z),
    exists pushed,
      fst (fold_left (enqueue grid cur) ds acc) = fst acc ++ pushed /\
      (forall tile, In tile (snd (fold_left (enqueue grid cur) ds acc)) <->
                    In tile (snd acc) \/ In tile (map cellOf pushed)) /\
      Forall (fun entry =>
                snd entry = (snd cur + 1)%Z /\
                insideGrid grid (cellOf entry) /\
                ~ In (cellOf entry) (snd acc) /\
                exists dir, In dir ds /\
                            cellOf entry = neighbour (cellOf cur) dir) pushed /\
      (forall dir, In dir ds -> insideGrid grid (neighbour (cellOf cur) dir) ->
                   In (neighbour (cellOf cur) dir)
                      (snd (fold_left (enqueue grid cur) ds acc))).
Proof.
  induction ds as [|dir ds IH]; intros acc; cbn [fold_left].
  - exists []. rewrite app_nil_r. split; [reflexivity|].
    split; [cbn; tauto|]. split; [constructor | intros dir []].
  - destruct (IH (enqueue grid cur acc dir)) as (pushed & Hq & Hv & Hall & Hnb).
    destruct acc as [q visited], cur as [[cx cy] d].
    unfold enqueue in Hq, Hv, Hall, Hnb |- *.
    cbn [fst snd cellOf neighbour] in *.
    destruct (inBounds grid (cx + fst dir) (cy + snd dir)) eqn:Hin;
      cbn [negb orb] in *.
    + destruct (hasKey visited (cx + fst dir, cy + snd dir)%Z) eqn:Hkey;
        cbn [fst snd] in *.
      * exists pushed. split; [exact Hq|]. split; [exact Hv|]. split.
        { eapply Forall_impl; [|exact Hall].
          intros e (H1 & H2 & H3 & (dr & Hdr & H4)).
          split; [exact H1|]. split; [exact H2|]. split; [exact H3|].
          exists dr. split; [now right | exact H4]. }
        { intros dr [<- | Hdr] Hinside; [|auto].
          apply Hv. left. now apply hasKey_spec. }
      * exists ((cx + fst dir, cy + snd dir, d + 1)%Z :: pushed).
        split; [rewrite Hq, <- app_assoc; reflexivity|]. split.
        { intros tile. rewrite Hv. cbn [map In cellOf fst]. tauto. }
        split.
        { constructor.
          - cbn [fst snd cellOf]. split; [reflexivity|].
            split; [now apply inBounds_spec|]. split.
            + intros Hold. apply hasKey_spec in Hold. congruence.
            + exists dir. split; [now left | reflexivity].
          - eapply Forall_impl; [|exact Hall].
            intros e (H1 & H2 & H3 & (dr & Hdr & H4)).
            split; [exact H1|]. split; [exact H2|]. split.
            + intros Hold. apply H3. now right.
            + exists dr. split; [now right | exact H4]. }
        { intros dr [<- | Hdr] Hinside; [|auto].
          apply Hv. left. now left. }
    + exists pushed. split; [exact Hq|]. split; [exact Hv|]. split.
      * eapply Forall_impl; [|exact Hall].
        intros e (H1 & H2 & H3 & (dr & Hdr & H4)).
        split; [exact H1|]. split; [exact H2|]. split; [exact H3|].
          exists dr. split; [now right | exact H4].
      * intros dr [<- | Hdr] Hinside; [|auto].
        unfold neighbour, cellOf in Hinside. cbn [fst snd] in Hinside.
        apply inBounds_spec in Hinside. congruence.
Qed.

Lemma wavefront_levels (head : Z * Z * Z) (rest : list (Z * Z * Z)) :
  wavefront (head :: rest) ->
  Forall (fun entry => (snd head <= snd entry <= snd head + 1)%Z) (head :: rest).
Proof.
  intros (ring & next & -> & Hring & Hnext). apply Forall_app. split.
  - eapply Forall_impl; [|exact Hring]. cbv beta. intros e He. lia.
  - eapply Forall_impl; [|exact Hnext]. cbv beta. intros e He. lia.
Qed.

(** A visited tile that is closer to the start than the head of the
    queue has been examined and was rejected. *)
Lemma searching_rejected (grid : Grid) (requireClear3x3 : bool)
    (start : Z * Z) (head : Z * Z * Z) (rest : list (Z * Z * Z))
    (visited : list (Z * Z)) (tile : Z * Z) :
  searching grid requireClear3x3 start (head :: rest) visited ->
  insideGrid grid tile ->
  (manhattan start tile < snd head)%Z ->
  ok grid requireClear3x3 (fst tile) (snd tile) = false.
Proof.
  intros (_ & _ & Hq & Hwave & Hdone & Hhead) Hin Hlt.
  apply Hdone.
  - apply (Hhead head rest eq_refl); [exact Hin | lia].
  - intros Hcell. apply in_map_iff in Hcell. destruct Hcell as (e & He & Hine).
    pose proof (wavefront_levels Hwave) as Hlev.
    rewrite Forall_forall in Hq, Hlev.
    destruct (Hq e Hine) as [_ Hd]. specialize (Hlev e Hine).
    rewrite He in Hd. lia.
Qed.

(** One round of the loop keeps the invariant. *)
Lemma searching_step (grid : Grid) (requireClear3x3 : bool) (start : Z * Z)
    (cur : Z * Z * Z) (rest : list (Z * Z * Z)) (visited : list (Z * Z)) :
  insideGrid grid start ->
  searching grid requireClear3x3 start (cur :: rest) visited ->
  ok grid requireClear3x3 (fst (cellOf cur)) (snd (cellOf cur)) = false ->
  searching grid requireClear3x3 start
    (fst (fold_left (enqueue grid cur) dirs (rest, visited)))
    (snd (fold_left (enqueue grid cur) dirs (rest, visited))).
Proof.
  intros Hstart Hinv Hbad.
  pose proof Hinv as (S0 & S1 & S2 & S3 & S4 & S5).
  destruct (enqueue_fold grid cur dirs (rest, visited))
    as (pushed & Hq & Hv & Hall & Hnb).
  cbn [fst snd] in Hq, Hv, Hall.
  set (q' := fst (fold_left (enqueue grid cur) dirs (rest, visited))) in *.
  set (visited' := snd (fold_left (enqueue grid cur) dirs (rest, visited))) in *.
  clearbody q' visited'. subst q'.
  inversion S2 as [|? ? [Hcur Hd] Hrest]; subst.
  assert (Hd0 : (0 <= snd cur)%Z) by (rewrite Hd; unfold manhattan; lia).
  (* the entries pushed lie on the next ring *)
  assert (Hpushed : Forall (fun entry =>
                              In (cellOf entry) visited' /\
                              snd entry = manhattan start (cellOf entry) /\
                              snd entry = (snd cur + 1)%Z) pushed).
  { rewrite Forall_forall in Hall |- *. intros e He.
    destruct (Hall e He) as (H1 & H2 & H3 & (dir & Hdir & H4)).
    split; [apply Hv; right; now apply in_map|]. split; [|exact H1].
    rewrite H1, H4.
    destruct (neighbour_distance start (cellOf cur) Hdir) as [Hn | Hn];
      [lia|].
    exfalso. apply H3. apply (S5 cur rest eq_refl); [exact H2|].
    rewrite H4. lia. }
  (* the ring of the head and the next one *)
  destruct S3 as (ring & next & Hsplit & Hring & Hnext).
  destruct ring as [|first ring'].
  { cbn [app] in Hsplit. subst next.
    inversion Hnext as [|? ? Hbad' _]; subst. lia. }
  cbn [app] in Hsplit. injection Hsplit as <- ->.
  apply Forall_app in Hrest. destruct Hrest as [Hrest1 Hrest2].
  inversion Hring as [|? ? _ Hring']; subst.
  assert (Hentries : Forall (fun entry =>
                               In (cellOf entry) visited' /\
                               snd entry = manhattan start (cellOf entry))
                       ((ring' ++ next) ++ pushed)).
  { apply Forall_app. split; [apply Forall_app; split|].
    - eapply Forall_impl; [|exact Hrest1]. intros e [H1 H2].
      split; [apply Hv; now left | exact H2].
    - eapply Forall_impl; [|exact Hrest2]. intros e [H1 H2].
      split; [apply Hv; now left | exact H2].
    - eapply Forall_impl; [|exact Hpushed]. intros e (H1 & H2 & _). auto. }
  assert (Hdone' : forall tile, In tile visited' ->
            ~ In tile (map cellOf ((ring' ++ next) ++ pushed)) ->
            ok grid requireClear3x3 (fst tile) (snd tile) = false /\
            forall dir, In dir dirs -> insideGrid grid (neighbour tile dir) ->
                        In (neighbour tile dir) visited').
  { intros tile Hin Hout. rewrite map_app, in_app_iff in Hout.
    apply Hv in Hin. destruct Hin as [Hin | Hin]; [|tauto].
    destruct tile as [tx ty], cur as [[cx cy] d].
    destruct (Z.eq_dec tx cx) as [Hx | Hx];
      [destruct (Z.eq_dec ty cy) as [Hy | Hy]|].
    - subst tx ty. split; [exact Hbad|]. intros dir Hdir Hinside.
      now apply Hnb.
    - destruct (S4 (tx, ty) Hin) as [H1 H2].
      { cbn [map In cellOf fst]. intros [H | H]; [congruence | tauto]. }
      split; [exact H1|]. intros dir Hdir Hinside. apply Hv. left. auto.
    - destruct (S4 (tx, ty) Hin) as [H1 H2].
      { cbn [map In cellOf fst]. intros [H | H]; [congruence | tauto]. }
      split; [exact H1|]. intros dir Hdir Hinside. apply Hv. left. auto. }
  split; [apply Hv; now left|]. split.
  { apply Forall_forall. intros tile Hin. apply Hv in Hin.
    rewrite Forall_forall in S1, Hall. destruct Hin as [Hin | Hin]; [auto|].
    apply in_map_iff in Hin. destruct Hin as (e & <- & He).
    now destruct (Hall e He) as (_ & H & _). }
  split; [exact Hentries|]. split.
  { (* wavefront *)
    destruct ring' as [|second ring''].
    - cbn [app].
      assert (Hlevel : Forall (fun entry => snd entry = (snd cur + 1)%Z)
                         (next ++ pushed)).
      { apply Forall_app. split; [exact Hnext|].
        eapply Forall_impl; [|exact Hpushed]. now intros e (_ & _ & H). }
      destruct (next ++ pushed) as [|head' tail]; [exact I|].
      exists (head' :: tail), []. split; [now rewrite app_nil_r|].
      split; [|constructor].
      pose proof Hlevel as Hlevel'.
      inversion Hlevel' as [|? ? Hh _]; subst.
      eapply Forall_impl; [|exact Hlevel]. cbv beta. intros e He. lia.
    - cbn [app]. exists (second :: ring''), (next ++ pushed).
      split; [now rewrite <- app_assoc|].
      inversion Hring' as [|? ? Hsecond _]; subst. split.
      + eapply Forall_impl; [|exact Hring']. cbv beta. intros e He. lia.
      + apply Forall_app. split.
        * eapply Forall_impl; [|exact Hnext]. cbv beta. intros e He. lia.
        * eapply Forall_impl; [|exact Hpushed]. cbv beta.
          intros e (_ & _ & He). lia. }
  split; [exact Hdone'|].
  (* the head of the new queue *)
  intros head' rest' Hq' tile Hinside Hdist.
  destruct (Z_le_gt_dec (manhattan start tile) (snd cur)) as [Hle | Hgt].
  { apply Hv. left. now apply (S5 cur (ring' ++ next) eq_refl). }
  assert (Hlevels : Forall (fun entry => (snd entry <= snd cur + 1)%Z)
                      ((ring' ++ next) ++ pushed)).
  { apply Forall_app. split; [apply Forall_app; split|].
    - eapply Forall_impl; [|exact Hring']. cbv beta. intros e He. lia.
    - eapply Forall_impl; [|exact Hnext]. cbv beta. intros e He. lia.
    - eapply Forall_impl; [|exact Hpushed]. cbv beta. intros e (_ & _ & He). lia. }
  assert (Hhead' : snd head' = (snd cur + 1)%Z).
  { rewrite Hq' in Hlevels. inversion Hlevels; subst. lia. }
  assert (Hempty : ring' = []).
  { destruct ring' as [|second ring'']; [reflexivity|].
    cbn [app] in Hq'. injection Hq' as <- _.
    inversion Hring' as [|? ? Hsecond _]; subst. lia. }
  subst ring'. cbn [app] in *.
  destruct (@step_closer grid start tile (snd cur) Hstart Hinside Hd0)
    as (closer & dir & Hdir & -> & Hcin & Hcd); [lia|].
  apply Hdone'; [| |exact Hdir | exact Hinside].
  - apply Hv. left. apply (S5 cur next eq_refl); [exact Hcin | lia].
  - intros Hcell. apply in_map_iff in Hcell. destruct Hcell as (e & He & Hine).
    assert (Hlevel : Forall (fun entry => snd entry = (snd cur + 1)%Z)
                       (next ++ pushed)).
    { apply Forall_app. split; [exact Hnext|].
      eapply Forall_impl; [|exact Hpushed]. now intros e' (_ & _ & H). }
    rewrite Forall_forall in Hentries, Hlevel.
    destruct (Hentries e Hine) as [_ H1]. specialize (Hlevel e Hine).
    rewrite He in H1. lia.
Qed.

(** Once the queue is empty every tile of the grid has been examined. *)
Lemma searching_exhausted (grid : Grid) (requireClear3x3 : bool)
    (start : Z * Z) (visited : list (Z * Z)) :
  insideGrid grid start ->
  searching grid requireClear3x3 start [] visited ->
  forall tile, insideGrid grid tile ->
               ok grid requireClear3x3 (fst tile) (snd tile) = false.
Proof.
  intros Hstart (S0 & _ & _ & _ & S4 & _).
  assert (Hall : forall (n : nat) (tile : Z * Z),
            insideGrid grid tile -> manhattan start tile = Z.of_nat n ->
            In tile visited).
  { induction n as [|n IH]; intros tile Hin Hd.
    - assert (tile = start); [|now subst].
      unfold manhattan in Hd. destruct tile, start. cbn [fst snd] in Hd.
      f_equal; lia.
    - destruct (@step_closer grid start tile (Z.of_nat n) Hstart Hin)
        as (closer & dir & Hdir & -> & Hcin & Hcd); [lia | lia |].
      apply (S4 closer); [apply IH; assumption | intros [] | exact Hdir |
                          exact Hin]. }
  intros tile Hin. apply (S4 tile); [|intros []].
  apply (Hall (Z.to_nat (manhattan start tile))); [exact Hin|].
  unfold manhattan. lia.
Qed.

(** The search finds a nearest tile that passes the test, if there is
    one within the radius. *)
Lemma search_nearest (grid : Grid) (requireClear3x3 : bool) (maxR : Z)
    (start : Z * Z) (fuel : nat) :
  insideGrid grid start ->
  forall (q : list (Z * Z * Z)) (visited : list (Z * Z))
         (found : option (Z * Z)),
    searching grid requireClear3x3 start q visited ->
    search fuel grid requireClear3x3 maxR q visited = Some found ->
    match found with
    | Some tile =>
        ok grid requireClear3x3 (fst tile) (snd tile) = true /\
        (manhattan start tile <= maxR)%Z /\
        forall other,
          ok grid requireClear3x3 (fst other) (snd other) = true ->
          (manhattan start tile <= manhattan start other)%Z
    | None =>
        forall other,
          ok grid requireClear3x3 (fst other) (snd other) = true ->
          (maxR < manhattan start other)%Z
    end.
Proof.
  intros Hstart. induction fuel as [|fuel IH]; intros q visited found Hinv;
    cbn [search]; [discriminate|].
  assert (Hinside : forall other,
            ok grid requireClear3x3 (fst other) (snd other) = true ->
            insideGrid grid other).
  { intros [x y] Hok. apply ok_spec in Hok. tauto. }
  destruct q as [|[[cx cy] d] rest].
  { intros [= <-]. intros other Hok.
    rewrite (@searching_exhausted grid requireClear3x3 start visited Hstart Hinv
               other (Hinside other Hok)) in Hok.
    discriminate. }
  assert (Hd : d = manhattan start (cx, cy)).
  { destruct Hinv as (_ & _ & Hq & _). inversion Hq as [|? ? [_ H] _]; subst.
    exact H. }
  destruct (Z.gtb_spec d maxR) as [Hfar | Hnear].
  { intros [= <-]. intros other Hok.
    destruct (Z_lt_ge_dec (manhattan start other) d) as [Hlt | Hge]; [|lia].
    rewrite (@searching_rejected grid requireClear3x3 start (cx, cy, d) rest
               visited other Hinv (Hinside other Hok) Hlt) in Hok.
    discriminate. }
  destruct (ok grid requireClear3x3 cx cy) eqn:Hok.
  { intros [= <-]. cbn [fst snd]. split; [exact Hok|]. split; [lia|].
    intros other Hother.
    destruct (Z_lt_ge_dec (manhattan start other) d) as [Hlt | Hge]; [|lia].
    rewrite (@searching_rejected grid requireClear3x3 start (cx, cy, d) rest
               visited other Hinv (Hinside other Hother) Hlt) in Hother.
    discriminate. }
  pose proof (@searching_step grid requireClear3x3 start (cx, cy, d) rest
                visited Hstart Hinv Hok) as Hnext.
  destruct (fold_left _ dirs (rest, visited)) as [q' visited'].
  cbn [fst snd] in Hnext. intros Hrun. exact (IH _ _ _ Hnext Hrun).
Qed.

Lemma searching_start (grid : Grid) (requireClear3x3 : bool) (start : Z * Z) :
  insideGrid grid start ->
  searching grid requireClear3x3 start [(fst start, snd start, 0%Z)] [start].
Proof.
  intros Hstart. destruct start as [sx sy]. cbn [fst snd].
  assert (Hzero : manhattan (sx, sy) (sx, sy) = 0%Z).
  { unfold manhattan. cbn [fst snd]. lia. }
  split; [now left|]. split; [constructor; [exact Hstart | constructor]|].
  split; [constructor; [|constructor]; cbn [cellOf fst snd]; split;
          [now left | now rewrite Hzero]|].
  split.
  { exists [(sx, sy, 0%Z)], []. repeat split; repeat constructor. }
  split.
  { intros tile [<- | []] Hout. exfalso. apply Hout. now left. }
  intros head rest [= <- <-] tile Hin Hd. left.
  unfold manhattan in Hd. destruct tile as [tx ty]. cbn [fst snd] in Hd.
  f_equal; lia.
Qed.

(** X27: the nearest usable tile.  For a preferred position inside the
    grid, whenever some usable tile lies within the search radius (30
    unless given), counted in steps along the four directions, the result
    of [findSafeSpawnPos] is the centre of a usable tile that is no
    farther from the preferred tile than any other usable tile. *)
Theorem findSafeSpawnPos_nearest (grid : Grid) (preferredPos : Vec2.t)
    (options : option SpawnOptions.t) (within : Z * Z) :
  let maxR :=
    match options with
    | Some o =>
        match SpawnOptions.maxSearchRadiusTiles o with
        | Some r => r
        | None => 30%Z
        end
    | None => 30%Z
    end in
  insideGrid grid (tileOf preferredPos) ->
  usable grid (wantsClear options) within ->
  (manhattan (tileOf preferredPos) within <= maxR)%Z ->
  exists tile,
    findSafeSpawnPos grid preferredPos options = Some (tileCentre tile) /\
    usable grid (wantsClear options) tile /\
    forall other,
      usable grid (wantsClear options) other ->
      (manhattan (tileOf preferredPos) tile <=
       manhattan (tileOf preferredPos) other)%Z.
Proof.
  cbv zeta. intros Hstart Hwithin Hradius.
  unfold findSafeSpawnPos, JSMath.floor. fold (tileOf preferredPos).
  fold (wantsClear options).
  set (maxR := match options with Some o => _ | None => 30%Z end) in *.
  cbv zeta.
  destruct (ok grid (wantsClear options) (fst (tileOf preferredPos))
              (snd (tileOf preferredPos))) eqn:Hok.
  { exists (tileOf preferredPos). split; [reflexivity|].
    split; [now apply usable_spec|]. intros other _. unfold manhattan. lia. }
  destruct (@search_returns grid (wantsClear options) maxR
              (S (S (length (tiles grid))))
              [(fst (tileOf preferredPos), snd (tileOf preferredPos), 0%Z)]
              [tileOf preferredPos] (startLoad grid (tileOf preferredPos)))
    as (found & Hsearch).
  rewrite Hsearch.
  pose proof (@search_nearest grid (wantsClear options) maxR
                (tileOf preferredPos) _ Hstart _ _ _
                (@searching_start grid (wantsClear options)
                   (tileOf preferredPos) Hstart) Hsearch) as Hnear.
  destruct found as [tile|].
  - destruct Hnear as (Htile & _ & Hmin).
    exists tile. split; [reflexivity|]. split; [now apply usable_spec|].
    intros other Hother. apply Hmin. now apply usable_spec.
  - apply usable_spec in Hwithin. specialize (Hnear within Hwithin). lia.
Qed.

Lemma findSafeSpawnPos_nearest_witness :
  exists tile,
    findSafeSpawnPos openRoom (Vec2.mk 0.5 0.5)
      (Some (SpawnOptions.mk (Some true) None)) = Some (tileCentre tile) /\
    manhattan (0, 0)%Z tile = 2%Z.
Proof.
  assert (Hfloor : tileOf (Vec2.mk 0.5 0.5) = (0, 0)%Z).
  { unfold tileOf. cbn [Vec2.x Vec2.y].
    replace (Zfloor 0.5) with 0%Z by (symmetry; apply Zfloor_eq; lra).
    reflexivity. }
  destruct (@findSafeSpawnPos_nearest openRoom (Vec2.mk 0.5 0.5)
              (Some (SpawnOptions.mk (Some true) None)) (1, 1)%Z)
    as (tile & Hrun & Husable & Hmin).
  - rewrite Hfloor. split; cbn; lia.
  - apply usable_spec. vm_compute. reflexivity.
  - rewrite Hfloor. vm_compute. discriminate.
  - exists tile. split; [exact Hrun|].
    rewrite Hfloor in Hmin.
    assert (Hle : (manhattan (0, 0) tile <= 2)%Z).
    { apply (Hmin (1, 1)%Z). apply usable_spec. vm_compute. reflexivity. }
    apply usable_spec in Husable.
    destruct tile as [tx ty]. unfold manhattan in *. cbn [fst snd] in *.
    assert (Hin : insideGrid openRoom (tx, ty)).
    { apply ok_spec in Husable. tauto. }
    destruct Hin as [Hy Hx]. cbn in Hx, Hy.
    assert (Hcases : ((tx = 0 /\ ty = 0) \/ (tx = 1 /\ ty = 0) \/
                      (tx = 0 /\ ty = 1) \/ (tx = 2 /\ ty = 0) \/
                      (tx = 0 /\ ty = 2) \/ (tx = 1 /\ ty = 1))%Z) by lia.
    destruct Hcases as [H | [H | [H | [H | [H | H]]]]]; destruct H as [-> ->];
      try (vm_compute in Husable; discriminate); reflexivity.
Defined.

(** ** Whole games *)

(** X16: rounds never go negative and never exceed the maximum.  If the
    player carries between 0 and the maximum, no enemy has a negative
    count and no pickup a negative amount, the same holds after every run
    of ticks; the player's maximum never changes, and the player cannot
    lose more rounds than ticks have passed. *)
Theorem run_ammo_bounds (ticks : list (InputState.t * R)) :
  forall state state' : GameState.t,
    armsOk state ->
    runTicks state ticks = Some state' ->
    armsOk state' /\
    Player.maxAmmo (GameState.player state') =
      Player.maxAmmo (GameState.player state) /\
    (Player.ammo (GameState.player state) - Z.of_nat (length ticks) <=
     Player.ammo (GameState.player state'))%Z.
Proof.
  induction ticks as [|[input deltaTime] later IH]; intros state state' Harms;
    cbn [runTicks].
  - intros [= <-]. split; [exact Harms|]. split; [reflexivity|]. cbn. lia.
  - destruct (updateGame state input deltaTime) as [[state1 input1]|] eqn:Hrun;
      cbn [bind]; [|discriminate].
    intros Hlater.
    destruct (@updateGame_arms _ _ _ _ _ Harms Hrun) as (Harms1 & Hmax1 & Hammo1).
    destruct (IH _ _ Harms1 Hlater) as (Harms' & Hmax' & Hammo').
    split; [exact Harms'|]. split; [congruence|].
    cbn [length]. lia.
Qed.

Lemma startState_arms : armsOk startState.
Proof.
  split; [vm_compute; split; discriminate|].
  split; [repeat constructor; vm_compute; discriminate | constructor].
Qed.

Lemma run_ammo_bounds_witness :
  exists state',
    runTicks startState [(leftInput, 0.1)] = Some state' /\ armsOk state'.
Proof.
  destruct (@updateGame_tick startState leftInput 0.1 eq_refl startState_ready)
    as (state' & input' & Hrun & _).
  assert (Hplay : runTicks startState [(leftInput, 0.1)] = Some state').
  { cbn [runTicks]. rewrite Hrun. reflexivity. }
  exists state'. split; [exact Hplay|].
  exact (proj1 (@run_ammo_bounds [(leftInput, 0.1)] startState state'
                  startState_arms Hplay)).
Defined.

(** X17: bullet ids are never reused.  If the bullets in flight have
    distinct ids below the id counter and time left to fly, the same holds
    after every run of ticks, and the counter never goes back. *)
Theorem run_bullet_ids (ticks : list (InputState.t * R)) :
  forall state state' : GameState.t,
    bulletsOk state ->
    runTicks state ticks = Some state' ->
    bulletsOk state' /\
    (GameState.nextBulletId state <= GameState.nextBulletId state')%Z.
Proof.
  induction ticks as [|[input deltaTime] later IH]; intros state state' Hok;
    cbn [runTicks].
  - intros [= <-]. split; [exact Hok | lia].
  - destruct (updateGame state input deltaTime) as [[state1 input1]|] eqn:Hrun;
      cbn [bind]; [|discriminate].
    intros Hlater.
    destruct (@updateGame_bullets _ _ _ _ _ Hok Hrun) as (Hok1 & Hnext1).
    destruct (IH _ _ Hok1 Hlater) as (Hok' & Hnext').
    split; [exact Hok' | lia].
Qed.

Lemma shotState_bullets : bulletsOk shotState.
Proof.
  split; [repeat constructor; intros []|].
  constructor; [split; [reflexivity | cbn; lra] | constructor].
Qed.

Lemma run_bullet_ids_witness :
  exists state',
    runTicks shotState [(leftInput, 0.1)] = Some state' /\ bulletsOk state'.
Proof.
  destruct (@updateGame_tick shotState leftInput 0.1 eq_refl startState_ready)
    as (state' & input' & Hrun & _).
  assert (Hplay : runTicks shotState [(leftInput, 0.1)] = Some state').
  { cbn [runTicks]. rewrite Hrun. reflexivity. }
  exists state'. split; [exact Hplay|].
  exact (proj1 (@run_bullet_ids [(leftInput, 0.1)] shotState state'
                  shotState_bullets Hplay)).
Defined.

(** X19: nobody is ever inside a wall.  If the four corners of the
    player's body (half-width 0.3) and of every enemy's body (half-width
    0.35) are on walkable tiles, they still are after every run of ticks;
    the grid itself never changes. *)
Theorem run_stands_clear (ticks : list (InputState.t * R)) :
  forall state state' : GameState.t,
    standsClear state ->
    runTicks state ticks = Some state' ->
    standsClear state' /\ GameState.grid state' = GameState.grid state.
Proof.
  induction ticks as [|[input deltaTime] later IH]; intros state state' Hclear;
    cbn [runTicks].
  - intros [= <-]. split; [exact Hclear | reflexivity].
  - destruct (updateGame state input deltaTime) as [[state1 input1]|] eqn:Hrun;
      cbn [bind]; [|discriminate].
    intros Hlater.
    destruct (@updateGame_clear _ _ _ _ _ Hclear Hrun) as (Hclear1 & Hgrid1).
    destruct (IH _ _ Hclear1 Hlater) as (Hclear' & Hgrid').
    split; [exact Hclear' | congruence].
Qed.

Lemma run_stands_clear_witness :
  exists state',
    runTicks startState [(leftInput, 0.1)] = Some state' /\ standsClear state'.
Proof.
  destruct (@updateGame_tick startState leftInput 0.1 eq_refl startState_ready)
    as (state' & input' & Hrun & _).
  assert (Hplay : runTicks startState [(leftInput, 0.1)] = Some state').
  { cbn [runTicks]. rewrite Hrun. reflexivity. }
  exists state'. split; [exact Hplay|].
  exact (proj1 (@run_stands_clear [(leftInput, 0.1)] startState state'
                  startState_clear Hplay)).
Defined.

(** * Starting a game *)

Lemma indexed_from {A : Type} (l : list A) :
  forall (from k : nat),
    nth_error (combine (map Z.of_nat (seq from (length l))) l) k =
    option_map (fun a => (Z.of_nat (from + k), a)) (nth_error l k).
Proof.
  induction l as [|a l IH]; intros from k; cbn [length seq map combine].
  - now destruct k.
  - destruct k as [|k]; cbn [nth_error option_map].
    + now rewrite Nat.add_0_r.
    + rewrite IH. now rewrite Nat.add_succ_r.
Qed.

Lemma indexed_nth {A : Type} (l : list A) (k : nat) :
  nth_error (indexed l) k =
  option_map (fun a => (Z.of_nat k, a)) (nth_error l k).
Proof. unfold indexed. now rewrite indexed_from. Qed.

Lemma indexed_in {A : Type} (l : list A) (i : Z) (a : A) :
  In (i, a) (indexed l) <-> (0 <= i)%Z /\ nth_error l (Z.to_nat i) = Some a.
Proof.
  split.
  - intros Hin. apply In_nth_error in Hin. destruct Hin as (k & Hk).
    rewrite indexed_nth in Hk.
    destruct (nth_error l k) as [a'|] eqn:Hnth; [|discriminate].
    cbn in Hk. injection Hk as <- <-. rewrite Nat2Z.id. split; [lia | exact Hnth].
  - intros [Hi Hnth]. apply (nth_error_In _ (Z.to_nat i)).
    rewrite indexed_nth, Hnth. cbn. now rewrite Z2Nat.id.
Qed.

(** X28: what [levelDataToGameData] makes of a level.  The grid and the
    spawn and exit positions are passed on.  There is one enemy per enemy
    spawn, in the same order, with its index as id, at the spawn's place
    and angle, alive, patrolling from waypoint 0 at speed 1.5, with no
    alert, full rounds and full health; its waypoints are those of the
    spawn, or the spawn's place alone when the spawn has none, so the list
    is never empty.  There is one uncollected pickup of 6 rounds at the
    centre of every tile marked as ammo, and no other. *)
Theorem levelDataToGameData_spec (level : LevelData.t) :
  let data := levelDataToGameData level in
  GameData.grid data = LevelData.grid level /\
  GameData.spawnPos data = LevelData.spawnPos level /\
  GameData.exitPos data = LevelData.exitPos level /\
  length (GameData.enemies data) = length (LevelData.enemySpawns level) /\
  (forall (i : nat) (spawn : EnemySpawn.t),
     nth_error (LevelData.enemySpawns level) i = Some spawn ->
     exists e,
       nth_error (GameData.enemies data) i = Some e /\
       Enemy.id e = Z.of_nat i /\
       Enemy.pos e = EnemySpawn.pos spawn /\
       Enemy.angle e = EnemySpawn.angle spawn /\
       Enemy.state e = PATROL /\ Enemy.isDead e = false /\
       Enemy.alertLevel e = 0 /\ Enemy.speed e = 1.5 /\
       Enemy.ammo e = COMBAT_CONFIG.enemyAmmo /\
       Enemy.health e = COMBAT_CONFIG.enemyHealth /\
       Enemy.currentWaypointIndex e = 0%nat /\
       Enemy.waypoints e <> [] /\
       Enemy.waypoints e =
         match EnemySpawn.waypoints spawn with
         | [] => [EnemySpawn.pos spawn]
         | _ :: _ => EnemySpawn.waypoints spawn
         end) /\
  (forall pickup,
     In pickup (GameData.ammoPickups data) <->
     exists x y,
       (0 <= x)%Z /\ (0 <= y)%Z /\
       tileAt (LevelData.grid level) x y = Some AMMO /\
       pickup = AmmoPickup.mk (tileCentre (x, y)) 6 false).
Proof.
  cbv zeta. unfold levelDataToGameData.
  cbn [GameData.grid GameData.spawnPos GameData.exitPos GameData.enemies
       GameData.ammoPickups].
  split; [reflexivity|]. split; [reflexivity|]. split; [reflexivity|].
  split.
  { rewrite length_map. unfold indexed.
    rewrite length_combine, length_map, length_seq. apply Nat.min_id. }
  split.
  - intros i spawn Hnth. rewrite nth_error_map, indexed_nth, Hnth.
    cbn [option_map]. eexists. split; [reflexivity|].
    cbn [Enemy.id Enemy.pos Enemy.angle Enemy.state Enemy.isDead
         Enemy.alertLevel Enemy.speed Enemy.ammo Enemy.health
         Enemy.currentWaypointIndex Enemy.waypoints].
    rewrite Vec2_eta.
    do 10 (split; [reflexivity|]).
    destruct (EnemySpawn.waypoints spawn) as [|w ws]; cbn [length Nat.ltb Nat.leb];
      split; (discriminate || reflexivity).
  - intros pickup. rewrite in_flat_map. split.
    + intros ([y row] & Hrow & Hin). apply indexed_in in Hrow.
      destruct Hrow as [Hy Hrow]. apply in_flat_map in Hin.
      destruct Hin as ([x tile] & Htile & Hin). apply indexed_in in Htile.
      destruct Htile as [Hx Htile].
      destruct tile; cbn in Hin; try contradiction.
      destruct Hin as [<- | []].
      exists x, y. split; [exact Hx|]. split; [exact Hy|]. split; [|reflexivity].
      unfold tileAt. now rewrite Hrow.
    + intros (x & y & Hx & Hy & Htile & ->). unfold tileAt in Htile.
      destruct (nth_error (LevelData.grid level) (Z.to_nat y)) as [row|] eqn:Hrow;
        [|discriminate].
      exists (y, row). split; [apply indexed_in; auto|].
      apply in_flat_map. exists (x, AMMO). split; [apply indexed_in; auto|].
      cbn. now left.
Qed.

Lemma mapExn_returns {A B : Type} (f : A -> Exn B) (Q : A -> B -> Prop)
    (l : list A) :
  (forall a, exists b, f a = Some b /\ Q a b) ->
  exists l', mapExn f l = Some l' /\ Forall2 Q l l'.
Proof.
  intros Hf. induction l as [|a l (l' & Hl & Hall)]; cbn [mapExn].
  - exists []. split; [reflexivity | constructor].
  - destruct (Hf a) as (b & Hb & Hq). rewrite Hb, Hl. cbn [bind ret].
    exists (b :: l'). split; [reflexivity | now constructor].
Qed.

(** The state [initGame] builds from a custom level. *)
Lemma initGame_custom (generateLevel : GameConfig.t -> GameData.t)
    (level : LevelData.t) (now : Z) (seed : option Z) :
  let grid := LevelData.grid level in
  exists (state : GameState.t) (spawn : Vec2.t),
    initGame generateLevel (Some level) false now seed = Some state /\
    GameState.grid state = grid /\
    GameState.bullets state = [] /\
    GameState.noiseMarkers state = [] /\
    GameState.nextBulletId state = 0%Z /\
    GameState.ammoPickups state =
      GameData.ammoPickups (levelDataToGameData level) /\
    skipped state = false /\
    GameConfig.gridWidth (GameState.config state) = LevelData.gridWidth level /\
    GameConfig.gridHeight (GameState.config state) = LevelData.gridHeight level /\
    playerRest (GameState.player state) = playerRest (freshPlayer spawn) /\
    Player.health (GameState.player state) = COMBAT_CONFIG.playerHealth /\
    ((exists tile, usable grid true tile /\ spawn = tileCentre tile) \/
     (forall tile, ~ usable grid true tile) /\ spawn = Vec2.mk 1.5 1.5) /\
    (usable grid true (tileOf (LevelData.spawnPos level)) ->
     spawn = tileCentre (tileOf (LevelData.spawnPos level))) /\
    Forall2
      (fun e e' =>
         exists pos,
           e' = Enemy.set_pos pos e /\
           ((exists tile, usable grid false tile /\ pos = tileCentre tile) \/
            (forall tile, ~ usable grid false tile) /\ pos = Vec2.mk 1.5 1.5))
      (GameData.enemies (levelDataToGameData level))
      (GameState.enemies state).
Proof.
  cbv zeta.
  destruct (findSafeSpawnPos_cases (LevelData.grid level)
              (LevelData.spawnPos level)
              (Some (SpawnOptions.mk (Some true) None)))
    as (safe & Hsafe & Hcase & Hpref).
  cbn [SpawnOptions.requireClear3x3] in Hcase, Hpref.
  destruct (@mapExn_returns Enemy.t Enemy.t
              (fun e =>
                 pos <- findSafeEntityPos (LevelData.grid level) (Enemy.pos e) ;;
                 ret (Enemy.set_pos pos e))
              (fun e e' =>
                 exists pos,
                   e' = Enemy.set_pos pos e /\
                   ((exists tile, usable (LevelData.grid level) false tile /\
                                  pos = tileCentre tile) \/
                    (forall tile, ~ usable (LevelData.grid level) false tile) /\
                    pos = Vec2.mk 1.5 1.5))
              (GameData.enemies (levelDataToGameData level)))
    as (safeEnemies & Henemies & Hall).
  { intros e. unfold findSafeEntityPos.
    destruct (findSafeSpawnPos_cases (LevelData.grid level) (Enemy.pos e)
                (Some (SpawnOptions.mk (Some false) (Some 30%Z))))
      as (pos & Hpos & Hc & _).
    cbn [SpawnOptions.requireClear3x3] in Hc.
    rewrite Hpos. cbn [bind ret]. eexists. split; [reflexivity|].
    exists pos. split; [reflexivity|].
    destruct Hc as [(tile & Hok & ->) | (Hnone & ->)].
    - left. exists tile. split; [now apply usable_spec | reflexivity].
    - right. split; [|reflexivity]. intros tile Hu.
      apply usable_spec in Hu. rewrite Hnone in Hu. discriminate. }
  unfold initGame.
  set (data := levelDataToGameData level) in *.
  assert (Hgrid : GameData.grid data = LevelData.grid level) by reflexivity.
  clearbody data. cbv beta iota zeta. rewrite Hgrid, Hsafe. cbn [bind].
  rewrite Henemies. cbn [bind ret].
  eexists. exists safe. split; [reflexivity|].
  cbn [GameState.grid GameState.bullets GameState.noiseMarkers
       GameState.nextBulletId GameState.ammoPickups GameState.config
       GameState.player GameState.enemies GameConfig.gridWidth
       GameConfig.gridHeight Player.health].
  rewrite Vec2_eta.
  do 5 (split; [reflexivity|]). split; [reflexivity|].
  do 2 (split; [reflexivity|]). split; [reflexivity|]. split; [reflexivity|].
  split.
  { destruct Hcase as [(tile & Hok & ->) | (Hnone & ->)].
    - left. exists tile. split; [now apply usable_spec | reflexivity].
    - right. split; [|reflexivity]. intros tile Hu.
      apply usable_spec in Hu. rewrite Hnone in Hu. discriminate. }
  split; [|exact Hall].
  intros Hu. apply Hpref. now apply usable_spec.
Qed.

(** The enemies and pickups made from a level are in order. *)
Lemma levelData_parts (level : LevelData.t) :
  Forall (fun e => enemyOk e /\ Enemy.ammo e = COMBAT_CONFIG.enemyAmmo)
    (GameData.enemies (levelDataToGameData level)) /\
  Forall (fun p => AmmoPickup.amount p = COMBAT_CONFIG.ammoPickupAmount /\
                   AmmoPickup.collected p = false)
    (GameData.ammoPickups (levelDataToGameData level)).
Proof.
  unfold levelDataToGameData. cbn [GameData.enemies GameData.ammoPickups].
  split; apply Forall_forall.
  - intros e Hin. apply in_map_iff in Hin. destruct Hin as ([i spawn] & <- & _).
    split; [|reflexivity]. split; [|split].
    + right. cbn [Enemy.currentWaypointIndex Enemy.waypoints].
      destruct (EnemySpawn.waypoints spawn); cbn; lia.
    + unfold alertBounded. cbn. lra.
    + split; cbn; unfold COMBAT_CONFIG.enemyHealth; lia.
  - intros p Hin. apply in_flat_map in Hin. destruct Hin as ([y row] & _ & Hin).
    apply in_flat_map in Hin. destruct Hin as ([x tile] & _ & Hin).
    destruct (TileType_eqb tile AMMO); [|destruct Hin].
    destruct Hin as [<- | []]. split; reflexivity.
Qed.

(** What every run of ticks keeps, from a state whose waypoint indices
    are in range. *)
Lemma runTicks_sound (ticks : list (InputState.t * R)) :
  forall state : GameState.t,
    Forall patrolReady (GameState.enemies state) ->
    exists state',
      runTicks state ticks = Some state' /\
      Forall patrolReady (GameState.enemies state') /\
      (armsOk state -> armsOk state') /\
      (bulletsOk state -> bulletsOk state') /\
      (standsClear state -> standsClear state').
Proof.
  induction ticks as [|[input deltaTime] later IH]; intros state Hready;
    cbn [runTicks].
  - exists state. auto.
  - destruct (@updateGame_ready state input deltaTime Hready)
      as (state1 & input1 & Hrun & Hready1).
    rewrite Hrun. cbn [bind].
    destruct (IH state1 Hready1) as (state' & Hlater & Hready' & Ha & Hb & Hc).
    exists state'. split; [exact Hlater|]. split; [exact Hready'|].
    split; [|split].
    + intros H. apply Ha. exact (proj1 (@updateGame_arms _ _ _ _ _ H Hrun)).
    + intros H. apply Hb. exact (proj1 (@updateGame_bullets _ _ _ _ _ H Hrun)).
    + intros H. apply Hc. exact (proj1 (@updateGame_clear _ _ _ _ _ H Hrun)).
Qed.

(** The properties of the state a custom level starts in. *)
Lemma initGame_sound (generateLevel : GameConfig.t -> GameData.t)
    (level : LevelData.t) (now : Z) (seed : option Z) :
  exists state : GameState.t,
    initGame generateLevel (Some level) false now seed = Some state /\
    GameState.grid state = LevelData.grid level /\
    skipped state = false /\
    Forall enemyOk (GameState.enemies state) /\
    playerOk state /\ armsOk state /\ bulletsOk state /\
    ((exists tile, usable (LevelData.grid level) true tile) ->
     standsClear state).
Proof.
  destruct (initGame_custom generateLevel level now seed)
    as (state & spawn & Hrun & Hgrid & Hbullets & _ & Hnext & Hpickups & Hskip &
        _ & _ & Hplayer & Hhealth & Hspawn & _ & Henemies).
  destruct (levelData_parts level) as (Hok & Hamounts).
  exists state. split; [exact Hrun|]. split; [exact Hgrid|].
  split; [exact Hskip|].
  unfold playerRest in Hplayer.
  injection Hplayer as P1 P2 P3 P4 P5 P6 P7 P8 P9 P10.
  cbn [freshPlayer Player.pos Player.ammo Player.maxAmmo Player.maxHealth]
    in P1, P7, P8, P9.
  assert (Hsafe : Forall (fun e => enemyOk e /\
                                   Enemy.ammo e = COMBAT_CONFIG.enemyAmmo)
                    (GameState.enemies state)).
  { clear - Hok Henemies.
    induction Henemies as [|e e' l l' (pos & -> & _) _ IH]; [constructor|].
    inversion Hok as [|? ? He Hrest]; subst. constructor; [exact He | auto]. }
  split; [eapply Forall_impl; [|exact Hsafe]; now intros e [H _]|].
  split.
  { unfold playerOk. rewrite Hhealth, P9.
    unfold COMBAT_CONFIG.playerHealth. split; intros; lia. }
  split.
  { unfold armsOk. rewrite P7, P8, Hpickups.
    unfold COMBAT_CONFIG.playerStartAmmo, COMBAT_CONFIG.playerMaxAmmo.
    split; [lia|]. split.
    - eapply Forall_impl; [|exact Hsafe]. cbv beta. intros e [_ ->].
      unfold COMBAT_CONFIG.enemyAmmo. lia.
    - eapply Forall_impl; [|exact Hamounts]. cbv beta. intros p [-> _].
      unfold COMBAT_CONFIG.ammoPickupAmount. lia. }
  split.
  { unfold bulletsOk. rewrite Hbullets. split; constructor. }
  intros (clear & Hclear). unfold standsClear. rewrite Hgrid, P1. split.
  - destruct Hspawn as [(tile & Hu & ->) | (Hnone & _)];
      [|now destruct (Hnone clear)].
    unfold cornersWalkable, tileCentre. cbn [Vec2.x Vec2.y].
    split; [|split; [|split]];
      match goal with |- walkableAt _ ?cx ?cy =>
        apply (@centre_walkable (LevelData.grid level) true tile cx cy Hu) end;
      lra.
  - assert (Hwalk : usable (LevelData.grid level) false clear).
    { destruct Hclear as (H1 & H2 & _). split; [exact H1|].
      split; [exact H2 | discriminate]. }
    clear - Henemies Hwalk.
    induction Henemies as [|e e' l l' (pos & -> & Hpos) _ IH]; constructor;
      [|exact IH].
    destruct Hpos as [(tile & Hu & ->) | (Hnone & _)];
      [|now destruct (Hnone clear)].
    unfold cornersWalkable, tileCentre. cbn [Enemy.pos Enemy.set_pos Vec2.x Vec2.y].
    split; [|split; [|split]];
      match goal with |- walkableAt _ ?cx ?cy =>
        apply (@centre_walkable (LevelData.grid level) false tile cx cy Hu) end;
      lra.
Qed.

(** X29: the state a custom level starts in.  [initGame] always returns
    a state.  It has the level's grid, no bullets and no noise markers, a
    bullet counter of 0 and no flag set; the player has full health and
    12 of at most 24 rounds and stands at the centre of a tile with a
    clear 3 x 3 block around it, the tile of the level's spawn position
    if that one qualifies, or at (1.5, 1.5) if no tile of the grid does;
    there is one enemy per enemy spawn, each as [levelDataToGameData]
    made it, but for its position, which is the centre of a tile that is
    not a wall. *)
Theorem initGame_custom_start (generateLevel : GameConfig.t -> GameData.t)
    (level : LevelData.t) (now : Z) (seed : option Z) :
  let grid := LevelData.grid level in
  exists state : GameState.t,
    initGame generateLevel (Some level) false now seed = Some state /\
    GameState.grid state = grid /\
    GameState.bullets state = [] /\ GameState.noiseMarkers state = [] /\
    GameState.nextBulletId state = 0%Z /\ skipped state = false /\
    Player.health (GameState.player state) = 3%Z /\
    Player.ammo (GameState.player state) = 12%Z /\
    Player.maxAmmo (GameState.player state) = 24%Z /\
    ((exists tile, usable grid true tile /\
                   Player.pos (GameState.player state) = tileCentre tile) \/
     (forall tile, ~ usable grid true tile) /\
     Player.pos (GameState.player state) = Vec2.mk 1.5 1.5) /\
    (usable grid true (tileOf (LevelData.spawnPos level)) ->
     Player.pos (GameState.player state) =
       tileCentre (tileOf (LevelData.spawnPos level))) /\
    Forall2
      (fun e e' =>
         enemyMind (Enemy.set_pos (Enemy.pos e) e') = enemyMind e /\
         enemyBody e' = enemyBody e /\
         ((exists tile, usable grid false tile /\
                        Enemy.pos e' = tileCentre tile) \/
          (forall tile, ~ usable grid false tile) /\
          Enemy.pos e' = Vec2.mk 1.5 1.5))
      (GameData.enemies (levelDataToGameData level))
      (GameState.enemies state).
Proof.
  cbv zeta.
  destruct (initGame_custom generateLevel level now seed)
    as (state & spawn & Hrun & Hgrid & Hbullets & Hnoise & Hnext & _ & Hskip &
        _ & _ & Hplayer & Hhealth & Hspawn & Hpref & Henemies).
  unfold playerRest in Hplayer.
  injection Hplayer as P1 P2 P3 P4 P5 P6 P7 P8 P9 P10.
  cbn [freshPlayer Player.pos Player.ammo Player.maxAmmo] in P1, P7, P8.
  exists state. rewrite P1.
  split; [exact Hrun|]. split; [exact Hgrid|]. split; [exact Hbullets|].
  split; [exact Hnoise|]. split; [exact Hnext|]. split; [exact Hskip|].
  split; [exact Hhealth|]. split; [exact P7|]. split; [exact P8|].
  split; [exact Hspawn|]. split; [exact Hpref|].
  eapply Forall2_impl; [|exact Henemies].
  intros e e' (pos & -> & Hpos). cbn [Enemy.pos Enemy.set_pos].
  split; [now destruct e|]. split; [reflexivity | exact Hpos].
Qed.

(** X30: a custom level can be played to the end.  From the state
    [initGame] builds for a custom level, every run of ticks returns a
    state, whatever the inputs and the time steps: the game never throws.
    Along the way the rounds stay within their bounds and the bullet ids
    distinct, and if the grid has any tile with a clear 3 x 3 block, the
    player and the enemies are never inside a wall. *)
Theorem custom_game_playable (generateLevel : GameConfig.t -> GameData.t)
    (level : LevelData.t) (now : Z) (seed : option Z)
    (ticks : list (InputState.t * R)) :
  exists start final : GameState.t,
    initGame generateLevel (Some level) false now seed = Some start /\
    runTicks start ticks = Some final /\
    armsOk final /\ bulletsOk final /\
    ((exists tile, usable (LevelData.grid level) true tile) ->
     standsClear final).
Proof.
  destruct (initGame_sound generateLevel level now seed)
    as (start & Hstart & _ & _ & Henemies & _ & Harms & Hbullets & Hclear).
  destruct (@runTicks_sound ticks start (Forall_patrolReady Henemies))
    as (final & Hrun & _ & Ha & Hb & Hc).
  exists start, final. split; [exact Hstart|]. split; [exact Hrun|].
  split; [auto|]. split; [auto|]. auto.
Qed.
